(** * The RC Report: analytics aggregation and setup diff core

    A shallow embedding of the lap parser and run aggregator (stats.js),
    the setup normalizer (db.js), the structural diff engine (diff.js) and
    the setup-change correlator of the application script, with the
    properties the design document states about them.

    JavaScript numbers are IEEE 754 binary64 values; they are modelled by
    Rocq's primitive floats, so sums, means, minima and differences are
    computed exactly as the engine computes them. *)

From Stdlib Require Import ZArith List String Ascii Bool Lia.
From Stdlib Require Import PrimFloat SpecFloat FloatOps FloatAxioms.
From Stdlib Require Import Sorting.Sorted Sorting.Permutation.
Import ListNotations.

Set Warnings "-inexact-float,-register-all".

Local Open Scope string_scope.
Local Open Scope list_scope.

(** ** JavaScript values and built-ins *)

Module Js.

(** Scalar values held by the stored records: missing fields read as
    [undefined], cleared fields as [null], and the rest is free text or a
    number. *)
Inductive Prim : Type :=
| PUndef
| PNull
| PNum (f : float)
| PStr (s : string).

(** Nested records: a plain object is an association list in insertion
    order (the order [Object.keys] reports for non-index keys). *)
Inductive JsVal : Type :=
| VPrim (p : Prim)
| VObj (fields : list (string * JsVal)).

Definition undefined : JsVal := VPrim PUndef.
Definition str (s : string) : JsVal := VPrim (PStr s).

(** [isNaN(x)] on a number. *)
Definition isNaN (f : float) : bool := negb (PrimFloat.eqb f f).

(** ToBoolean. *)
Definition truthyP (p : Prim) : bool :=
  match p with
  | PUndef | PNull => false
  | PNum f => negb (PrimFloat.eqb f 0 || isNaN f)
  | PStr s => negb (String.eqb s "")
  end.

Definition truthy (v : JsVal) : bool :=
  match v with
  | VPrim p => truthyP p
  | VObj _ => true
  end.

(** [a === b] on scalars. *)
Definition strict_eq (a b : Prim) : bool :=
  match a, b with
  | PUndef, PUndef => true
  | PNull, PNull => true
  | PNum x, PNum y => PrimFloat.eqb x y
  | PStr x, PStr y => String.eqb x y
  | _, _ => false
  end.

(** [a || b]. *)
Definition orP (a b : Prim) : Prim := if truthyP a then a else b.
Definition orV (a b : JsVal) : JsVal := if truthy a then a else b.

(** Own-property lookup in a plain object; [undefined] when absent. *)
Fixpoint lookup (k : string) (fs : list (string * JsVal)) : JsVal :=
  match fs with
  | [] => undefined
  | (k', v) :: rest => if String.eqb k k' then v else lookup k rest
  end.

(** [v.k] for a value that is not null or undefined.  The scalar
    wrappers have none of the property names used by the application, so
    the read gives [undefined] on them. *)
Definition get (v : JsVal) (k : string) : JsVal :=
  match v with
  | VObj fs => lookup k fs
  | VPrim _ => undefined
  end.

(** *** Strings *)

(** Text is held in UTF-8, as string literals are.  The white space
    [trim] and [parseFloat] strip is ECMAScript's WhiteSpace and
    LineTerminator: U+0009 to U+000D and U+0020 (one byte each), U+00A0
    (two bytes), and U+1680, U+2000 to U+200A, U+2028, U+2029, U+202F,
    U+205F, U+3000 and U+FEFF (three bytes each). *)
Definition is_space (a : ascii) : bool :=
  let x := nat_of_ascii a in
  ((9 <=? x) && (x <=? 13) || (x =? 32))%nat.

Definition is_space2 (a b : ascii) : bool :=
  ((nat_of_ascii a =? 194) && (nat_of_ascii b =? 160))%nat.

Definition is_space3 (a b c : ascii) : bool :=
  let x := nat_of_ascii a in
  let y := nat_of_ascii b in
  let z := nat_of_ascii c in
  ((x =? 225) && (y =? 154) && (z =? 128)
   || (x =? 226) && (y =? 128)
      && ((128 <=? z) && (z <=? 138) || (z =? 168) || (z =? 169) || (z =? 175))
   || (x =? 226) && (y =? 129) && (z =? 159)
   || (x =? 227) && (y =? 128) && (z =? 128)
   || (x =? 239) && (y =? 187) && (z =? 191))%nat.

(** [String.prototype.trimStart]. *)
Fixpoint trimStart (s : string) : string :=
  match s with
  | String a rest =>
      if is_space a then trimStart rest
      else
        match rest with
        | String b rest2 =>
            if is_space2 a b then trimStart rest2
            else
              match rest2 with
              | String c rest3 =>
                  if is_space3 a b c then trimStart rest3 else s
              | EmptyString => s
              end
        | EmptyString => s
        end
  | EmptyString => EmptyString
  end.

(** [String.prototype.trimEnd]: the text is cut where only white space
    follows. *)
Fixpoint trimEnd (s : string) : string :=
  match s with
  | String a rest =>
      if String.eqb (trimStart s) "" then "" else String a (trimEnd rest)
  | EmptyString => EmptyString
  end.

(** [String.prototype.trim]. *)
Definition trim (s : string) : string := trimEnd (trimStart s).

(** [s.includes(t)]. *)
Fixpoint includes (t s : string) : bool :=
  String.prefix t s ||
  match s with
  | EmptyString => false
  | String _ rest => includes t rest
  end.

(** *** Decimal literals and [parseFloat] *)

Definition digit_of (c : ascii) : option Z :=
  let n := Z.of_nat (nat_of_ascii c) in
  if ((48 <=? n) && (n <=? 57))%Z then Some (n - 48)%Z else None.

(** Reads the longest run of decimal digits: accumulated value, number
    of digits read, and the rest of the text. *)
Fixpoint read_digits (acc : Z) (count : nat) (s : string) : Z * nat * string :=
  match s with
  | String c rest =>
      match digit_of c with
      | Some d => read_digits (10 * acc + d) (S count) rest
      | None => (acc, count, s)
      end
  | EmptyString => (acc, count, s)
  end.

Definition read_sign (s : string) : bool * string :=
  match s with
  | String c rest =>
      if Ascii.eqb c "-" then (true, rest)
      else if Ascii.eqb c "+" then (false, rest)
      else (false, s)
  | EmptyString => (false, s)
  end.

(** ExponentPart, taken only when it is complete ([e], optional sign, at
    least one digit). *)
Definition read_exponent (s : string) : Z :=
  match s with
  | String c rest =>
      if (Ascii.eqb c "e" || Ascii.eqb c "E")%char then
        let '(neg, rest') := read_sign rest in
        let '(e, n, _) := read_digits 0 0 rest' in
        match n with
        | O => 0%Z
        | S _ => if neg then (- e)%Z else e
        end
      else 0%Z
  | EmptyString => 0%Z
  end.

(** The binary64 value nearest to [m * 10^e] (ties to even), for
    [m >= 0]; [neg] is the sign. *)
Definition decimal_to_float (neg : bool) (m e : Z) : float :=
  match m with
  | Zpos mp =>
      let sf :=
        match e with
        | Zneg k =>
            SFdiv prec emax (S754_finite neg mp 0)
                  (S754_finite false (Pos.pow 10 k) 0)
        | _ => binary_normalize prec emax (cond_Zopp neg (m * 10 ^ e)) 0 neg
        end in
      SF2Prim sf
  | _ => if neg then neg_zero else zero
  end.

(** [parseFloat(s)]: skips leading white space, then converts the longest
    prefix that is a StrDecimalLiteral; [NaN] when there is none. *)
Definition parseFloat (s : string) : float :=
  let '(neg, body) := read_sign (trimStart s) in
  if String.prefix "Infinity" body then
    (if neg then neg_infinity else infinity)
  else
    let '(ip, ni, rest) := read_digits 0 0 body in
    let '(m, nf, rest') :=
      match rest with
      | String c after =>
          if Ascii.eqb c "." then read_digits ip 0 after else (ip, O, rest)
      | EmptyString => (ip, O, rest)
      end in
    match (ni + nf)%nat with
    | O => nan
    | S _ => decimal_to_float neg m (read_exponent rest' - Z.of_nat nf)
    end.

End Js.

Import Js.

(** *** Numbers and text *)

(** The binary64 value of an integer (exact below 2^53). *)
Definition float_of_Z (z : Z) : float :=
  SF2Prim (binary_normalize prec emax z 0 false).

Definition float_of_nat (n : nat) : float := float_of_Z (Z.of_nat n).

(** [Math.min(a, b)]: [NaN] if either is, and [-0] below [+0]. *)
Definition min2 (a b : float) : float :=
  if isNaN a then a
  else if isNaN b then b
  else if PrimFloat.ltb a b then a
  else if PrimFloat.ltb b a then b
  else if get_sign a then a else b.

(** [Math.min(...l)]; the empty call gives [+Infinity]. *)
Definition Math_min (l : list float) : float := fold_left min2 l infinity.

(** [l.reduce((sum, x) => sum + x, 0)]. *)
Definition sum (l : list float) : float := fold_left PrimFloat.add l 0%float.

Fixpoint digits_of_pos (fuel : nat) (n : Z) (acc : string) : string :=
  match fuel with
  | O => acc
  | S fuel' =>
      let acc' := String (ascii_of_nat (48 + Z.to_nat (n mod 10))) acc in
      if (n <? 10)%Z then acc' else digits_of_pos fuel' (n / 10) acc'
  end.

(** Decimal text of an integer, as [String(n)] prints a safe integer. *)
Definition string_of_Z (z : Z) : string :=
  let a := Z.abs z in
  let ds := digits_of_pos (S (Z.to_nat (Z.log2 a))) a "" in
  if (z <? 0)%Z then String "-" ds else ds.

Definition string_of_nat (n : nat) : string := string_of_Z (Z.of_nat n).

Fixpoint repeat_char (c : ascii) (n : nat) : string :=
  match n with
  | O => ""
  | S n' => String c (repeat_char c n')
  end.

(** [s.padStart(n, '0')]. *)
Definition padStart0 (n : nat) (s : string) : string :=
  repeat_char "0" (n - String.length s) ++ s.

(** [s.split(c)[0]]. *)
Fixpoint before_char (c : ascii) (s : string) : string :=
  match s with
  | EmptyString => ""
  | String d rest => if Ascii.eqb c d then "" else String d (before_char c rest)
  end.

(** [s.split('.')], never empty. *)
Fixpoint split_dot (s : string) : list string :=
  match s with
  | EmptyString => [""]
  | String c rest =>
      if Ascii.eqb c "." then "" :: split_dot rest
      else match split_dot rest with
           | seg :: segs => String c seg :: segs
           | [] => [String c ""]
           end
  end.

(** The integer nearest to [|x| * 10^3], the larger one on a tie, as
    [Number.prototype.toFixed] picks it; [None] for a value that is not
    finite. *)
Definition scaled_thousandths (x : float) : option Z :=
  match Prim2SF x with
  | S754_zero _ => Some 0%Z
  | S754_finite _ m e =>
      let n := (Zpos m * 1000)%Z in
      Some (match e with
            | Zneg k => ((2 * n + 2 ^ Zpos k) / 2 ^ (Zpos k + 1))%Z
            | _ => (n * 2 ^ e)%Z
            end)
  | _ => None
  end.

(** [x.toFixed(3)] for a finite [x] below 10^21 in magnitude, which is
    where the method prints fixed notation. *)
Definition toFixed3 (x : float) : string :=
  match scaled_thousandths x with
  | Some n =>
      let sign := if PrimFloat.ltb x 0 then "-" else "" in
      sign ++ string_of_Z (n / 1000) ++ "." ++ padStart0 3 (string_of_Z (n mod 1000))
  | None =>
      if isNaN x then "NaN"
      else if PrimFloat.ltb x 0 then "-Infinity" else "Infinity"
  end.

(** ** The host: dates, collation, number printing

    The engine's [Date] object, [String.prototype.localeCompare] and the
    printing of arbitrary numbers depend on the host (time zone, locale,
    date-text heuristics).  The program is modelled over any host. *)

Class Host : Type := {
  (** time value (ms since the epoch) of [new Date(v)]; [None] stands
      for an Invalid Date, whose time value is [NaN] *)
  Date_new : Prim -> option Z;
  (** time value of [new Date(y, monthIndex, d)], local time *)
  Date_local : Z -> Z -> Z -> Z;
  (** [d.setHours(23, 59, 59, 999)] on a valid date *)
  setHours_dayEnd : Z -> Z;
  getFullYear : Z -> Z;
  getMonth : Z -> Z;
  getDate : Z -> Z;
  (** [d.toISOString()] on a valid date *)
  toISOString : Z -> string;
  (** sign of [a.localeCompare(b)] *)
  localeCompare : string -> string -> Z;
  (** [String(x)] on a number *)
  Number_toString : float -> string
}.

(** What a thrown exception is. *)
Inductive Error : Type := RangeError | TypeError.

Inductive Outcome (A : Type) : Type :=
| Ok (a : A)
| Throw (e : Error).
Arguments Ok {A} a.
Arguments Throw {A} e.

Definition bind {A B : Type} (m : Outcome A) (k : A -> Outcome B) : Outcome B :=
  match m with
  | Ok a => k a
  | Throw e => Throw e
  end.

Notation "x <- m ;; k" := (bind m (fun x => k))
  (at level 61, m at next level, right associativity).

(** [Array.prototype.sort(cmp)] for a comparator returning a number
    ([None] stands for [NaN], which the sort reads as [+0]).  The sort
    is stable; for a consistent comparator every conforming engine gives
    this result. *)
Section Sort.
Context {A : Type} (cmp : A -> A -> option Z).

Definition not_after (x y : A) : bool :=
  match cmp x y with
  | Some d => (d <=? 0)%Z
  | None => true
  end.

Fixpoint insert_sorted (x : A) (l : list A) : list A :=
  match l with
  | [] => [x]
  | y :: rest => if not_after x y then x :: l else y :: insert_sorted x rest
  end.

Definition sort (l : list A) : list A := fold_right insert_sorted [] l.
End Sort.

(** [a - b] on the time values of two dates. *)
Definition date_diff (a b : option Z) : option Z :=
  match a, b with
  | Some x, Some y => Some (x - y)%Z
  | _, _ => None
  end.

(** ** Stored records *)

Module Run.
(** A run log.  [bestLap] and [avgLap] are the stored texts;
    [eventDate], [trackId], [bestLapNum] and [avgLapNum] are the fields
    the analytics loader adds ([undefined] / [None] before that). *)
Record t : Type := mk {
  id : Prim;
  eventId : Prim;
  carId : Prim;
  sessionType : Prim;
  setupId : Prim;
  createdAt : Prim;
  bestLap : Prim;
  avgLap : Prim;
  eventDate : Prim;
  trackId : Prim;
  bestLapNum : option float;
  avgLapNum : option float
}.
End Run.

Module Event.
Record t : Type := mk {
  id : Prim;
  trackId : Prim;
  date : Prim
}.
End Event.

Module Track.
(** [name] is text when present. *)
Record t : Type := mk {
  id : Prim;
  name : option string
}.
End Track.

Module Car.
Record t : Type := mk {
  id : Prim;
  name : option string
}.
End Car.

Module Setup.
(** [setupSchemaVersion] is a number when present. *)
Record t : Type := mk {
  id : Prim;
  carId : Prim;
  setupSchemaVersion : option float;
  setupData : JsVal
}.
End Setup.

Module Filters.
Record t : Type := mk {
  carId : Prim;
  trackId : Prim;
  dateFrom : Prim;
  dateTo : Prim;
  sessionType : Prim
}.
(** The default [filters = {}]. *)
Definition none : t := mk PUndef PUndef PUndef PUndef PUndef.
End Filters.

(** ** Analytics aggregation (stats.js) *)

Module Stats.

(** The test [isNaN(num) || num <= 0] and the two returns after it. *)
Definition positive_or_null (num : float) : option float :=
  if isNaN num || PrimFloat.leb num 0 then None else Some num.

(** [parseLap(value)]; the documented argument is a string or a number,
    and a missing field arrives as [null] or [undefined].  [None] is the
    [null] result. *)
Definition parseLap (value : Prim) : option float :=
  match value with
  | PNull | PUndef | PStr "" => None
  | PStr s => positive_or_null (parseFloat s)
  | PNum n => positive_or_null n
  end.

Record KPIs : Type := mkKPIs {
  bestLapMin : option float;
  avgLapMean : option float;
  runCount : nat;
  eventCount : nat
}.

Record TrendPoint : Type := mkPoint {
  x : string;
  bestLap : option float;
  avgLap : option float
}.

Record TrackSummary : Type := mkSummary {
  ts_trackId : Prim;
  ts_trackName : option string;
  ts_bestLapMin : option float;
  ts_avgLapMean : option float;
  ts_runCount : nat
}.

Record Aggregate : Type := mkAggregate {
  filteredRuns : list Run.t;
  kpis : KPIs;
  trendSeries : list TrendPoint;
  byTrack : list TrackSummary
}.

(** [events.find(e => e.id === id)]. *)
Definition find_event (events : list Event.t) (id : Prim) : option Event.t :=
  find (fun e => strict_eq (Event.id e) id) events.

(** [tracks.find(t => t.id === id)]. *)
Definition find_track (tracks : list Track.t) (id : Prim) : option Track.t :=
  find (fun t => strict_eq (Track.id t) id) tracks.

(** [runs.map(r => parseLap(r.f)).filter(lap => lap !== null)]. *)
Definition valid_laps (f : Run.t -> Prim) (runs : list Run.t) : list float :=
  flat_map (fun r => match parseLap (f r) with
                     | Some lap => [lap]
                     | None => []
                     end) runs.

(** [l.length > 0 ? Math.min(...l) : null]. *)
Definition min_or_null (l : list float) : option float :=
  match l with
  | [] => None
  | _ => Some (Math_min l)
  end.

(** [l.length > 0 ? l.reduce((sum, lap) => sum + lap, 0) / l.length : null]. *)
Definition mean_or_null (l : list float) : option float :=
  match l with
  | [] => None
  | _ => Some (sum l / float_of_nat (List.length l))%float
  end.

(** Membership in a [Set] (SameValueZero). *)
Definition same_value_zero (a b : Prim) : bool :=
  match a, b with
  | PNum x, PNum y => PrimFloat.eqb x y || (isNaN x && isNaN y)
  | _, _ => strict_eq a b
  end.

(** [new Set(l).size]. *)
Fixpoint distinct_count (seen l : list Prim) : nat :=
  match l with
  | [] => List.length seen
  | v :: rest =>
      if existsb (same_value_zero v) seen then distinct_count seen rest
      else distinct_count (v :: seen) rest
  end.

Definition calculateKPIs (runs : list Run.t) : KPIs :=
  let bestLapTimes := valid_laps Run.bestLap runs in
  let avgLapTimes := valid_laps Run.avgLap runs in
  {| bestLapMin := min_or_null bestLapTimes;
     avgLapMean :=
       match avgLapTimes with
       | _ :: _ => mean_or_null avgLapTimes
       | [] => mean_or_null bestLapTimes
       end;
     runCount := List.length runs;
     eventCount := distinct_count [] (filter truthyP (map Run.eventId runs)) |}.

Section WithHost.
Context {H : Host}.

Definition date_lt (a b : option Z) : bool :=
  match a, b with
  | Some u, Some v => (u <? v)%Z
  | _, _ => false
  end.

Definition withinDateRange (dateStr startStr endStr : Prim) : bool :=
  if negb (truthyP dateStr) then false
  else
    let date := Date_new dateStr in
    if truthyP startStr && date_lt date (Date_new startStr) then false
    else if truthyP endStr
            && date_lt (option_map setHours_dayEnd (Date_new endStr)) date
    then false
    else true.

Definition is_digit (c : ascii) : bool :=
  match digit_of c with Some _ => true | None => false end.

(** The match of [/^\d{4}-\d{2}-\d{2}$/] followed by
    [split('-').map(Number)]. *)
Definition ymd_of_text (s : string) : option (Z * Z * Z) :=
  match s with
  | String y1 (String y2 (String y3 (String y4 (String "-"
    (String m1 (String m2 (String "-" (String d1 (String d2 "")))))))))
    =>
      if forallb is_digit [y1; y2; y3; y4; m1; m2; d1; d2] then
        let num l := fst (fst (read_digits 0 0 (string_of_list_ascii l))) in
        Some (num [y1; y2; y3; y4], num [m1; m2], num [d1; d2])
      else None
  | _ => None
  end.

(** [dateKeyFromLocal(dateStr)]; [None] is [null]. *)
Definition dateKeyFromLocal (dateStr : Prim) : option string :=
  if negb (truthyP dateStr) then None
  else
    let d :=
      match dateStr with
      | PStr s =>
          match ymd_of_text s with
          | Some (y, m, day) => Some (Date_local y (m - 1) day)
          | None => Date_new dateStr
          end
      | _ => Date_new dateStr
      end in
    match d with
    | None => None
    | Some t =>
        let y := getFullYear t in
        let mm := padStart0 2 (string_of_Z (getMonth t + 1)) in
        let dd := padStart0 2 (string_of_Z (getDate t)) in
        Some (string_of_Z y ++ "-" ++ mm ++ "-" ++ dd)%string
    end.

(** The filter callback of [aggregateRuns]. *)
Definition keep_run (events : list Event.t) (filters : Filters.t)
           (run : Run.t) : bool :=
  if truthyP (Filters.carId filters)
     && negb (strict_eq (Run.carId run) (Filters.carId filters))
  then false
  else if truthyP (Filters.trackId filters)
          && match find_event events (Run.eventId run) with
             | None => true
             | Some event =>
                 negb (strict_eq (Event.trackId event) (Filters.trackId filters))
             end
  then false
  else if (truthyP (Filters.dateFrom filters) || truthyP (Filters.dateTo filters))
          && negb (withinDateRange (Run.createdAt run)
                                   (Filters.dateFrom filters)
                                   (Filters.dateTo filters))
  then false
  else if truthyP (Filters.sessionType filters)
          && negb (strict_eq (Run.sessionType run) (Filters.sessionType filters))
  then false
  else true.

(** The [event && event.date] test of the trend grouping. *)
Definition dated_event (events : list Event.t) (run : Run.t) : option Event.t :=
  match find_event events (Run.eventId run) with
  | Some event => if truthyP (Event.date event) then Some event else None
  | None => None
  end.

(** The day a run is charted under: its event's date when the event
    has one, else the day of [createdAt]; [Ok None] when the run has
    neither and is skipped.  A [null] key names the property ["null"];
    [toISOString] throws on an Invalid Date. *)
Definition dateKey_of (events : list Event.t) (run : Run.t)
  : Outcome (option string) :=
  match dated_event events run with
  | Some event =>
      Ok (Some match dateKeyFromLocal (Event.date event) with
               | Some k => k
               | None => "null"
               end)
  | None =>
      if truthyP (Run.createdAt run) then
        match Date_new (Run.createdAt run) with
        | Some t => Ok (Some (before_char "T" (toISOString t)))
        | None => Throw RangeError
        end
      else Ok None
  end.

(** [if (!o[k]) o[k] = []; o[k].push(run)] on an object whose keys are
    date texts: a new key goes last. *)
Fixpoint push_at (k : string) (run : Run.t)
         (o : list (string * list Run.t)) : list (string * list Run.t) :=
  match o with
  | [] => [(k, [run])]
  | (k', rs) :: rest =>
      if String.eqb k k' then (k', rs ++ [run]) :: rest
      else (k', rs) :: push_at k run rest
  end.

(** The [forEach] that fills [runsByDate]. *)
Fixpoint group_by_date (events : list Event.t) (runs : list Run.t)
         (o : list (string * list Run.t))
  : Outcome (list (string * list Run.t)) :=
  match runs with
  | [] => Ok o
  | run :: rest =>
      k <- dateKey_of events run ;;
      group_by_date events rest
        match k with
        | Some dateKey => push_at dateKey run o
        | None => o
        end
  end.

Definition trend_point (entry : string * list Run.t) : TrendPoint :=
  let '(dateKey, dateRuns) := entry in
  {| x := dateKey;
     bestLap := min_or_null (valid_laps Run.bestLap dateRuns);
     avgLap := mean_or_null (valid_laps Run.avgLap dateRuns) |}.

(** The comparator [(a, b) => new Date(a.x) - new Date(b.x)]. *)
Definition by_date (a b : TrendPoint) : option Z :=
  date_diff (Date_new (PStr (x a))) (Date_new (PStr (x b))).

Definition buildTrendSeries (runs : list Run.t) (events : list Event.t)
  : Outcome (list TrendPoint) :=
  runsByDate <- group_by_date events runs [] ;;
  Ok (sort by_date (map trend_point runsByDate)).

(** [String(v)], as a property key or inside a template. *)
Definition toStringP (v : Prim) : string :=
  match v with
  | PUndef => "undefined"
  | PNull => "null"
  | PNum f => Number_toString f
  | PStr s => s
  end.

Record TrackData : Type := mkTrackData {
  td_trackId : Prim;
  td_trackName : option string;
  td_bestLaps : list float;
  td_avgLaps : list float;
  td_runCount : nat
}.

Definition push_lap (lap : option float) (l : list float) : list float :=
  match lap with
  | Some v => l ++ [v]
  | None => l
  end.

Definition record_run (run : Run.t) (td : TrackData) : TrackData :=
  {| td_trackId := td_trackId td;
     td_trackName := td_trackName td;
     td_bestLaps := push_lap (parseLap (Run.bestLap run)) (td_bestLaps td);
     td_avgLaps := push_lap (parseLap (Run.avgLap run)) (td_avgLaps td);
     td_runCount := S (td_runCount td) |}.

(** One step of the [forEach] over [trackData]; keys are track ids,
    which are not array-index texts, so a new key goes last. *)
Fixpoint record_at (k : string) (track : Track.t) (run : Run.t)
         (o : list (string * TrackData)) : list (string * TrackData) :=
  match o with
  | [] =>
      [(k, record_run run (mkTrackData (Track.id track) (Track.name track) [] [] 0))]
  | (k', td) :: rest =>
      if String.eqb k k' then (k', record_run run td) :: rest
      else (k', td) :: record_at k track run rest
  end.

Definition track_step (events : list Event.t) (tracks : list Track.t)
           (o : list (string * TrackData)) (run : Run.t)
  : list (string * TrackData) :=
  match find_event events (Run.eventId run) with
  | None => o
  | Some event =>
      if negb (truthyP (Event.trackId event)) then o
      else match find_track tracks (Event.trackId event) with
           | None => o
           | Some track => record_at (toStringP (Track.id track)) track run o
           end
  end.

Definition track_summary (td : TrackData) : TrackSummary :=
  {| ts_trackId := td_trackId td;
     ts_trackName := td_trackName td;
     ts_bestLapMin := min_or_null (td_bestLaps td);
     ts_avgLapMean := mean_or_null (td_avgLaps td);
     ts_runCount := td_runCount td |}.

Definition name_or_empty (n : option string) : string :=
  match n with
  | Some s => s
  | None => ""
  end.

(** [(a, b) => (a.trackName || '').localeCompare(b.trackName || '')]. *)
Definition by_name (a b : TrackSummary) : option Z :=
  Some (localeCompare (name_or_empty (ts_trackName a))
                      (name_or_empty (ts_trackName b))).

Definition calculateByTrack (runs : list Run.t) (events : list Event.t)
           (tracks : list Track.t) : list TrackSummary :=
  let trackData := fold_left (track_step events tracks) runs [] in
  sort by_name (map (fun e => track_summary (snd e)) trackData).

(** [aggregateRuns({ runs, events, tracks, cars, filters })]; [cars]
    is accepted and not read. *)
Definition aggregateRuns (runs : list Run.t) (events : list Event.t)
           (tracks : list Track.t) (cars : list Car.t) (filters : Filters.t)
  : Outcome Aggregate :=
  let filteredRuns := filter (keep_run events filters) runs in
  let kpis := calculateKPIs filteredRuns in
  trendSeries <- buildTrendSeries filteredRuns events ;;
  let byTrack := calculateByTrack filteredRuns events tracks in
  Ok {| filteredRuns := filteredRuns;
        kpis := kpis;
        trendSeries := trendSeries;
        byTrack := byTrack |}.

End WithHost.

End Stats.

(** ** Setup normalizer (db.js) *)

Module Db.

(** [group.key || ''] for each key, as an object literal. *)
Definition defaulted (group : JsVal) (keys : list string) : JsVal :=
  VObj (map (fun k => (k, orV (get group k) (str ""))) keys).

Definition chassis_keys : list string :=
  ["rideHeightF"; "rideHeightR"; "droopF"; "droopR"; "weightBalanceNotes"].
Definition suspension_keys : list string :=
  ["springsF"; "springsR"; "pistonsF"; "pistonsR"; "shockOilF"; "shockOilR";
   "shockPosF"; "shockPosR"; "camberF"; "camberR"; "toeF"; "toeR"].
Definition drivetrain_keys : list string :=
  ["pinion"; "spur"; "fdrNotes"; "diffType"; "diffOilF"; "diffOilR";
   "centerDiffOil"].
Definition tires_keys : list string :=
  ["tireBrand"; "tireCompound"; "insert"; "sauce"; "prepNotes"].
Definition electronics_keys : list string :=
  ["escProfile"; "timing"; "punch"; "motorNotes"].
Definition general_keys : list string :=
  ["trackCondition"; "temp"; "notes"].

(** [o[k] = v] on an existing own key. *)
Fixpoint assign (k : string) (v : JsVal) (fs : list (string * JsVal))
  : list (string * JsVal) :=
  match fs with
  | [] => [(k, v)]
  | (k', v') :: rest =>
      if String.eqb k k' then (k, v) :: rest else (k', v') :: assign k v rest
  end.

(** [norm.group.key = v]. *)
Definition assign_in (group key : string) (v : JsVal) (norm : JsVal) : JsVal :=
  match norm with
  | VObj groups =>
      match lookup group groups with
      | VObj fs => VObj (assign group (VObj (assign key v fs)) groups)
      | VPrim _ => norm
      end
  | VPrim _ => norm
  end.

(** [if (data.legacy && !norm.group.key) norm.group.key = data.legacy]. *)
Definition map_legacy (data : JsVal) (legacy group key : string) (norm : JsVal)
  : JsVal :=
  if truthy (get data legacy) && negb (truthy (get (get norm group) key))
  then assign_in group key (get data legacy) norm
  else norm.

(** [setup.setupSchemaVersion || 1]. *)
Definition schema_of (setup : Setup.t) : float :=
  match Setup.setupSchemaVersion setup with
  | Some v => if PrimFloat.eqb v 0 || isNaN v then 1%float else v
  | None => 1%float
  end.

Definition normalizeSetupData (setup : Setup.t) : JsVal :=
  let data := orV (Setup.setupData setup) (VObj []) in
  let schema := schema_of setup in
  let group g := orV (get data g) (VObj []) in
  let norm :=
    VObj [("chassis", defaulted (group "chassis") chassis_keys);
          ("suspension", defaulted (group "suspension") suspension_keys);
          ("drivetrain", defaulted (group "drivetrain") drivetrain_keys);
          ("tires", defaulted (group "tires") tires_keys);
          ("electronics", defaulted (group "electronics") electronics_keys);
          ("general", defaulted (group "general") general_keys)] in
  if PrimFloat.ltb schema 2 then
    map_legacy data "shockOil" "suspension" "shockOilF"
      (map_legacy data "springs" "suspension" "springsF"
         (map_legacy data "rideHeight" "chassis" "rideHeightF" norm))
  else norm.

End Db.

(** ** Structural diff engine (diff.js) *)

Module Diff.

Definition labelMap : list (string * string) :=
  [("chassis.rideHeightF", "Ride Height (Front)");
   ("chassis.rideHeightR", "Ride Height (Rear)");
   ("chassis.droopF", "Droop (Front)");
   ("chassis.droopR", "Droop (Rear)");
   ("chassis.weightBalanceNotes", "Weight Balance");
   ("suspension.springsF", "Springs (Front)");
   ("suspension.springsR", "Springs (Rear)");
   ("suspension.pistonsF", "Pistons (Front)");
   ("suspension.pistonsR", "Pistons (Rear)");
   ("suspension.shockOilF", "Shock Oil (Front)");
   ("suspension.shockOilR", "Shock Oil (Rear)");
   ("suspension.shockPosF", "Shock Position (Front)");
   ("suspension.shockPosR", "Shock Position (Rear)");
   ("suspension.camberF", "Camber (Front)");
   ("suspension.camberR", "Camber (Rear)");
   ("suspension.toeF", "Toe (Front)");
   ("suspension.toeR", "Toe (Rear)");
   ("drivetrain.pinion", "Pinion");
   ("drivetrain.spur", "Spur");
   ("drivetrain.fdrNotes", "FDR Notes");
   ("drivetrain.diffType", "Diff Type");
   ("drivetrain.diffOilF", "Diff Oil (Front)");
   ("drivetrain.diffOilR", "Diff Oil (Rear)");
   ("drivetrain.centerDiffOil", "Center Diff Oil");
   ("tires.tireBrand", "Tire Brand");
   ("tires.tireCompound", "Tire Compound");
   ("tires.insert", "Insert");
   ("tires.sauce", "Sauce");
   ("tires.prepNotes", "Prep Notes");
   ("electronics.escProfile", "ESC Profile");
   ("electronics.timing", "Timing");
   ("electronics.punch", "Punch");
   ("electronics.motorNotes", "Motor Notes");
   ("general.trackCondition", "Track Condition");
   ("general.temp", "Temperature");
   ("general.notes", "Notes")].

Fixpoint label_of (path : string) (m : list (string * string)) : option string :=
  match m with
  | [] => None
  | (k, v) :: rest => if String.eqb path k then Some v else label_of path rest
  end.

Definition normalizeValue (val : Prim) : Prim :=
  match val with
  | PNull | PUndef => PStr ""
  | PStr s => PStr (trim s)
  | PNum _ => val
  end.

Definition isEmpty (val : Prim) : bool :=
  match val with
  | PStr "" | PNull | PUndef => true
  | _ => false
  end.

Definition in_range (lo hi : nat) (c : ascii) : bool :=
  let n := nat_of_ascii c in ((lo <=? n) && (n <=? hi))%nat.

Definition is_upper (c : ascii) : bool := in_range 65 90 c.
Definition is_lower_or_digit (c : ascii) : bool :=
  in_range 97 122 c || in_range 48 57 c.

(** [.replace(/([a-z0-9])([A-Z])/g, '$1 $2')]. *)
Fixpoint space_camel (s : string) : string :=
  match s with
  | String c ((String d _) as rest) =>
      if is_lower_or_digit c && is_upper d
      then String c (String " " (space_camel rest))
      else String c (space_camel rest)
  | _ => s
  end.

(** [.replace(/_/g, ' ')]. *)
Fixpoint unscore (s : string) : string :=
  match s with
  | EmptyString => ""
  | String c rest => String (if Ascii.eqb c "_" then " "%char else c) (unscore rest)
  end.

(** [s.charAt(0).toUpperCase() + s.slice(1)]; keys are ASCII identifiers. *)
Definition capitalize (s : string) : string :=
  match s with
  | String c rest =>
      String (if in_range 97 122 c then ascii_of_nat (nat_of_ascii c - 32) else c) rest
  | EmptyString => ""
  end.

(** The match of [/^(.*?)([FR])$/]: base key and side letter. *)
Fixpoint front_rear (key : string) : option (string * ascii) :=
  match key with
  | EmptyString => None
  | String c EmptyString =>
      if (Ascii.eqb c "F" || Ascii.eqb c "R")%char then Some ("", c) else None
  | String c rest =>
      if in_range 10 10 c || in_range 13 13 c then None
      else match front_rear rest with
           | Some (base, side) => Some (String c base, side)
           | None => None
           end
  end.

Definition prettyLabelFromPath (path : string) : string :=
  if String.eqb path "" then ""
  else match label_of path labelMap with
       | Some l => l
       | None =>
           let key := last (split_dot path) "" in
           let '(baseKey, suffix) :=
             match front_rear key with
             | Some (base, side) =>
                 (base, if Ascii.eqb side "F" then " (Front)" else " (Rear)")
             | None => (key, "")
             end in
           (capitalize (trim (unscore (space_camel baseKey))) ++ suffix)%string
       end.

Record Row : Type := mkRow {
  path : string;
  group : string;
  label : string;
  aValue : Prim;
  bValue : Prim;
  changed : bool;
  changeType : string
}.

(** The leaf comparison of [visit]. *)
Definition classify (normA normB : Prim) : string :=
  let emptyA := isEmpty normA in
  let emptyB := isEmpty normB in
  if emptyA && negb emptyB then "added"
  else if negb emptyA && emptyB then "removed"
  else if negb emptyA && negb emptyB && negb (strict_eq normA normB) then "modified"
  else "same".

Definition leaf_row (valA valB : Prim) (prefix : string) : Row :=
  let normA := normalizeValue valA in
  let normB := normalizeValue valB in
  let changeType := classify normA normB in
  {| path := prefix;
     group := hd "" (split_dot prefix);
     label := prettyLabelFromPath prefix;
     aValue := normA;
     bValue := normB;
     changed := negb (String.eqb changeType "same");
     changeType := changeType |}.

(** Insertion order of a [Set] built from a list of keys. *)
Fixpoint dedup (seen l : list string) : list string :=
  match l with
  | [] => []
  | k :: rest =>
      if existsb (String.eqb k) seen then dedup seen rest
      else k :: dedup (k :: seen) rest
  end.

(** [Object.keys(isObj ? val : {})]. *)
Definition own_keys (v : JsVal) : list string :=
  match v with
  | VObj fs => dedup [] (map fst fs)
  | VPrim _ => []
  end.

Definition union_keys (a b : JsVal) : list string :=
  dedup [] (own_keys a ++ own_keys b).

(** Nesting depth of a record; [visit] descends one level per call. *)
Fixpoint depth (v : JsVal) : nat :=
  match v with
  | VPrim _ => 0
  | VObj fs =>
      S ((fix deepest (l : list (string * JsVal)) : nat :=
            match l with
            | [] => 0
            | (_, w) :: rest => Nat.max (depth w) (deepest rest)
            end) fs)
  end.

(** [prefix ? `${prefix}.${key}` : key]. *)
Definition child_path (prefix key : string) : string :=
  if String.eqb prefix "" then key else (prefix ++ "." ++ key)%string.

(** The recursive walk; [fuel] bounds the nesting still to be entered
    and the rows are returned in the order they are pushed. *)
Fixpoint visit (fuel : nat) (ignorePaths : list string)
         (valA valB : JsVal) (prefix : string) : list Row :=
  match fuel with
  | O => []
  | S fuel' =>
      match valA, valB with
      | VPrim a, VPrim b => [leaf_row a b prefix]
      | _, _ =>
          flat_map
            (fun key =>
               let path := child_path prefix key in
               if existsb (String.eqb path) ignorePaths then []
               else visit fuel' ignorePaths (get valA key) (get valB key) path)
            (union_keys valA valB)
      end
  end.

Definition diffObjects (a b : JsVal) (ignorePaths : list string) : list Row :=
  let a' := orV a (VObj []) in
  let b' := orV b (VObj []) in
  filter (fun r => negb (String.eqb (path r) ""))
         (visit (S (Nat.max (depth a') (depth b'))) ignorePaths a' b' "").

End Diff.

(** ** Setup-change correlator (application script) *)

Module App.

(** [m.get(k)] on a [Map], given as its entries. *)
Fixpoint Map_get {V : Type} (m : list (Prim * V)) (k : Prim) : option V :=
  match m with
  | [] => None
  | (k', v) :: rest =>
      if Stats.same_value_zero k' k then Some v else Map_get rest k
  end.

Record AnalyticsContext : Type := mkContext {
  setupsById : list (Prim * Setup.t);
  tracksById : list (Prim * Track.t)
}.

Record Comparison : Type := mkComparison {
  date : Prim;
  trackName : option string;
  changeCount : nat;
  bestLapDelta : float;
  notes : string
}.

Record Analysis : Type := mkAnalysis {
  comparisons : list Comparison;
  insights : list string
}.

(** [!run.bestLapNum] negated: a number other than 0 and NaN. *)
Definition truthy_num (n : option float) : bool :=
  match n with
  | Some f => truthyP (PNum f)
  | None => false
  end.

(** ToNumber of a lap field ([null] reads as 0). *)
Definition num_of (n : option float) : float :=
  match n with
  | Some f => f
  | None => 0%float
  end.

Fixpoint push_run (k : string) (run : Run.t)
         (o : list (string * list Run.t)) : list (string * list Run.t) :=
  match o with
  | [] => [(k, [run])]
  | (k', rs) :: rest =>
      if String.eqb k k' then (k', rs ++ [run]) :: rest
      else (k', rs) :: push_run k run rest
  end.

Section WithHost.
Context {H : Host}.

(** One step of the [forEach] that fills [runsByCarTrack]. *)
Definition group_step (o : list (string * list Run.t)) (run : Run.t)
  : list (string * list Run.t) :=
  if negb (truthyP (Run.setupId run)) || negb (truthy_num (Run.bestLapNum run))
  then o
  else
    let key := (Stats.toStringP (Run.carId run) ++ "_"
                ++ Stats.toStringP (orP (Run.trackId run) (PStr "unknown")))%string in
    push_run key run o.

(** [(a, b) => new Date(a.eventDate || a.createdAt)
               - new Date(b.eventDate || b.createdAt)]. *)
Definition by_run_date (a b : Run.t) : option Z :=
  date_diff (Date_new (orP (Run.eventDate a) (Run.createdAt a)))
            (Date_new (orP (Run.eventDate b) (Run.createdAt b))).

Definition note_of (bestLapDelta : float) : string :=
  if PrimFloat.ltb bestLapDelta 0 then
    "Improved by " ++ toFixed3 (PrimFloat.abs bestLapDelta) ++ "s"
  else if PrimFloat.ltb 0 bestLapDelta then
    "Slower by " ++ toFixed3 bestLapDelta ++ "s"
  else "No change".

(** The body of the loop over adjacent runs: the comparison pushed for
    [previousRun], [currentRun], if any. *)
Definition compare_pair (ctx : AnalyticsContext) (previousRun currentRun : Run.t)
  : list Comparison :=
  if strict_eq (Run.setupId currentRun) (Run.setupId previousRun) then []
  else
    match Map_get (setupsById ctx) (Run.setupId currentRun),
          Map_get (setupsById ctx) (Run.setupId previousRun) with
    | Some currentSetup, Some previousSetup =>
        let diff := Diff.diffObjects (Db.normalizeSetupData previousSetup)
                                     (Db.normalizeSetupData currentSetup) [] in
        let changeCount :=
          List.length
            (filter (fun d => negb (String.eqb (Diff.changeType d) "none")) diff) in
        let bestLapDelta :=
          (num_of (Run.bestLapNum currentRun)
           - num_of (Run.bestLapNum previousRun))%float in
        let trackName :=
          match Map_get (tracksById ctx) (Run.trackId currentRun) with
          | Some track => Track.name track
          | None => Some "Unknown Track"
          end in
        [{| date := orP (Run.eventDate currentRun) (Run.createdAt currentRun);
            trackName := trackName;
            changeCount := changeCount;
            bestLapDelta := bestLapDelta;
            notes := note_of bestLapDelta |}]
    | _, _ => []
    end.

(** [for (let i = 1; i < runs.length; i++)] over a sorted group. *)
Fixpoint compare_adjacent (ctx : AnalyticsContext) (runs : list Run.t)
  : list Comparison :=
  match runs with
  | previousRun :: ((currentRun :: _) as rest) =>
      compare_pair ctx previousRun currentRun ++ compare_adjacent ctx rest
  | _ => []
  end.

Definition plural (n : nat) : string := if (1 <? n)%nat then "s" else "".

Definition bucket_insight (range : string) (bucket : list Comparison)
  : list string :=
  match bucket with
  | [] => []
  | _ =>
      let avgDelta :=
        (sum (map bestLapDelta bucket) / float_of_nat (List.length bucket))%float in
      [("Average Best Lap Δ when " ++ range ++ " changes: "
        ++ (if PrimFloat.leb 0 avgDelta then "+" else "")
        ++ toFixed3 avgDelta ++ "s ("
        ++ string_of_nat (List.length bucket) ++ " comparison"
        ++ plural (List.length bucket) ++ ")")%string]
  end.

Definition analyzeSetupChanges (runs : list Run.t) (ctx : AnalyticsContext)
  : Analysis :=
  let runsByCarTrack := fold_left group_step runs [] in
  let comparisons :=
    flat_map (fun entry => compare_adjacent ctx (sort by_run_date (snd entry)))
             runsByCarTrack in
  let count := List.length comparisons in
  let within lo hi c := ((lo <=? changeCount c) && (changeCount c <=? hi))%nat in
  let insights :=
    if (3 <=? count)%nat then
      bucket_insight "1–3" (filter (within 1 3) comparisons)
      ++ bucket_insight "4–10" (filter (within 4 10) comparisons)
      ++ bucket_insight "10+" (filter (fun c => (10 <? changeCount c)%nat) comparisons)
    else if (0 <? count)%nat then
      [(string_of_nat count ++ " setup comparison" ++ plural count
        ++ " available. More data needed for trend analysis.")%string]
    else [] in
  {| comparisons := comparisons; insights := insights |}.

(** The enrichment step of [loadAnalyticsData], on one run log. *)
Definition enrich (eventsById : list (Prim * Event.t)) (run : Run.t) : Run.t :=
  let event := Map_get eventsById (Run.eventId run) in
  {| Run.id := Run.id run;
     Run.eventId := Run.eventId run;
     Run.carId := Run.carId run;
     Run.sessionType := Run.sessionType run;
     Run.setupId := Run.setupId run;
     Run.createdAt := Run.createdAt run;
     Run.bestLap := Run.bestLap run;
     Run.avgLap := Run.avgLap run;
     Run.eventDate := match event with
                      | Some e => Event.date e
                      | None => PNull
                      end;
     Run.trackId := match event with
                    | Some e => orP (Event.trackId e) PNull
                    | None => PNull
                    end;
     Run.bestLapNum := Stats.parseLap (Run.bestLap run);
     Run.avgLapNum := Stats.parseLap (Run.avgLap run) |}.

End WithHost.

End App.

(** ** A reference host

    A host whose local time zone is UTC, which reads the ISO 8601 date
    and date-time texts the application stores ([YYYY-MM-DD] and
    [YYYY-MM-DDTHH:mm:ss.sssZ]) and rejects any other text, orders text
    by code unit, and prints integral numbers.  It is used to run the
    program on concrete records. *)

Module UtcHost.

Local Open Scope Z_scope.

Definition ms_per_day : Z := 86400000.

(** Day number of a proleptic Gregorian date, month in 1..12. *)
Definition days_from_civil (y m d : Z) : Z :=
  let y' := if m <=? 2 then y - 1 else y in
  let era := y' / 400 in
  let yoe := y' - era * 400 in
  let mp := (m + 9) mod 12 in
  let doy := (153 * mp + 2) / 5 + d - 1 in
  let doe := yoe * 365 + yoe / 4 - yoe / 100 + doy in
  era * 146097 + doe - 719468.

Definition civil_from_days (z : Z) : Z * Z * Z :=
  let z' := z + 719468 in
  let era := z' / 146097 in
  let doe := z' - era * 146097 in
  let yoe := (doe - doe / 1460 + doe / 36524 - doe / 146096) / 365 in
  let doy := doe - (365 * yoe + yoe / 4 - yoe / 100) in
  let mp := (5 * doy + 2) / 153 in
  let d := doy - (153 * mp + 2) / 5 + 1 in
  let m := if mp <? 10 then mp + 3 else mp - 9 in
  ((if m <=? 2 then yoe + era * 400 + 1 else yoe + era * 400), m, d).

Definition days_in_month (y m : Z) : Z :=
  days_from_civil (if m =? 12 then y + 1 else y) (if m =? 12 then 1 else m + 1) 1
  - days_from_civil y m 1.

(** Reads exactly [n] digits. *)
Fixpoint take_digits (n : nat) (acc : Z) (s : string) : option (Z * string) :=
  match n with
  | O => Some (acc, s)
  | S n' =>
      match s with
      | String c rest =>
          match digit_of c with
          | Some d => take_digits n' (10 * acc + d) rest
          | None => None
          end
      | EmptyString => None
      end
  end.

Definition expect (c : ascii) (s : string) : option string :=
  match s with
  | String d rest => if Ascii.eqb c d then Some rest else None
  | EmptyString => None
  end.

Definition opt_bind {A B : Type} (o : option A) (k : A -> option B) : option B :=
  match o with
  | Some a => k a
  | None => None
  end.

(** [HH:mm], [HH:mm:ss] or [HH:mm:ss.sss], then an optional [Z]:
    milliseconds into the day. *)
Definition time_of_text (s : string) : option Z :=
  opt_bind (take_digits 2 0 s) (fun '(h, s1) =>
  opt_bind (expect ":" s1) (fun s2 =>
  opt_bind (take_digits 2 0 s2) (fun '(mi, s3) =>
  let '(sec, s5) :=
    match opt_bind (expect ":" s3) (take_digits 2 0) with
    | Some r => r
    | None => (0, s3)
    end in
  let '(ms, s7) :=
    match opt_bind (expect "." s5) (take_digits 3 0) with
    | Some r => r
    | None => (0, s5)
    end in
  let tail_ok := String.eqb s7 "" || String.eqb s7 "Z" in
  if tail_ok && (h <=? 23) && (mi <=? 59) && (sec <=? 59)
  then Some (((h * 60 + mi) * 60 + sec) * 1000 + ms)
  else None))).

Definition date_of_text (s : string) : option Z :=
  opt_bind (take_digits 4 0 s) (fun '(y, s1) =>
  opt_bind (expect "-" s1) (fun s2 =>
  opt_bind (take_digits 2 0 s2) (fun '(m, s3) =>
  opt_bind (expect "-" s3) (fun s4 =>
  opt_bind (take_digits 2 0 s4) (fun '(d, s5) =>
  if (1 <=? m) && (m <=? 12) && (1 <=? d) && (d <=? days_in_month y m) then
    let day := days_from_civil y m d * ms_per_day in
    match s5 with
    | EmptyString => Some day
    | String "T" clock => option_map (Z.add day) (time_of_text clock)
    | _ => None
    end
  else None))))).

(** The integer a number denotes, when it is one. *)
Definition integer_of (f : float) : option Z :=
  match Prim2SF f with
  | S754_zero _ => Some 0
  | S754_finite s m (Zneg k) =>
      if Zpos m mod 2 ^ Zpos k =? 0
      then Some (cond_Zopp s (Zpos m / 2 ^ Zpos k)) else None
  | S754_finite s m e => Some (cond_Zopp s (Zpos m * 2 ^ e))
  | _ => None
  end.

Definition truncate (f : float) : option Z :=
  match Prim2SF f with
  | S754_zero _ => Some 0
  | S754_finite s m (Zneg k) => Some (cond_Zopp s (Zpos m / 2 ^ Zpos k))
  | S754_finite s m e => Some (cond_Zopp s (Zpos m * 2 ^ e))
  | _ => None
  end.

Definition date_new (v : Prim) : option Z :=
  match v with
  | PUndef => None
  | PNull => Some 0
  | PNum f =>
      match truncate f with
      | Some t => if Z.abs t <=? 8640000000000000 then Some t else None
      | None => None
      end
  | PStr s => date_of_text s
  end.

(** [new Date(y, monthIndex, d)]: years 0..99 count from 1900. *)
Definition date_local (y mi d : Z) : Z :=
  let y' := if (0 <=? y) && (y <=? 99) then 1900 + y else y in
  (days_from_civil (y' + mi / 12) (mi mod 12 + 1) 1 + d - 1) * ms_per_day.

Definition ymd (t : Z) : Z * Z * Z := civil_from_days (t / ms_per_day).

Definition pad (n : nat) (z : Z) : string := padStart0 n (string_of_Z z).

Definition iso_year (y : Z) : string :=
  if (0 <=? y) && (y <=? 9999) then pad 4 y
  else ((if Z.ltb y 0 then "-" else "+") ++ pad 6 (Z.abs y))%string.

Definition to_iso (t : Z) : string :=
  let '(y, m, d) := ymd t in
  let ms := t mod ms_per_day in
  (iso_year y ++ "-" ++ pad 2 m ++ "-" ++ pad 2 d ++ "T"
   ++ pad 2 (ms / 3600000) ++ ":" ++ pad 2 (ms / 60000 mod 60) ++ ":"
   ++ pad 2 (ms / 1000 mod 60) ++ "." ++ pad 3 (ms mod 1000) ++ "Z")%string.

Definition code_unit_order (a b : string) : Z :=
  match String.compare a b with
  | Lt => -1
  | Eq => 0
  | Gt => 1
  end.

Definition print_number (f : float) : string :=
  match integer_of f with
  | Some z => string_of_Z z
  | None => if isNaN f then "NaN" else toFixed3 f
  end.

Definition host : Host :=
  {| Date_new := date_new;
     Date_local := date_local;
     setHours_dayEnd := fun t => t / ms_per_day * ms_per_day + (ms_per_day - 1);
     getFullYear := fun t => fst (fst (ymd t));
     getMonth := fun t => snd (fst (ymd t)) - 1;
     getDate := fun t => snd (ymd t);
     toISOString := to_iso;
     localeCompare := code_unit_order;
     Number_toString := print_number |}.

End UtcHost.


(** ** Sample records

    A small history on the reference host: one car, two tracks, three
    events, runs with and without events and dates, and two setups that
    differ in the front springs and in one added field. *)

Module Sample.

Definition host : Host := UtcHost.host.

Definition run (id eventId carId sessionType : string) (setupId createdAt : Prim)
           (bestLap avgLap : string) : Run.t :=
  {| Run.id := PStr id;
     Run.eventId := PStr eventId;
     Run.carId := PStr carId;
     Run.sessionType := PStr sessionType;
     Run.setupId := setupId;
     Run.createdAt := createdAt;
     Run.bestLap := PStr bestLap;
     Run.avgLap := PStr avgLap;
     Run.eventDate := PUndef;
     Run.trackId := PUndef;
     Run.bestLapNum := None;
     Run.avgLapNum := None |}.

Definition events : list Event.t :=
  [Event.mk (PStr "e1") (PStr "t1") (PStr "2024-03-01");
   Event.mk (PStr "e2") (PStr "t1") (PStr "2024-03-08");
   Event.mk (PStr "e3") (PStr "t2") (PStr "2024-03-08")].

Definition tracks : list Track.t :=
  [Track.mk (PStr "t1") (Some "Club Track");
   Track.mk (PStr "t2") (Some "Indoor Arena")].

Definition cars : list Car.t := [Car.mk (PStr "c1") (Some "Buggy")].

Definition r1 : Run.t :=
  run "r1" "e1" "c1" "Practice" (PStr "s1") (PStr "2024-03-01T10:00:00.000Z")
      "15.5" "16.2".
Definition r2 : Run.t :=
  run "r2" "e2" "c1" "Main" (PStr "s2") (PStr "2024-03-08T10:00:00.000Z")
      "15.1" "15.9".
(** Same day as [r2], another track, no setup. *)
Definition r3 : Run.t :=
  run "r3" "e3" "c1" "Practice" PUndef (PStr "2024-03-08T18:30:00.000Z")
      "14.9" "".
(** Its event is not in the events list. *)
Definition r_orphan : Run.t :=
  run "r4" "ghost" "c1" "Practice" PUndef (PStr "2024-03-09T09:00:00.000Z")
      "13.0" "13.5".
(** No creation time. *)
Definition r_undated : Run.t :=
  run "r5" "e1" "c1" "Practice" PUndef PUndef "15.0" "15.7".

Definition runs : list Run.t := [r2; r1; r3; r_orphan; r_undated].

Definition on_track_t1 : Filters.t :=
  Filters.mk PUndef (PStr "t1") PUndef PUndef PUndef.
Definition since_march : Filters.t :=
  Filters.mk PUndef PUndef (PStr "2024-03-01") PUndef PUndef.
Definition other_car : Filters.t :=
  Filters.mk (PStr "c9") PUndef PUndef PUndef PUndef.

(** Valid best laps 10 and 12, no valid average lap. *)
Definition fallback_runs : list Run.t :=
  [run "f1" "e1" "c1" "Practice" PUndef (PStr "2024-03-01T10:00:00.000Z") "10" "";
   run "f2" "e1" "c1" "Practice" PUndef (PStr "2024-03-01T11:00:00.000Z") "12" "n/a"].

(** A run whose event carries a date the host cannot read, and a run
    without event whose creation time it cannot read. *)
Definition undated_event : Event.t :=
  Event.mk (PStr "e9") (PStr "t1") (PStr "TBD").
Definition r_tbd : Run.t :=
  run "r6" "e9" "c1" "Practice" PUndef (PStr "2024-03-10T09:00:00.000Z")
      "15.2" "15.8".
Definition r_unreadable : Run.t :=
  run "r7" "ghost" "c1" "Practice" PUndef (PStr "last week") "15.2" "15.8".

Definition setupA : Setup.t :=
  {| Setup.id := PStr "s1";
     Setup.carId := PStr "c1";
     Setup.setupSchemaVersion := Some 2%float;
     Setup.setupData := VObj [("suspension", VObj [("springsF", str "4.4")])] |}.

Definition setupB : Setup.t :=
  {| Setup.id := PStr "s2";
     Setup.carId := PStr "c1";
     Setup.setupSchemaVersion := Some 2%float;
     Setup.setupData :=
       VObj [("suspension", VObj [("springsF", str "4.6"); ("camberF", str "-2")])] |}.

(** A schema-1 setup with a legacy ride height and nothing in the
    canonical slot, and one whose canonical slot is filled. *)
Definition legacy_setup : Setup.t :=
  {| Setup.id := PStr "s0";
     Setup.carId := PStr "c1";
     Setup.setupSchemaVersion := Some 1%float;
     Setup.setupData := VObj [("rideHeight", str "20mm")] |}.

Definition legacy_setup_filled : Setup.t :=
  {| Setup.id := PStr "s0";
     Setup.carId := PStr "c1";
     Setup.setupSchemaVersion := None;
     Setup.setupData :=
       VObj [("rideHeight", str "20mm");
             ("chassis", VObj [("rideHeightF", str "22mm")])] |}.

Definition context : App.AnalyticsContext :=
  {| App.setupsById := [(PStr "s1", setupA); (PStr "s2", setupB)];
     App.tracksById := map (fun t => (Track.id t, t)) tracks |}.

(** The two runs of the setup change, as the analytics loader hands
    them over. *)
Definition enriched : list Run.t :=
  map (App.enrich (map (fun e => (Event.id e, e)) events)) [r1; r2].

End Sample.

(** ** Time input of the run-log form (application script) *)

Module Forms.

(** [s.split(':')], never empty. *)
Fixpoint split_colon (s : string) : list string :=
  match s with
  | EmptyString => [""]
  | String c rest =>
      if Ascii.eqb c ":" then "" :: split_colon rest
      else match split_colon rest with
           | seg :: segs => String c seg :: segs
           | [] => [String c ""]
           end
  end.

(** The match of [/^\d+$/]. *)
Definition all_digits (s : string) : bool :=
  match s with
  | EmptyString => false
  | String _ _ => forallb Stats.is_digit (list_ascii_of_string s)
  end.

(** The match of [/^\d{2}$/]. *)
Definition two_digits (s : string) : bool :=
  match s with
  | String a (String b EmptyString) => Stats.is_digit a && Stats.is_digit b
  | _ => false
  end.

(** [parseInt(digits, 10)] on a digit text: the binary64 value nearest
    to the integer it denotes. *)
Definition parseInt_digits (s : string) : float :=
  float_of_Z (fst (fst (read_digits 0 0 s))).

(** The match of [/^\d+(?:\.\d+)?$/]. *)
Definition plain_seconds (s : string) : bool :=
  match split_dot s with
  | [whole] => all_digits whole
  | [whole; fraction] => all_digits whole && all_digits fraction
  | _ => false
  end.

(** The match of [(\d{2})(?:\.(\d+))?] against a whole field: the two
    digits, and the fraction digits when there are some. *)
Definition seconds_field (t : string) : option (string * option string) :=
  match split_dot t with
  | [sec] => if two_digits sec then Some (sec, None) else None
  | [sec; fraction] =>
      if two_digits sec && all_digits fraction
      then Some (sec, Some fraction) else None
  | _ => None
  end.

(** [m ? parseFloat('0.' + m) : 0]. *)
Definition millis_of (fraction : option string) : float :=
  match fraction with
  | Some digits => parseFloat ("0." ++ digits)
  | None => 0%float
  end.

(** [parseTimeInputToSeconds(s)] on the text of the time field;
    [None] is [null]. *)
Definition parseTimeInputToSeconds (s : string) : option float :=
  if String.eqb s "" then None
  else
    let s := trim s in
    if plain_seconds s then Some (parseFloat s)
    else
      match split_colon s with
      | [h; m; t] =>
          if all_digits h && two_digits m then
            match seconds_field t with
            | Some (sec, fraction) =>
                let hours := parseInt_digits h in
                let minutes := parseInt_digits m in
                let seconds := parseInt_digits sec in
                let millis := millis_of fraction in
                if PrimFloat.is_finite hours && PrimFloat.is_finite minutes
                   && PrimFloat.is_finite seconds
                then Some (hours * 3600 + minutes * 60 + seconds + millis)%float
                else None
            | None => None
            end
          else None
      | [m; t] =>
          if all_digits m then
            match seconds_field t with
            | Some (sec, fraction) =>
                let minutes := parseInt_digits m in
                let seconds := parseInt_digits sec in
                let millis := millis_of fraction in
                if PrimFloat.is_finite minutes && PrimFloat.is_finite seconds
                then Some (minutes * 60 + seconds + millis)%float
                else None
            | None => None
            end
          else None
      | _ => None
      end.

End Forms.

(** ** Grouping runs by event (stats.js) *)

Module Events.

Record Group : Type := mkGroup {
  event : Event.t;
  runs : list Run.t
}.

(** [eventMap[k] = { event, runs: [] }] on an object whose keys are
    event ids, which are not array-index texts: a new key goes last, a
    key already there keeps its place and takes the new value. *)
Fixpoint set_event (k : string) (e : Event.t) (o : list (string * Group))
  : list (string * Group) :=
  match o with
  | [] => [(k, mkGroup e [])]
  | (k', g) :: rest =>
      if String.eqb k k' then (k', mkGroup e []) :: rest
      else (k', g) :: set_event k e rest
  end.

(** [eventMap[k].runs.push(run)] when [eventMap[k]] is there. *)
Fixpoint push_run (k : string) (run : Run.t) (o : list (string * Group))
  : list (string * Group) :=
  match o with
  | [] => []
  | (k', g) :: rest =>
      if String.eqb k k' then (k', mkGroup (event g) (runs g ++ [run])) :: rest
      else (k', g) :: push_run k run rest
  end.

Section WithHost.
Context {H : Host}.

(** [parseDateAsLocal(dateStr)]; [None] is [null]. *)
Definition parseDateAsLocal (dateStr : Prim) : option Z :=
  if negb (truthyP dateStr) then None
  else
    match dateStr with
    | PStr s =>
        match Stats.ymd_of_text s with
        | Some (y, m, d) => Some (Date_local y (m - 1) d)
        | None => Date_new dateStr
        end
    | _ => Date_new dateStr
    end.

Definition add_event (o : list (string * Group)) (e : Event.t)
  : list (string * Group) :=
  set_event (Stats.toStringP (Event.id e)) e o.

Definition add_run (o : list (string * Group)) (run : Run.t)
  : list (string * Group) :=
  if truthyP (Run.eventId run)
  then push_run (Stats.toStringP (Run.eventId run)) run o
  else o.

(** The time value of [parseDateAsLocal(g.event.date) || new Date(0)]. *)
Definition group_time (g : Group) : Z :=
  match parseDateAsLocal (Event.date (event g)) with
  | Some t => t
  | None => 0%Z
  end.

(** The comparator [(a, b) => dateB - dateA]. *)
Definition most_recent_first (a b : Group) : option Z :=
  Some (group_time b - group_time a)%Z.

Definition groupRunsByEvent (runs : list Run.t) (events : list Event.t)
  : list Group :=
  let eventMap := fold_left add_event events [] in
  let eventMap := fold_left add_run runs eventMap in
  sort most_recent_first
       (filter (fun item => (0 <? List.length (Events.runs item))%nat)
               (map snd eventMap)).

End WithHost.

End Events.

(** ** Gearing calculators (calculators.js)

    The application calls these with numbers read from its forms, or
    with [null] for a field left empty; an argument is a number or
    [None] for [null]. *)

Module Calc.

(** [Number(v)] on a number or [null]. *)
Definition Number_of (v : option float) : float :=
  match v with
  | Some f => f
  | None => 0%float
  end.

(** ToBoolean on a number or [null]. *)
Definition truthyN (v : option float) : bool :=
  match v with
  | Some f => truthyP (PNum f)
  | None => false
  end.

(** [Number(v) || 0]. *)
Definition number_or_zero (v : option float) : float :=
  if truthyP (PNum (Number_of v)) then Number_of v else 0%float.

Definition computeGearRatio (pinionTeeth spurTeeth : option float)
  : option float :=
  let p := number_or_zero pinionTeeth in
  let s := number_or_zero spurTeeth in
  if PrimFloat.leb p 0 || PrimFloat.leb s 0 then None else Some (s / p)%float.

(** A stage of the drive train: a falsy entry, a numeric ratio, or an
    object with [pinion] and [spur]. *)
Inductive Stage : Type :=
| StageMissing
| StageRatio (ratio : float)
| StageGears (pinion spur : option float).

(** The callback of the [reduce]. *)
Definition stage_step (acc : float) (stage : Stage) : float :=
  match stage with
  | StageMissing => acc
  | StageRatio ratio =>
      if truthyP (PNum ratio) then (acc * ratio)%float else acc
  | StageGears pinion spur =>
      if truthyN pinion && truthyN spur then
        let ratio := computeGearRatio pinion spur in
        (acc * (if truthyN ratio then Number_of ratio else 1))%float
      else acc
  end.

Definition computeFinalDriveRatio (stages : list Stage) : option float :=
  match stages with
  | [] => None
  | _ => Some (fold_left stage_step stages 1%float)
  end.

(** [Math.PI]. *)
Definition Math_PI : float := 0x1.921fb54442d18p+1%float.

Definition wheelCircumferenceMm (diameterMm : option float) : option float :=
  let d := number_or_zero diameterMm in
  if PrimFloat.leb d 0 then None else Some (Math_PI * d)%float.

Definition computeRolloutMm (finalDriveRatio wheelDiameterMm : option float)
  : option float :=
  let f := number_or_zero finalDriveRatio in
  let circ := wheelCircumferenceMm wheelDiameterMm in
  if negb (truthyP (PNum f)) || negb (truthyN circ) then None
  else Some (Number_of circ / f)%float.

Definition percentChange (before after : option float) : option float :=
  let b := Number_of before in
  let a := Number_of after in
  if negb (PrimFloat.is_finite b) || PrimFloat.eqb b 0 then None
  else Some ((a - b) / PrimFloat.abs b * 100)%float.

Record Spec : Type := mkSpec {
  pinion : option float;
  spur : option float;
  (** [None] when the spec has no [stages] array *)
  stages : option (list Stage);
  wheelDiameterMm : option float
}.

Record Gearing : Type := mkGearing {
  finalDriveRatio : option float;
  rolloutMm : option float
}.

Record Change : Type := mkChange {
  finalDrivePercent : option float;
  rolloutPercent : option float
}.

Record Comparison : Type := mkComparison {
  before : Gearing;
  after : Gearing;
  change : Change
}.

Definition finalRatioFromSpec (spec : Spec) : option float :=
  match stages spec with
  | Some ((_ :: _) as l) => computeFinalDriveRatio l
  | _ =>
      if truthyN (pinion spec) && truthyN (spur spec)
      then computeGearRatio (pinion spec) (spur spec)
      else None
  end.

Definition compareGearing (beforeSpec afterSpec : Spec) : Comparison :=
  let beforeFinal := finalRatioFromSpec beforeSpec in
  let afterFinal := finalRatioFromSpec afterSpec in
  let rollout final spec :=
    if truthyN final && truthyN (wheelDiameterMm spec)
    then computeRolloutMm final (wheelDiameterMm spec)
    else None in
  let beforeRollout := rollout beforeFinal beforeSpec in
  let afterRollout := rollout afterFinal afterSpec in
  {| before := {| finalDriveRatio := beforeFinal; rolloutMm := beforeRollout |};
     after := {| finalDriveRatio := afterFinal; rolloutMm := afterRollout |};
     change :=
       {| finalDrivePercent :=
            if truthyN beforeFinal && truthyN afterFinal
            then percentChange beforeFinal afterFinal else None;
          rolloutPercent :=
            if truthyN beforeRollout && truthyN afterRollout
            then percentChange beforeRollout afterRollout else None |} |}.

End Calc.

(** ** A host away from Greenwich

    The reference host with local time a fixed number of milliseconds
    behind UTC.  As ECMAScript prescribes, date-only text and text that
    ends in [Z] are read as UTC and date-time text without [Z] as local
    time; [new Date(y, m, d)], [setHours] and the getters work in local
    time; [toISOString] prints UTC. *)

Module ZoneHost.

Local Open Scope Z_scope.

Definition ends_with_Z (s : string) : bool :=
  String.eqb (substring (String.length s - 1) 1 s) "Z".

(** Date-time text without a zone. *)
Definition local_text (s : string) : bool :=
  (10 <? String.length s)%nat && negb (ends_with_Z s).

Definition date_new (behind : Z) (v : Prim) : option Z :=
  match v with
  | PStr s =>
      option_map (fun t => if local_text s then t + behind else t)
                 (UtcHost.date_of_text s)
  | _ => UtcHost.date_new v
  end.

Definition day_end (behind t : Z) : Z :=
  (t - behind) / UtcHost.ms_per_day * UtcHost.ms_per_day
  + (UtcHost.ms_per_day - 1) + behind.

Definition host (behind : Z) : Host :=
  {| Date_new := date_new behind;
     Date_local := fun y mi d => UtcHost.date_local y mi d + behind;
     setHours_dayEnd := day_end behind;
     getFullYear := fun t => fst (fst (UtcHost.ymd (t - behind)));
     getMonth := fun t => snd (fst (UtcHost.ymd (t - behind))) - 1;
     getDate := fun t => snd (UtcHost.ymd (t - behind));
     toISOString := UtcHost.to_iso;
     localeCompare := UtcHost.code_unit_order;
     Number_toString := UtcHost.print_number |}.

(** Five hours behind UTC, as the east coast of North America in
    winter. *)
Definition five_hours : Z := 18000000.

Definition eastern : Host := host five_hours.

(** A run logged at ten in the evening of 8 March 2024, eastern time,
    on an event that has since been deleted. *)
Definition r_evening : Run.t :=
  Sample.run "r8" "ghost" "c1" "Practice" PUndef
             (PStr "2024-03-09T03:00:00.000Z") "13.0" "13.5".

End ZoneHost.

(** ** Notions used by the statements *)

Definition starts_digit (s : string) : bool :=
  match s with
  | String c _ => Stats.is_digit c
  | EmptyString => false
  end.

(** Text that begins, after white space and an optional sign, with a
    decimal literal: [Infinity], a digit, or a point and a digit. *)
Definition starts_number (s : string) : bool :=
  let body := snd (read_sign (trimStart s)) in
  String.prefix "Infinity" body
  || starts_digit body
  || match body with
     | String c rest => Ascii.eqb c "." && starts_digit rest
     | EmptyString => false
     end.

(** The text left after a complete ExponentPart, if there is one. *)
Definition after_exponent (s : string) : string :=
  match s with
  | String c rest =>
      if (Ascii.eqb c "e" || Ascii.eqb c "E")%char then
        let '(_, n, rest') := read_digits 0 0 (snd (read_sign rest)) in
        match n with
        | O => s
        | S _ => rest'
        end
      else s
  | EmptyString => s
  end.

(** Numeric text: apart from surrounding white space, the whole text is
    one signed decimal literal ([Infinity], or digits with an optional
    fraction and exponent), as [Number(s)] requires of a decimal. *)
Definition numeric_text (s : string) : bool :=
  let body := snd (read_sign (trimStart s)) in
  let only_space rest := String.eqb (trimStart rest) "" in
  (String.prefix "Infinity" body
   && only_space (String.substring 8 (String.length body - 8) body))
  || let '(_, ni, rest) := read_digits 0 0 body in
     let '(_, nf, rest') :=
       match rest with
       | String c after =>
           if Ascii.eqb c "." then read_digits 0 0 after else (0%Z, O, rest)
       | EmptyString => (0%Z, O, rest)
       end in
     match (ni + nf)%nat with
     | O => false
     | S _ => only_space (after_exponent rest')
     end.

(** The number a lap value denotes: the text read by [parseFloat], or
    the number itself. *)
Definition lap_number (v : Prim) : option float :=
  match v with
  | PStr "" => None
  | PStr s => Some (parseFloat s)
  | PNum n => Some n
  | PNull | PUndef => None
  end.

(** A run without a creation time. *)
Definition createdAt_missing (run : Run.t) : Prop :=
  Run.createdAt run = PNull \/ Run.createdAt run = PUndef
  \/ Run.createdAt run = PStr "".

(** The arithmetic mean as the engine computes it: the left-to-right
    binary64 sum divided by the count. *)
Definition mean (l : list float) : float :=
  (fold_left PrimFloat.add l 0 / float_of_nat (List.length l))%float.











(** The value reached from [v] by reading the keys in turn. *)
Definition walk (v : JsVal) (keys : list string) : JsVal :=
  fold_left get keys v.

(** The dot path of a key sequence below [prefix]. *)
Definition path_of (prefix : string) (keys : list string) : string :=
  fold_left Diff.child_path keys prefix.

(** The legacy flat fields and the canonical slot each one feeds. *)
Definition legacy_mapping (legacy group key : string) : Prop :=
  (legacy = "rideHeight" /\ group = "chassis" /\ key = "rideHeightF")
  \/ (legacy = "springs" /\ group = "suspension" /\ key = "springsF")
  \/ (legacy = "shockOil" /\ group = "suspension" /\ key = "shockOilF").

(** A setup stored before schema 2: the version is missing or below 2. *)
Definition legacy_schema (setup : Setup.t) : Prop :=
  match Setup.setupSchemaVersion setup with
  | None => True
  | Some v => PrimFloat.ltb v 2 = true
  end.

(** The runs charted under a given day. *)
Definition charted_on {H : Host} (events : list Event.t) (day : string)
           (run : Run.t) : bool :=
  match Stats.dateKey_of events run with
  | Ok (Some k) => String.eqb k day
  | _ => false
  end.

(** The order of two day keys as the host reads them back. *)
Definition day_before {H : Host} (p q : Stats.TrendPoint) : Prop :=
  Stats.date_lt (Date_new (PStr (Stats.x p))) (Date_new (PStr (Stats.x q))) = true.

(** The state of [runsByDate] after the runs [done]: one entry per day
    met so far, holding that day's runs in order. *)
Definition Grouped {H : Host} (events : list Event.t) (done : list Run.t)
           (o : list (string * list Run.t)) : Prop :=
  NoDup (map fst o)
  /\ (forall k rs, In (k, rs) o ->
                   rs = filter (charted_on events k) done /\ rs <> [])
  /\ (forall run k, In run done ->
                    Stats.dateKey_of events run = Ok (Some k) ->
                    In k (map fst o)).

(** The time value a point is sorted by. *)
Definition point_time {H : Host} (p : Stats.TrendPoint) : Z :=
  match Date_new (PStr (Stats.x p)) with
  | Some t => t
  | None => 0%Z
  end.

(** A value that [|| ''] leaves alone. *)
Definition stable (v : JsVal) : Prop := orV v (str "") = v.

(** A field list with exactly the given keys, each holding a stable
    value. *)
Definition fields_of (keys : list string) (fs : list (string * JsVal)) : Prop :=
  map fst fs = keys /\ Forall (fun kv => stable (snd kv)) fs.

(** The shape of a normalized record. *)
Definition canonical (norm : JsVal) : Prop :=
  exists c s d t e g,
    norm = VObj [("chassis", VObj c); ("suspension", VObj s);
                 ("drivetrain", VObj d); ("tires", VObj t);
                 ("electronics", VObj e); ("general", VObj g)]
    /\ fields_of Db.chassis_keys c /\ fields_of Db.suspension_keys s
    /\ fields_of Db.drivetrain_keys d /\ fields_of Db.tires_keys t
    /\ fields_of Db.electronics_keys e /\ fields_of Db.general_keys g.

(** The three slots a legacy field can fill. *)
Definition legacy_slot (group key : string) : Prop :=
  (group = "chassis" /\ key = "rideHeightF")
  \/ (group = "suspension" /\ key = "springsF")
  \/ (group = "suspension" /\ key = "shockOilF").

(** The filters with a single criterion kept. *)
Definition only_car (f : Filters.t) : Filters.t :=
  Filters.mk (Filters.carId f) PUndef PUndef PUndef PUndef.

Definition only_track (f : Filters.t) : Filters.t :=
  Filters.mk PUndef (Filters.trackId f) PUndef PUndef PUndef.

Definition only_dates (f : Filters.t) : Filters.t :=
  Filters.mk PUndef PUndef (Filters.dateFrom f) (Filters.dateTo f) PUndef.

Definition only_session (f : Filters.t) : Filters.t :=
  Filters.mk PUndef PUndef PUndef PUndef (Filters.sessionType f).

(** A run the trend grouping cannot date: no dated event, and a
    creation time that is given but that the host cannot read. *)
Definition undatable {H : Host} (events : list Event.t) (run : Run.t) : bool :=
  match Stats.dated_event events run with
  | Some _ => false
  | None =>
      truthyP (Run.createdAt run)
      && match Date_new (Run.createdAt run) with
         | Some _ => false
         | None => true
         end
  end.

(** A range bound, with a bound the host cannot read taken away. *)
Definition readable_bound {H : Host} (bound : Prim) : Prim :=
  match Date_new bound with
  | Some _ => bound
  | None => PUndef
  end.

(** The property names every plain object inherits from
    [Object.prototype].  A plain object used as a map answers a read of
    one of them even when no entry was stored under it. *)
Definition inherited_names : list string :=
  ["constructor"; "hasOwnProperty"; "isPrototypeOf"; "propertyIsEnumerable";
   "toLocaleString"; "toString"; "valueOf"; "__proto__";
   "__defineGetter__"; "__defineSetter__"; "__lookupGetter__";
   "__lookupSetter__"].

(** A key under which a plain object used as a map holds what was
    stored and nothing else. *)
Definition ordinary_key (k : string) : bool :=
  negb (existsb (String.eqb k) inherited_names).

(** The track a run was driven on: the track of its event, when both
    are on record. *)
Definition track_of (events : list Event.t) (tracks : list Track.t)
           (run : Run.t) : option Track.t :=
  match Stats.find_event events (Run.eventId run) with
  | Some event =>
      if truthyP (Event.trackId event)
      then Stats.find_track tracks (Event.trackId event)
      else None
  | None => None
  end.

(** The runs driven on the track with a given key. *)
Definition on_track {H : Host} (events : list Event.t) (tracks : list Track.t)
           (key : string) (run : Run.t) : bool :=
  match track_of events tracks run with
  | Some track => String.eqb (Stats.toStringP (Track.id track)) key
  | None => false
  end.

(** The state of [trackData] after the runs [done]: one entry per track
    met so far, holding the counts and laps of that track's runs. *)
Definition Tracked {H : Host} (events : list Event.t) (tracks : list Track.t)
           (done : list Run.t) (o : list (string * Stats.TrackData)) : Prop :=
  NoDup (map fst o)
  /\ (forall k td, In (k, td) o ->
        let mine := filter (on_track events tracks k) done in
        Stats.td_runCount td = List.length mine
        /\ mine <> []
        /\ Stats.td_bestLaps td = Stats.valid_laps Run.bestLap mine
        /\ Stats.td_avgLaps td = Stats.valid_laps Run.avgLap mine
        /\ k = Stats.toStringP (Stats.td_trackId td)
        /\ exists track, In track tracks
                         /\ Stats.td_trackId td = Track.id track
                         /\ Stats.td_trackName td = Track.name track)
  /\ (forall run track, In run done ->
                        track_of events tracks run = Some track ->
                        In (Stats.toStringP (Track.id track)) (map fst o)).

(** A calendar day the host's local-time constructor and getters agree
    on. *)
Definition local_day {H : Host} (y m d : Z) : Prop :=
  let t := Date_local y (m - 1) d in
  getFullYear t = y /\ getMonth t = (m - 1)%Z /\ getDate t = d.

(** A change type read from the other side: what was added is
    removed. *)
Definition swap_type (t : string) : string :=
  if String.eqb t "added" then "removed"
  else if String.eqb t "removed" then "added"
  else t.

(** A diff row read from the other side. *)
Definition swap_row (r : Diff.Row) : Diff.Row :=
  {| Diff.path := Diff.path r;
     Diff.group := Diff.group r;
     Diff.label := Diff.label r;
     Diff.aValue := Diff.bValue r;
     Diff.bValue := Diff.aValue r;
     Diff.changed := Diff.changed r;
     Diff.changeType := swap_type (Diff.changeType r) |}.

(** A record whose fields all hold scalars, and a normalized record
    whose slots all do: texts or numbers, as the setup form stores
    them, and no nested record. *)
Definition scalar_fields (v : JsVal) : bool :=
  match v with
  | VObj fs => forallb (fun kv => match snd kv with
                                  | VPrim _ => true
                                  | VObj _ => false
                                  end) fs
  | VPrim _ => false
  end.

Definition scalar_leaves (norm : JsVal) : bool :=
  match norm with
  | VObj groups => forallb (fun g => scalar_fields (snd g)) groups
  | VPrim _ => false
  end.

(** The groups of a normalized record and the keys of each. *)
Definition slots : list (string * list string) :=
  [("chassis", Db.chassis_keys); ("suspension", Db.suspension_keys);
   ("drivetrain", Db.drivetrain_keys); ("tires", Db.tires_keys);
   ("electronics", Db.electronics_keys); ("general", Db.general_keys)].

(** The key an event is filed under, and the runs that name it. *)
Definition event_key {H : Host} (e : Event.t) : string :=
  Stats.toStringP (Event.id e).

Definition run_of_event {H : Host} (e : Event.t) (run : Run.t) : bool :=
  truthyP (Run.eventId run)
  && String.eqb (Stats.toStringP (Run.eventId run)) (event_key e).

(** The key under which the correlator groups a run: car and track. *)
Definition car_track_key {H : Host} (run : Run.t) : string :=
  (Stats.toStringP (Run.carId run) ++ "_"
   ++ Stats.toStringP (orP (Run.trackId run) (PStr "unknown")))%string.

(** A run the correlator looks at: it names a setup and carries a best
    lap number that is not 0 or NaN. *)
Definition eligible (run : Run.t) : bool :=
  truthyP (Run.setupId run) && App.truthy_num (Run.bestLapNum run).

(** The time the correlator orders a run by: that of its event date,
    or else of its creation time, as the host reads it. *)
Definition run_time {H : Host} (run : Run.t) : option Z :=
  Date_new (orP (Run.eventDate run) (Run.createdAt run)).

(** The runs the correlator looks at under the key [k]. *)
Definition in_group {H : Host} (k : string) (run : Run.t) : bool :=
  eligible run && String.eqb (car_track_key run) k.

(** The state of [runsByCarTrack] after the runs [done]: one entry per
    key met so far, holding the runs of that key in order. *)
Definition Keyed {H : Host} (done : list Run.t)
           (o : list (string * list Run.t)) : Prop :=
  NoDup (map fst o)
  /\ (forall k rs, In (k, rs) o -> rs = filter (in_group k) done)
  /\ (forall r, In r done -> eligible r = true ->
                In (car_track_key r) (map fst o)).

(** The ten decimal digits, and the number a digit text denotes. *)
Definition digit_chars : list ascii :=
  ["0"; "1"; "2"; "3"; "4"; "5"; "6"; "7"; "8"; "9"]%char.

Definition number_of_digits (l : list ascii) : Z :=
  fst (fst (read_digits 0 0 (string_of_list_ascii l))).

(** The day groups with every run rewritten by [g]. *)
Definition map_groups (g : Run.t -> Run.t) (o : list (string * list Run.t))
  : list (string * list Run.t) :=
  map (fun entry => (fst entry, map g (snd entry))) o.

(** A binary64 datum that is neither NaN nor below zero: +0, a
    positive number or +Infinity. *)
Definition nonneg_sf (x : spec_float) : Prop :=
  match x with
  | S754_zero false | S754_infinity false | S754_finite false _ _ => True
  | _ => False
  end.

(** Turns a list of known length into its elements. *)
Ltac explicit_values ps Hlen :=
  simpl in Hlen;
  repeat (destruct ps as [ | ? ps ]; [ discriminate Hlen | ]);
  destruct ps; [ | discriminate Hlen ]; clear Hlen.

Ltac distinct_keys :=
  repeat (constructor; [ simpl; intuition discriminate | ]); constructor.

(** * Properties *)

(** ** Order of binary64 numbers *)

Lemma SFcompare_refl (x : spec_float) :
  x <> S754_nan -> SFcompare x x = Some Eq.
Proof.
  destruct x as [s | s | | s m e]; simpl; intros Hx; try congruence.
  - destruct s; reflexivity.
  - rewrite Z.compare_refl, Pos.compare_cont_refl. destruct s; reflexivity.
Qed.

Lemma SFleb_trans (x y z : spec_float) :
  SFleb x y = true -> SFleb y z = true -> SFleb x z = true.
Proof.
  unfold SFleb.
  destruct x as [sx | sx | | sx mx ex], y as [sy | sy | | sy my ey],
           z as [sz | sz | | sz mz ez]; simpl;
    try discriminate; try reflexivity;
    repeat match goal with s : bool |- _ => destruct s end; simpl;
    try discriminate; try reflexivity.
  all: change (Pos.compare_cont Eq) with Pos.compare.
  all: destruct (Z.compare_spec ex ey), (Z.compare_spec ey ez),
         (Z.compare_spec ex ez); simpl; try discriminate; try reflexivity;
         try lia; subst.
  all: destruct (Pos.compare_spec mx my), (Pos.compare_spec my mz),
         (Pos.compare_spec mx mz); simpl; try discriminate; try reflexivity;
         try lia.
Qed.

Lemma SFcompare_antisym (x y : spec_float) :
  SFcompare y x = option_map CompOpp (SFcompare x y).
Proof.
  destruct x as [sx | sx | | sx mx ex], y as [sy | sy | | sy my ey]; simpl;
    try reflexivity;
    repeat match goal with s : bool |- _ => destruct s end; simpl;
    try reflexivity.
  all: rewrite (Z.compare_antisym ey ex); destruct (ey ?= ex)%Z; simpl;
    try reflexivity.
  all: change (Pos.compare_cont Eq) with Pos.compare;
    rewrite (Pos.compare_antisym mx my); destruct (mx ?= my)%positive; reflexivity.
Qed.

Lemma isNaN_spec (a : float) : isNaN a = false -> Prim2SF a <> S754_nan.
Proof.
  unfold isNaN. rewrite eqb_spec. unfold SFeqb. intros Ha Hn.
  rewrite Hn in Ha. discriminate.
Qed.

Lemma leb_refl (a : float) : isNaN a = false -> PrimFloat.leb a a = true.
Proof.
  intros Ha. rewrite leb_spec. unfold SFleb.
  rewrite SFcompare_refl by (apply isNaN_spec, Ha). reflexivity.
Qed.

Lemma leb_trans (a b c : float) :
  PrimFloat.leb a b = true -> PrimFloat.leb b c = true -> PrimFloat.leb a c = true.
Proof. rewrite !leb_spec. apply SFleb_trans. Qed.

Lemma ltb_leb (a b : float) : PrimFloat.ltb a b = true -> PrimFloat.leb a b = true.
Proof.
  rewrite ltb_spec, leb_spec. unfold SFltb, SFleb.
  destruct (SFcompare _ _) as [[ | | ] | ]; congruence.
Qed.

Lemma not_ltb_leb (a b : float) :
  isNaN a = false -> isNaN b = false ->
  PrimFloat.ltb a b = false -> PrimFloat.leb b a = true.
Proof.
  intros Ha Hb. rewrite ltb_spec, leb_spec. unfold SFltb, SFleb.
  rewrite (SFcompare_antisym (Prim2SF a) (Prim2SF b)).
  apply isNaN_spec in Ha. apply isNaN_spec in Hb.
  destruct (SFcompare (Prim2SF a) (Prim2SF b)) as [[ | | ] | ] eqn:Hc; simpl;
    try congruence.
  destruct (Prim2SF a), (Prim2SF b); simpl in Hc; congruence.
Qed.

(** ** Rounding to binary64 never gives [NaN] *)

Lemma not_nan_isNaN (a : float) : Prim2SF a <> S754_nan -> isNaN a = false.
Proof.
  intros Ha. unfold isNaN. rewrite eqb_spec. unfold SFeqb.
  rewrite (SFcompare_refl _ Ha). reflexivity.
Qed.

Section Rounding.
Local Open Scope Z_scope.

Lemma shr_1_nonneg (mrs : shr_record) : 0 <= shr_m mrs -> 0 <= shr_m (shr_1 mrs).
Proof.
  destruct mrs as [m r s]. simpl.
  destruct m as [ | [p | p | ] | [p | p | ] ]; simpl; lia.
Qed.

Lemma iter_shr_1_nonneg (p : positive) :
  forall mrs, 0 <= shr_m mrs -> 0 <= shr_m (iter_pos shr_1 p mrs).
Proof.
  induction p as [p IH | p IH | ]; intros mrs Hm; simpl.
  - apply IH, IH, shr_1_nonneg, Hm.
  - apply IH, IH, Hm.
  - apply shr_1_nonneg, Hm.
Qed.

Lemma shr_fexp_nonneg (m e : Z) (l : location) :
  0 <= m -> 0 <= shr_m (fst (shr_fexp prec emax m e l)).
Proof.
  intros Hm. unfold shr_fexp, shr.
  assert (Hrec : 0 <= shr_m (shr_record_of_loc m l))
    by (destruct l as [ | [ | | ] ]; exact Hm).
  destruct (fexp prec emax (Zdigits2 m + e) - e); simpl;
    try exact Hrec. apply iter_shr_1_nonneg, Hrec.
Qed.

Lemma round_nearest_even_nonneg (mx : Z) (lx : location) :
  0 <= mx -> 0 <= round_nearest_even mx lx.
Proof.
  intros Hm. destruct lx as [ | [ | | ] ]; simpl; try lia.
  destruct (Z.even mx); lia.
Qed.

Lemma binary_round_aux_not_nan (sx : bool) (mx ex : Z) (lx : location) :
  0 <= mx -> binary_round_aux prec emax sx mx ex lx <> S754_nan.
Proof.
  intros Hm. unfold binary_round_aux.
  pose proof (shr_fexp_nonneg mx ex lx Hm) as H1.
  destruct (shr_fexp prec emax mx ex lx) as [mrs' e']. simpl in H1.
  pose proof (shr_fexp_nonneg _ e' loc_Exact
                (round_nearest_even_nonneg _ (loc_of_shr_record mrs') H1)) as H2.
  destruct (shr_fexp prec emax _ e' loc_Exact) as [mrs'' e'']. simpl in H2.
  destruct (shr_m mrs'') as [ | m | m ]; [ discriminate | | lia ].
  destruct (e'' <=? emax - prec); discriminate.
Qed.

Lemma binary_round_not_nan (sx : bool) (mx : positive) (ex : Z) :
  binary_round prec emax sx mx ex <> S754_nan.
Proof.
  unfold binary_round. destruct (shl_align _ _ _) as [mz ez].
  apply binary_round_aux_not_nan. lia.
Qed.

Lemma binary_normalize_not_nan (m e : Z) (szero : bool) :
  binary_normalize prec emax m e szero <> S754_nan.
Proof.
  destruct m; simpl; [ discriminate | apply binary_round_not_nan .. ].
Qed.

Lemma SFdiv_finite_not_nan (sx sy : bool) (mx my : positive) (ex ey : Z) :
  SFdiv prec emax (S754_finite sx mx ex) (S754_finite sy my ey) <> S754_nan.
Proof.
  simpl. unfold SFdiv_core_binary.
  set (m' := match _ with Zpos _ => _ | Z0 => _ | Zneg _ => _ end).
  assert (Hm' : 0 <= m').
  { subst m'. destruct (_ - _ - _); try lia. apply Z.shiftl_nonneg. lia. }
  pose proof (Z_div_mod m' (Zpos my) ltac:(lia)) as Hdiv.
  destruct (Z.div_eucl m' (Zpos my)) as [q r].
  apply binary_round_aux_not_nan. nia.
Qed.

Lemma SFldexp_not_nan (f : spec_float) (e : Z) :
  f <> S754_nan -> SFldexp prec emax f e <> S754_nan.
Proof.
  destruct f; simpl; try congruence. intros _. apply binary_round_not_nan.
Qed.

Lemma SFopp_not_nan (f : spec_float) : f <> S754_nan -> SFopp f <> S754_nan.
Proof. destruct f; simpl; congruence. Qed.
End Rounding.

Lemma SF2Prim_not_nan (sf : spec_float) :
  sf <> S754_nan -> isNaN (SF2Prim sf) = false.
Proof.
  destruct sf as [ [ | ] | [ | ] | | s m e ]; try reflexivity; [ congruence | ].
  intros _. apply not_nan_isNaN. unfold SF2Prim, Z.ldexp.
  assert (Hf : forall k, Prim2SF (ldshiftexp (of_uint63 (Uint63Axioms.of_Z (Zpos m))) k)
                         <> S754_nan).
  { intros k. rewrite ldshiftexp_spec. apply SFldexp_not_nan.
    rewrite of_uint63_spec. apply binary_normalize_not_nan. }
  destruct s; [ rewrite opp_spec; apply SFopp_not_nan | ]; apply Hf.
Qed.

Lemma decimal_to_float_not_nan (neg : bool) (m e : Z) :
  isNaN (decimal_to_float neg m e) = false.
Proof.
  unfold decimal_to_float.
  destruct m as [ | mp | mp ]; try (destruct neg; reflexivity).
  apply SF2Prim_not_nan.
  destruct e; try apply binary_normalize_not_nan. apply SFdiv_finite_not_nan.
Qed.

(** ** [Math.min] *)

Lemma min2_cases (a b : float) : min2 a b = a \/ min2 a b = b.
Proof.
  unfold min2.
  repeat match goal with |- context [if ?c then _ else _] => destruct c end; auto.
Qed.

Lemma min2_lower (a b : float) :
  isNaN a = false -> isNaN b = false ->
  PrimFloat.leb (min2 a b) a = true /\ PrimFloat.leb (min2 a b) b = true.
Proof.
  intros Ha Hb. unfold min2. rewrite Ha, Hb.
  destruct (PrimFloat.ltb a b) eqn:Hab.
  - split; [ apply leb_refl, Ha | apply ltb_leb, Hab ].
  - destruct (PrimFloat.ltb b a) eqn:Hba.
    + split; [ apply ltb_leb, Hba | apply leb_refl, Hb ].
    + destruct (get_sign a).
      * split; [ apply leb_refl, Ha | apply not_ltb_leb; assumption ].
      * split; [ apply not_ltb_leb; assumption | apply leb_refl, Hb ].
Qed.

Lemma min2_not_nan (a b : float) :
  isNaN a = false -> isNaN b = false -> isNaN (min2 a b) = false.
Proof. intros Ha Hb. destruct (min2_cases a b) as [-> | ->]; assumption. Qed.

Lemma fold_min2 (l : list float) (acc : float) :
  isNaN acc = false -> Forall (fun y => isNaN y = false) l ->
  let m := fold_left min2 l acc in
  (m = acc \/ In m l) /\ isNaN m = false
  /\ PrimFloat.leb m acc = true /\ Forall (fun y => PrimFloat.leb m y = true) l.
Proof.
  revert acc. induction l as [ | y l IH ]; intros acc Hacc Hl; simpl.
  - repeat split; auto. apply leb_refl, Hacc.
  - inversion Hl as [ | ? ? Hy Hl' ]; subst.
    destruct (IH (min2 acc y) (min2_not_nan _ _ Hacc Hy) Hl')
      as (Hin & Hnan & Hle & Hall).
    destruct (min2_lower acc y Hacc Hy) as [Hla Hly].
    repeat split.
    + destruct Hin as [Hin | Hin]; [ | auto ].
      rewrite Hin. destruct (min2_cases acc y) as [-> | ->]; auto.
    + exact Hnan.
    + eapply leb_trans; eassumption.
    + constructor; [ eapply leb_trans; eassumption | exact Hall ].
Qed.

Lemma min2_infinity (a : float) : isNaN a = false -> min2 infinity a = a.
Proof.
  intros Ha. unfold min2. rewrite Ha.
  change (isNaN infinity) with false. cbv iota.
  destruct (PrimFloat.ltb infinity a) eqn:Hlt.
  - exfalso. rewrite ltb_spec in Hlt. unfold SFltb in Hlt.
    change (Prim2SF infinity) with (S754_infinity false) in Hlt.
    destruct (Prim2SF a) as [ | [ | ] | | ]; simpl in Hlt; discriminate.
  - destruct (PrimFloat.ltb a infinity); [ reflexivity | ].
    change (get_sign infinity) with false. reflexivity.
Qed.

(** On numbers without [NaN], [Math.min] returns one of its arguments,
    and none of them is below it. *)
Lemma Math_min_least (l : list float) :
  l <> [] -> Forall (fun y => isNaN y = false) l ->
  In (Math_min l) l /\ Forall (fun y => PrimFloat.leb (Math_min l) y = true) l.
Proof.
  destruct l as [ | a l ]; [ congruence | ]. intros _ Hl.
  inversion Hl as [ | ? ? Ha Hl' ]; subst.
  unfold Math_min. simpl fold_left. rewrite (min2_infinity a Ha).
  destruct (fold_min2 l a Ha Hl') as (Hin & _ & Hle & Hall).
  split.
  - destruct Hin as [-> | Hin]; [ left; reflexivity | right; exact Hin ].
  - constructor; assumption.
Qed.

(** ** The stable sort *)

Section SortFacts.
Context {A : Type} (cmp : A -> A -> option Z).

Lemma insert_sorted_perm (a : A) (l : list A) :
  Permutation (insert_sorted cmp a l) (a :: l).
Proof.
  induction l as [ | y l IH ]; simpl; [ reflexivity | ].
  destruct (not_after cmp a y); [ reflexivity | ].
  rewrite IH. apply perm_swap.
Qed.

Lemma sort_perm (l : list A) : Permutation (sort cmp l) l.
Proof.
  induction l as [ | a l IH ]; simpl; [ reflexivity | ].
  rewrite insert_sorted_perm. apply perm_skip, IH.
Qed.

Lemma sort_In (l : list A) (a : A) : In a (sort cmp l) <-> In a l.
Proof.
  split; apply Permutation_in; [ | symmetry ]; apply sort_perm.
Qed.

(** When the comparator is the difference of a numeric key, the
    result is ordered by that key. *)
Variable key : A -> Z.

Lemma insert_sorted_ordered (a : A) (l : list A) :
  (forall y, In y l -> cmp a y = Some (key a - key y)%Z) ->
  StronglySorted (fun u v => (key u <= key v)%Z) l ->
  StronglySorted (fun u v => (key u <= key v)%Z) (insert_sorted cmp a l).
Proof.
  intros Hcmp Hs. induction Hs as [ | y l Hs IH Hy ]; simpl.
  - repeat constructor.
  - unfold not_after. rewrite (Hcmp y (or_introl eq_refl)).
    destruct (Z.leb_spec (key a - key y) 0) as [Hle | Hgt].
    + constructor; [ constructor; assumption | ].
      constructor; [ lia | ].
      eapply Forall_impl; [ | exact Hy ]. simpl. intros; lia.
    + constructor.
      * apply IH. intros z Hz. apply Hcmp. right; exact Hz.
      * rewrite (insert_sorted_perm a l).
        constructor; [ lia | exact Hy ].
Qed.

Lemma sort_ordered (l : list A) :
  (forall a b, In a l -> In b l -> cmp a b = Some (key a - key b)%Z) ->
  StronglySorted (fun u v => (key u <= key v)%Z) (sort cmp l).
Proof.
  induction l as [ | a l IH ]; intros Hcmp; simpl; [ constructor | ].
  apply insert_sorted_ordered.
  - intros y Hy. apply Hcmp; [ left; reflexivity | ].
    right. apply sort_In, Hy.
  - apply IH. intros u v Hu Hv. apply Hcmp; right; assumption.
Qed.

Lemma ordered_nodup_strict (l : list A) :
  NoDup (map key l) ->
  StronglySorted (fun u v => (key u <= key v)%Z) l ->
  StronglySorted (fun u v => (key u < key v)%Z) l.
Proof.
  intros Hnd Hs. induction Hs as [ | y l Hs IH Hy ]; [ constructor | ].
  simpl in Hnd. apply NoDup_cons_iff in Hnd as [Hnotin Hnd].
  constructor; [ apply IH, Hnd | ].
  rewrite Forall_forall in *. intros z Hz.
  specialize (Hy z Hz).
  assert (key y <> key z).
  { intros Heq. apply Hnotin. rewrite Heq. apply in_map, Hz. }
  lia.
Qed.
End SortFacts.


(** ** Lap parser *)

Lemma read_digits_none (acc : Z) (count : nat) (s : string) :
  starts_digit s = false -> read_digits acc count s = (acc, count, s).
Proof.
  destruct s as [ | c s ]; simpl; [ reflexivity | ].
  unfold Stats.is_digit. destruct (digit_of c); [ discriminate | reflexivity ].
Qed.

(** Text that does not begin with a decimal literal reads as [NaN]. *)
Lemma parseFloat_not_number (s : string) :
  starts_number s = false -> isNaN (parseFloat s) = true.
Proof.
  unfold starts_number, parseFloat.
  destruct (read_sign (trimStart s)) as [neg body]. simpl.
  intros Hs. apply orb_false_elim in Hs as [Hs Hpoint].
  apply orb_false_elim in Hs as [Hinf Hdigit].
  rewrite Hinf, (read_digits_none 0 0 body Hdigit).
  destruct body as [ | c rest ]; [ reflexivity | ].
  destruct (Ascii.eqb c "."); [ | reflexivity ].
  simpl in Hpoint. rewrite (read_digits_none 0 0 rest Hpoint). reflexivity.
Qed.

Lemma read_digits_count (s : string) :
  forall acc count, (count <= snd (fst (read_digits acc count s)))%nat.
Proof.
  induction s as [ | c s IH ]; intros acc count; cbn [read_digits fst snd];
    [ lia | ].
  destruct (digit_of c) as [d | ]; cbn [fst snd]; [ | lia ].
  specialize (IH (10 * acc + d)%Z (S count)). lia.
Qed.

Lemma read_digits_some (acc : Z) (count : nat) (s : string) :
  starts_digit s = true -> (count < snd (fst (read_digits acc count s)))%nat.
Proof.
  destruct s as [ | c s ]; cbn [starts_digit read_digits]; [ discriminate | ].
  unfold Stats.is_digit. destruct (digit_of c) as [d | ]; [ | discriminate ].
  intros _. pose proof (read_digits_count s (10 * acc + d)%Z (S count)). lia.
Qed.

(** Numeric text begins with a number. *)
Lemma numeric_text_starts_number (s : string) :
  numeric_text s = true -> starts_number s = true.
Proof.
  unfold numeric_text, starts_number.
  destruct (read_sign (trimStart s)) as [neg body]. cbn [snd].
  destruct (String.prefix "Infinity" body); [ reflexivity | ].
  cbn [andb orb].
  destruct (starts_digit body) eqn:Hdigit; [ reflexivity | ].
  rewrite (read_digits_none 0 0 body Hdigit).
  destruct body as [ | c rest ]; [ discriminate | ].
  destruct (Ascii.eqb c "."); [ | discriminate ].
  destruct (starts_digit rest) eqn:Hrest; [ reflexivity | ].
  rewrite (read_digits_none 0 0 rest Hrest). discriminate.
Qed.

(** Text that begins with a decimal literal reads as a number. *)
Lemma parseFloat_number (s : string) :
  starts_number s = true -> isNaN (parseFloat s) = false.
Proof.
  unfold starts_number, parseFloat.
  destruct (read_sign (trimStart s)) as [neg body]. simpl.
  destruct (String.prefix "Infinity" body); [ destruct neg; reflexivity | ].
  simpl. intros Hs.
  assert (Hcount : forall (k : nat) (m e : Z), (0 < k)%nat ->
            isNaN match k with
                  | O => nan
                  | S _ => decimal_to_float neg m e
                  end = false).
  { intros k m e Hk. destruct k; [ lia | ]. apply decimal_to_float_not_nan. }
  destruct (starts_digit body) eqn:Hdigit.
  - pose proof (read_digits_some 0 0 body Hdigit) as Hni.
    destruct (read_digits 0 0 body) as [[ip ni] rest]. simpl in Hni.
    destruct rest as [ | c after ].
    + apply Hcount. lia.
    + destruct (Ascii.eqb c "."); [ | apply Hcount; lia ].
      destruct (read_digits ip 0 after) as [[m nf] rest'].
      apply Hcount. lia.
  - simpl in Hs. rewrite (read_digits_none 0 0 body Hdigit).
    destruct body as [ | c rest ]; [ discriminate | ].
    apply andb_prop in Hs as [-> Hrest].
    pose proof (read_digits_some 0 0 rest Hrest) as Hnf.
    destruct (read_digits 0 0 rest) as [[m nf] rest']. simpl in Hnf.
    apply Hcount. lia.
Qed.

Lemma positive_or_null_Some (num n : float) :
  Stats.positive_or_null num = Some n ->
  n = num /\ isNaN n = false /\ PrimFloat.leb n 0 = false.
Proof.
  unfold Stats.positive_or_null.
  destruct (isNaN num) eqn:Hnan; simpl; [ discriminate | ].
  destruct (PrimFloat.leb num 0) eqn:Hle; [ discriminate | ].
  intros [= <-]. auto.
Qed.

Lemma parseLap_number (v : Prim) (n : float) :
  lap_number v = Some n -> Stats.parseLap v = Stats.positive_or_null n.
Proof.
  destruct v as [ | | f | [ | c s ] ]; simpl; try discriminate;
    intros [= <-]; reflexivity.
Qed.

(** A parsed lap is the number the value denotes, and is above zero. *)
Lemma parseLap_valid (v : Prim) (n : float) :
  Stats.parseLap v = Some n ->
  lap_number v = Some n /\ isNaN n = false /\ PrimFloat.leb n 0 = false.
Proof.
  destruct v as [ | | f | [ | c s ] ]; simpl; try discriminate; intros Hp;
    apply positive_or_null_Some in Hp as (-> & Hnan & Hpos); auto.
Qed.

Lemma valid_laps_not_nan (f : Run.t -> Prim) (runs : list Run.t) :
  Forall (fun y => isNaN y = false) (Stats.valid_laps f runs).
Proof.
  unfold Stats.valid_laps. induction runs as [ | r runs IH ]; simpl.
  - constructor.
  - destruct (Stats.parseLap (f r)) as [n | ] eqn:Hp; simpl; [ | exact IH ].
    constructor; [ apply (parseLap_valid _ _ Hp) | exact IH ].
Qed.

(** C8. [parseLap] does not give null for every text that is not
    numeric.  A best lap typed as minutes and seconds, ["1:05.3"], is
    not numeric text, yet it reads as the lap time 1, the minutes, where
    the time field of the same form reads the same text as 65.3
    seconds; and a lap with a unit, ["15.2s"], reads as the number
    before the unit. *)
Theorem parseLap_keeps_text_with_leading_number :
  numeric_text "1:05.3" = false
  /\ Stats.parseLap (PStr "1:05.3") = Some 1%float
  /\ Forms.parseTimeInputToSeconds "1:05.3" = Some 65.3%float
  /\ numeric_text "15.2s" = false
  /\ Stats.parseLap (PStr "15.2s") = Some 15.2%float.
Proof. vm_compute. repeat split. Qed.

(** What [parseLap] does on every input.  It gives null for null,
    undefined and the empty string, for text that does not begin with a
    number, and for zero and negative values; text that begins with a
    number always reads as a number, the one it begins with, and any
    string or number whose value is above zero gives that value;
    ["15.234"] gives 15.234.  It is a total function: every input has a
    result, which is null or a number above zero. *)
Theorem parseLap_contract :
  (Stats.parseLap PNull = None /\ Stats.parseLap PUndef = None
   /\ Stats.parseLap (PStr "") = None)
  /\ (forall s, starts_number s = false -> Stats.parseLap (PStr s) = None)
  /\ (forall s, starts_number s = true ->
                isNaN (parseFloat s) = false
                /\ Stats.parseLap (PStr s)
                   = if PrimFloat.leb (parseFloat s) 0 then None
                     else Some (parseFloat s))
  /\ (forall v n, lap_number v = Some n -> PrimFloat.leb n 0 = true ->
                  Stats.parseLap v = None)
  /\ (forall v n, lap_number v = Some n -> isNaN n = false ->
                  PrimFloat.leb n 0 = false -> Stats.parseLap v = Some n)
  /\ Stats.parseLap (PStr "15.234") = Some 15.234%float
  /\ (forall v, match Stats.parseLap v with
                | None => True
                | Some n => lap_number v = Some n /\ isNaN n = false
                            /\ PrimFloat.leb n 0 = false
                end).
Proof.
  split; [ repeat split | ].
  split; [ | split; [ | split; [ | split; [ | split ] ] ] ].
  - intros s Hs. pose proof (parseFloat_not_number s Hs) as Hnan.
    destruct s; [ reflexivity | ]. simpl. unfold Stats.positive_or_null.
    rewrite Hnan. reflexivity.
  - intros s Hs. pose proof (parseFloat_number s Hs) as Hnum.
    split; [ exact Hnum | ].
    destruct s; [ discriminate | ]. simpl. unfold Stats.positive_or_null.
    rewrite Hnum. reflexivity.
  - intros v n Hv Hle. rewrite (parseLap_number v n Hv).
    unfold Stats.positive_or_null. rewrite Hle, orb_true_r. reflexivity.
  - intros v n Hv Hnan Hpos. rewrite (parseLap_number v n Hv).
    unfold Stats.positive_or_null. rewrite Hnan, Hpos. reflexivity.
  - vm_compute. reflexivity.
  - intros v. destruct (Stats.parseLap v) as [n | ] eqn:Hp; [ | exact I ].
    apply parseLap_valid, Hp.
Qed.

(** ** Run aggregator *)

Section Aggregator.
Context {H : Host}.
Variables (events : list Event.t) (tracks : list Track.t) (cars : list Car.t).

Lemma aggregateRuns_filtered (runs : list Run.t) (filters : Filters.t)
      (agg : Stats.Aggregate) :
  Stats.aggregateRuns runs events tracks cars filters = Ok agg ->
  Stats.filteredRuns agg = filter (Stats.keep_run events filters) runs
  /\ Stats.kpis agg = Stats.calculateKPIs (Stats.filteredRuns agg)
  /\ Stats.buildTrendSeries (Stats.filteredRuns agg) events
     = Ok (Stats.trendSeries agg)
  /\ Stats.byTrack agg
     = Stats.calculateByTrack (Stats.filteredRuns agg) events tracks.
Proof.
  unfold Stats.aggregateRuns. intros Hagg.
  destruct (Stats.buildTrendSeries _ events) as [series | e] eqn:Hts;
    simpl in Hagg; [ | discriminate ].
  injection Hagg as <-. simpl. auto.
Qed.

(** The output depends on the runs only through the runs kept. *)
Lemma aggregateRuns_same_kept (runs runs' : list Run.t) (filters : Filters.t) :
  filter (Stats.keep_run events filters) runs
  = filter (Stats.keep_run events filters) runs' ->
  Stats.aggregateRuns runs events tracks cars filters
  = Stats.aggregateRuns runs' events tracks cars filters.
Proof. unfold Stats.aggregateRuns. intros ->. reflexivity. Qed.

(** C9. When no run passes the filters, and so for an empty list of
    runs, [aggregateRuns] returns normally with null KPIs, zero counts,
    an empty trend series and an empty per-track table. *)
Theorem aggregateRuns_nothing_kept (runs : list Run.t) (filters : Filters.t) :
  filter (Stats.keep_run events filters) runs = [] ->
  Stats.aggregateRuns runs events tracks cars filters
  = Ok {| Stats.filteredRuns := [];
          Stats.kpis := {| Stats.bestLapMin := None;
                           Stats.avgLapMean := None;
                           Stats.runCount := 0;
                           Stats.eventCount := 0 |};
          Stats.trendSeries := [];
          Stats.byTrack := [] |}.
Proof.
  intros Hnone. unfold Stats.aggregateRuns. rewrite Hnone. reflexivity.
Qed.

(** C7. With a track filter set, a run whose event is not in the
    events list is rejected whatever its other fields are; a run passes
    only if its event is found and that event's track is the filter's;
    so every run of [filteredRuns] has such an event. *)
Theorem trackId_filter_needs_event (runs : list Run.t) (filters : Filters.t)
        (run : Run.t) :
  truthyP (Filters.trackId filters) = true ->
  (Stats.find_event events (Run.eventId run) = None ->
   Stats.keep_run events filters run = false)
  /\ (Stats.keep_run events filters run = true ->
      exists event,
        Stats.find_event events (Run.eventId run) = Some event
        /\ strict_eq (Event.trackId event) (Filters.trackId filters) = true)
  /\ (forall agg,
        Stats.aggregateRuns runs events tracks cars filters = Ok agg ->
        In run (Stats.filteredRuns agg) ->
        exists event,
          Stats.find_event events (Run.eventId run) = Some event
          /\ strict_eq (Event.trackId event) (Filters.trackId filters) = true).
Proof.
  intros Hset.
  assert (Hkept : Stats.keep_run events filters run = true ->
            exists event,
              Stats.find_event events (Run.eventId run) = Some event
              /\ strict_eq (Event.trackId event) (Filters.trackId filters) = true).
  { unfold Stats.keep_run. rewrite Hset.
    destruct (truthyP (Filters.carId filters)
              && negb (strict_eq (Run.carId run) (Filters.carId filters)));
      [ discriminate | ].
    destruct (Stats.find_event events (Run.eventId run)) as [event | ];
      simpl; [ | discriminate ].
    intros Hkeep. exists event. split; [ reflexivity | ].
    destruct (strict_eq (Event.trackId event) (Filters.trackId filters));
      [ reflexivity | discriminate ]. }
  split; [ | split; [ exact Hkept | ] ].
  - intros Hmiss. destruct (Stats.keep_run events filters run) eqn:Hkeep;
      [ | reflexivity ].
    destruct (Hkept eq_refl) as (event & Hfound & _). congruence.
  - intros agg Hagg Hin.
    apply aggregateRuns_filtered in Hagg as [Hf _].
    rewrite Hf in Hin. apply filter_In in Hin as [_ Hkeep]. exact (Hkept Hkeep).
Qed.

Lemma withinDateRange_missing (dateStr startStr endStr : Prim) :
  truthyP dateStr = false ->
  Stats.withinDateRange dateStr startStr endStr = false.
Proof. intros Hd. unfold Stats.withinDateRange. rewrite Hd. reflexivity. Qed.

Lemma createdAt_missing_falsy (run : Run.t) :
  createdAt_missing run -> truthyP (Run.createdAt run) = false.
Proof. intros [-> | [-> | ->]]; reflexivity. Qed.

(** C10. With a date bound in the filters, a run without [createdAt]
    fails the date test and is rejected, and the whole output is the
    one computed without that run. *)
Theorem missing_createdAt_fails_date_filter (filters : Filters.t) (run : Run.t) :
  createdAt_missing run ->
  truthyP (Filters.dateFrom filters) || truthyP (Filters.dateTo filters) = true ->
  Stats.withinDateRange (Run.createdAt run) (Filters.dateFrom filters)
                        (Filters.dateTo filters) = false
  /\ Stats.keep_run events filters run = false
  /\ (forall before after agg,
        Stats.aggregateRuns (before ++ run :: after) events tracks cars filters
        = Ok agg ->
        ~ In run (Stats.filteredRuns agg))
  /\ (forall before after,
        Stats.aggregateRuns (before ++ run :: after) events tracks cars filters
        = Stats.aggregateRuns (before ++ after) events tracks cars filters).
Proof.
  intros Hmiss Hbound.
  assert (Hrange : Stats.withinDateRange (Run.createdAt run)
                     (Filters.dateFrom filters) (Filters.dateTo filters) = false)
    by (apply withinDateRange_missing, createdAt_missing_falsy, Hmiss).
  assert (Hkeep : Stats.keep_run events filters run = false).
  { unfold Stats.keep_run. rewrite Hbound, Hrange. simpl.
    repeat match goal with |- (if ?c then _ else _) = _ => destruct c end;
      reflexivity. }
  repeat split; try assumption.
  - intros before after agg Hagg Hin.
    apply aggregateRuns_filtered in Hagg as [Hf _].
    rewrite Hf in Hin. apply filter_In in Hin as [_ Hk]. congruence.
  - intros before after. apply aggregateRuns_same_kept.
    rewrite !filter_app. simpl. rewrite Hkeep. reflexivity.
Qed.

(** C2. [kpis.avgLapMean] is the mean of the valid [avgLap] values of
    the kept runs; when there is none it is the mean of their valid
    [bestLap] values; valid best laps 10 and 12 with no valid average
    lap give 11. *)
Theorem avgLapMean_mean_with_fallback (runs : list Run.t) (filters : Filters.t)
        (agg : Stats.Aggregate) :
  Stats.aggregateRuns runs events tracks cars filters = Ok agg ->
  let kept := filter (Stats.keep_run events filters) runs in
  let avgLaps := Stats.valid_laps Run.avgLap kept in
  let bestLaps := Stats.valid_laps Run.bestLap kept in
  (avgLaps <> [] -> Stats.avgLapMean (Stats.kpis agg) = Some (mean avgLaps))
  /\ (avgLaps = [] -> bestLaps <> [] ->
      Stats.avgLapMean (Stats.kpis agg) = Some (mean bestLaps))
  /\ (avgLaps = [] -> bestLaps = [] ->
      Stats.avgLapMean (Stats.kpis agg) = None)
  /\ (avgLaps = [] -> bestLaps = [10; 12]%float ->
      Stats.avgLapMean (Stats.kpis agg) = Some 11%float).
Proof.
  intros Hagg kept avgLaps bestLaps.
  apply aggregateRuns_filtered in Hagg as (Hf & Hk & _).
  rewrite Hk, Hf. unfold Stats.calculateKPIs. simpl.
  fold kept. fold avgLaps. fold bestLaps.
  repeat split.
  - destruct avgLaps; [ congruence | reflexivity ].
  - intros -> Hb. destruct bestLaps; [ congruence | reflexivity ].
  - intros -> ->. reflexivity.
  - intros -> ->. reflexivity.
Qed.

End Aggregator.

(** ** Trend series *)

Section TrendSeries.
Context {H : Host}.
Variable events : list Event.t.

Lemma push_at_keys (k : string) (run : Run.t) (o : list (string * list Run.t)) :
  map fst (Stats.push_at k run o)
  = if in_dec string_dec k (map fst o) then map fst o else map fst o ++ [k].
Proof.
  induction o as [ | [k' rs] o IH ]; simpl; [ reflexivity | ].
  destruct (String.eqb_spec k k') as [-> | Hne]; simpl.
  - destruct (string_dec k' k'); [ reflexivity | congruence ].
  - rewrite IH. destruct (string_dec k' k); [ congruence | ].
    destruct (in_dec string_dec k (map fst o)); reflexivity.
Qed.

Lemma push_at_entries (k : string) (run : Run.t) (o : list (string * list Run.t))
      (k' : string) (rs' : list Run.t) :
  NoDup (map fst o) ->
  In (k', rs') (Stats.push_at k run o) ->
  (k' <> k /\ In (k', rs') o)
  \/ (k' = k /\ exists rs, rs' = rs ++ [run]
                           /\ (In (k, rs) o \/ (rs = [] /\ ~ In k (map fst o)))).
Proof.
  induction o as [ | [k0 rs0] o IH ]; simpl; intros Hnd.
  - intros [[= <- <-] | []]. right. split; [ reflexivity | ].
    exists []. split; [ reflexivity | ]. right. auto.
  - apply NoDup_cons_iff in Hnd as [Hfresh Hnd].
    destruct (String.eqb_spec k k0) as [-> | Hne]; simpl.
    + intros [[= <- <-] | Hin].
      * right. split; [ reflexivity | ]. exists rs0. auto.
      * left. split; [ | auto ].
        intros ->. apply Hfresh. apply (in_map fst) in Hin. exact Hin.
    + intros [[= <- <-] | Hin].
      * left. auto.
      * destruct (IH Hnd Hin) as [[Hne' Hin'] | [-> (rs & -> & Hrs)]].
        -- left. auto.
        -- right. split; [ reflexivity | ]. exists rs. split; [ reflexivity | ].
           destruct Hrs as [Hrs | [-> Hnot]]; [ left; auto | ].
           right. split; [ reflexivity | ]. intros [Heq | Hk]; congruence.
Qed.

Lemma filter_nil {A : Type} (f : A -> bool) (l : list A) :
  (forall a, In a l -> f a = false) -> filter f l = [].
Proof.
  induction l as [ | a l IH ]; simpl; intros Hall; [ reflexivity | ].
  rewrite (Hall a (or_introl eq_refl)). apply IH. auto.
Qed.

Lemma charted_on_key (run : Run.t) (k day : string) :
  Stats.dateKey_of events run = Ok (Some k) ->
  charted_on events day run = String.eqb k day.
Proof. unfold charted_on. intros ->. reflexivity. Qed.

Lemma Grouped_push (done : list Run.t) (o : list (string * list Run.t))
      (run : Run.t) (k : string) :
  Stats.dateKey_of events run = Ok (Some k) ->
  Grouped events done o -> Grouped events (done ++ [run]) (Stats.push_at k run o).
Proof.
  intros Hk (Hnd & Hrs & Hkeys). split; [ | split ].
  - rewrite push_at_keys. destruct (in_dec string_dec k (map fst o)) as [ | Hnew];
      [ exact Hnd | ].
    apply NoDup_rev in Hnd. rewrite <- (rev_involutive (map fst o ++ [k])).
    apply NoDup_rev. rewrite rev_app_distr. simpl.
    constructor; [ rewrite <- in_rev; exact Hnew | exact Hnd ].
  - intros day rs' Hin'.
    rewrite filter_app. simpl. rewrite (charted_on_key run k day Hk).
    destruct (push_at_entries _ _ _ _ _ Hnd Hin')
      as [[Hne Hin] | [-> (rs0 & -> & Hin)]].
    + destruct (String.eqb_spec k day); [ congruence | ].
      rewrite app_nil_r. apply (Hrs _ _ Hin).
    + rewrite String.eqb_refl. split; [ | destruct rs0; discriminate ].
      f_equal.
      destruct Hin as [Hin | [-> Hnew]]; [ apply (Hrs _ _ Hin) | ].
      symmetry. apply filter_nil. intros r Hr.
      unfold charted_on.
      destruct (Stats.dateKey_of events r) as [[k1 | ] | ] eqn:Hr1; try reflexivity.
      destruct (String.eqb_spec k1 k) as [-> | ]; [ | reflexivity ].
      exfalso. apply Hnew. apply (Hkeys r k Hr Hr1).
  - intros r k1 Hr Hr1. rewrite push_at_keys.
    apply in_app_or in Hr as [Hr | [<- | []]].
    + specialize (Hkeys r k1 Hr Hr1).
      destruct (in_dec string_dec k (map fst o)); [ exact Hkeys | ].
      apply in_or_app. left. exact Hkeys.
    + assert (k1 = k) as -> by congruence.
      destruct (in_dec string_dec k (map fst o)); [ assumption | ].
      apply in_or_app. right. left. reflexivity.
Qed.

Lemma Grouped_skip (done : list Run.t) (o : list (string * list Run.t))
      (run : Run.t) :
  Stats.dateKey_of events run = Ok None ->
  Grouped events done o -> Grouped events (done ++ [run]) o.
Proof.
  intros Hk (Hnd & Hrs & Hkeys). split; [ exact Hnd | split ].
  - intros day rs' Hin'.
    rewrite filter_app. simpl. unfold charted_on at 2. rewrite Hk.
    rewrite app_nil_r. apply (Hrs _ _ Hin').
  - intros r k1 Hr Hr1. apply in_app_or in Hr as [Hr | [<- | []]].
    + apply (Hkeys r k1 Hr Hr1).
    + congruence.
Qed.

Lemma group_by_date_Grouped (runs done : list Run.t)
      (o o' : list (string * list Run.t)) :
  Grouped events done o ->
  Stats.group_by_date events runs o = Ok o' ->
  Grouped events (done ++ runs) o'.
Proof.
  revert done o. induction runs as [ | run runs IH ]; intros done o Hg; simpl.
  - intros [= <-]. rewrite app_nil_r. exact Hg.
  - replace (done ++ run :: runs) with ((done ++ [run]) ++ runs)
      by (rewrite <- app_assoc; reflexivity).
    destruct (Stats.dateKey_of events run) as [[k | ] | e] eqn:Hk; simpl;
      [ | | discriminate ]; intros Hrest.
    + apply (IH _ _ (Grouped_push _ _ _ _ Hk Hg) Hrest).
    + apply (IH _ _ (Grouped_skip _ _ _ Hk Hg) Hrest).
Qed.

Lemma Grouped_nil : Grouped events [] [].
Proof.
  repeat split; simpl; try constructor; try contradiction.
Qed.
Lemma trend_point_x (o : list (string * list Run.t)) :
  map Stats.x (map Stats.trend_point o) = map fst o.
Proof.
  induction o as [ | [k rs] o IH ]; simpl; [ reflexivity | ].
  rewrite IH. reflexivity.
Qed.

Lemma StronglySorted_weaken {A : Type} (R R' : A -> A -> Prop) (l : list A) :
  (forall a b, In a l -> In b l -> R a b -> R' a b) ->
  StronglySorted R l -> StronglySorted R' l.
Proof.
  intros Himp Hs. induction Hs as [ | a l Hs IH Ha ]; [ constructor | ].
  constructor.
  - apply IH. intros u v Hu Hv. apply Himp; right; assumption.
  - rewrite Forall_forall in *. intros b Hb.
    apply Himp; [ left; reflexivity | right; exact Hb | apply Ha, Hb ].
Qed.

Lemma NoDup_map_through {A B C : Type} (f : A -> B) (g : A -> C) (l : list A) :
  (forall a b, In a l -> In b l -> g a = g b -> f a = f b) ->
  NoDup (map f l) -> NoDup (map g l).
Proof.
  induction l as [ | a l IH ]; simpl; intros Hinj Hnd; [ constructor | ].
  apply NoDup_cons_iff in Hnd as [Hfresh Hnd]. constructor.
  - intros Hin. apply in_map_iff in Hin as (b & Hgb & Hb).
    apply Hfresh. rewrite (Hinj a b); [ apply in_map, Hb | auto | auto | auto ].
  - apply IH; [ | exact Hnd ]. intros u v Hu Hv. apply Hinj; right; assumption.
Qed.

Lemma min_or_null_least (laps : list float) :
  Forall (fun y => isNaN y = false) laps ->
  match Stats.min_or_null laps with
  | None => laps = []
  | Some m => In m laps /\ Forall (fun y => PrimFloat.leb m y = true) laps
  end.
Proof.
  intros Hl. destruct laps as [ | a laps ]; [ reflexivity | ].
  unfold Stats.min_or_null. apply Math_min_least; [ discriminate | exact Hl ].
Qed.

Variables (tracks : list Track.t) (cars : list Car.t).

(** The trend series in terms of the day keys the code gives the runs:
    it has exactly one point for each key of a kept run; the runs of one
    key share that point, whose [bestLap] is the least valid best lap
    among them, or null when there is none; and the points ascend
    strictly by date when the host reads the keys back as distinct
    dates. *)
Theorem trend_series_one_point_per_day (runs : list Run.t) (filters : Filters.t)
        (agg : Stats.Aggregate) :
  Stats.aggregateRuns runs events tracks cars filters = Ok agg ->
  let kept := Stats.filteredRuns agg in
  let series := Stats.trendSeries agg in
  NoDup (map Stats.x series)
  /\ (forall day,
        In day (map Stats.x series) <->
        exists run, In run kept /\ Stats.dateKey_of events run = Ok (Some day))
  /\ (forall p, In p series ->
        let laps := Stats.valid_laps Run.bestLap
                      (filter (charted_on events (Stats.x p)) kept) in
        (forall q, In q series -> Stats.x q = Stats.x p -> q = p)
        /\ Stats.bestLap p = Stats.min_or_null laps
        /\ match Stats.bestLap p with
           | None => laps = []
           | Some m => In m laps /\ Forall (fun y => PrimFloat.leb m y = true) laps
           end)
  /\ ((forall p, In p series -> Date_new (PStr (Stats.x p)) <> None) ->
      (forall p q, In p series -> In q series ->
                   Date_new (PStr (Stats.x p)) = Date_new (PStr (Stats.x q)) ->
                   Stats.x p = Stats.x q) ->
      StronglySorted day_before series).
Proof.
  intros Hagg kept series.
  apply aggregateRuns_filtered in Hagg as (_ & _ & Hts & _).
  fold kept in Hts. fold series in Hts.
  unfold Stats.buildTrendSeries in Hts.
  destruct (Stats.group_by_date events kept []) as [o | e] eqn:Hgroup;
    simpl in Hts; [ | discriminate ].
  injection Hts as Hseries.
  pose proof (group_by_date_Grouped kept [] [] o Grouped_nil Hgroup)
    as (Hnd & Hrs & Hkeys). simpl in Hrs, Hkeys.
  assert (Hperm : Permutation series (map Stats.trend_point o))
    by (rewrite <- Hseries; apply sort_perm).
  assert (Hx : Permutation (map Stats.x series) (map fst o))
    by (rewrite <- trend_point_x; apply Permutation_map, Hperm).
  assert (Hpoint : forall p, In p series ->
            exists rs, In (Stats.x p, rs) o /\ p = Stats.trend_point (Stats.x p, rs)).
  { intros p Hp. apply (Permutation_in _ Hperm) in Hp.
    apply in_map_iff in Hp as ([k rs] & <- & Hin). exists rs. auto. }
  assert (Hnd' : NoDup (map Stats.x series))
    by (apply (Permutation_NoDup (Permutation_sym Hx)), Hnd).
  split; [ exact Hnd' | split; [ | split ] ].
  - intros day. split.
    + intros Hday. apply (Permutation_in _ Hx) in Hday.
      apply in_map_iff in Hday as ([k rs] & <- & Hin). simpl.
      destruct (Hrs _ _ Hin) as [Heq Hne].
      destruct rs as [ | run rs ]; [ congruence | ].
      assert (Hrun : In run (filter (charted_on events k) kept))
        by (rewrite <- Heq; left; reflexivity).
      apply filter_In in Hrun as [Hrun Hon]. exists run. split; [ exact Hrun | ].
      unfold charted_on in Hon.
      destruct (Stats.dateKey_of events run) as [[k1 | ] | ]; try discriminate.
      apply String.eqb_eq in Hon. congruence.
    + intros (run & Hrun & Hday).
      apply (Permutation_in _ (Permutation_sym Hx)). apply (Hkeys run day Hrun Hday).
  - intros p Hp laps.
    destruct (Hpoint p Hp) as (rs & Hin & Hdef).
    destruct (Hrs _ _ Hin) as [Heq _].
    assert (Hbest : Stats.bestLap p = Stats.min_or_null laps).
    { rewrite Hdef at 1. simpl. unfold laps. rewrite <- Heq. reflexivity. }
    split; [ | split; [ exact Hbest | ] ].
    + intros q Hq Hsame.
      destruct (Hpoint q Hq) as (rs' & Hin' & Hdef').
      destruct (Hrs _ _ Hin') as [Heq' _].
      rewrite Hdef, Hdef'. rewrite Hsame. f_equal. f_equal.
      rewrite Heq, Heq', Hsame. reflexivity.
    + rewrite Hbest. apply min_or_null_least, valid_laps_not_nan.
  - intros Hvalid Hinj.
    assert (Hcmp : forall a b, In a series -> In b series ->
              Stats.by_date a b = Some (point_time a - point_time b)%Z).
    { intros a b Ha Hb. unfold Stats.by_date, point_time.
      pose proof (Hvalid a Ha). pose proof (Hvalid b Hb).
      destruct (Date_new (PStr (Stats.x a))), (Date_new (PStr (Stats.x b)));
        simpl; congruence. }
    assert (Hsorted : StronglySorted
              (fun u v => (point_time u < point_time v)%Z) series).
    { apply ordered_nodup_strict.
      - apply (NoDup_map_through Stats.x point_time); [ | exact Hnd' ].
        intros a b Ha Hb Ht. apply Hinj; try assumption.
        unfold point_time in Ht.
        pose proof (Hvalid a Ha). pose proof (Hvalid b Hb).
        destruct (Date_new (PStr (Stats.x a))), (Date_new (PStr (Stats.x b)));
          congruence.
      - rewrite <- Hseries. apply sort_ordered.
        intros a b Ha Hb. apply Hcmp; rewrite <- Hseries; apply sort_In; assumption. }
    eapply StronglySorted_weaken; [ | exact Hsorted ].
    intros a b Ha Hb Hlt. unfold day_before, point_time in *.
    pose proof (Hvalid a Ha). pose proof (Hvalid b Hb).
    destruct (Date_new (PStr (Stats.x a))), (Date_new (PStr (Stats.x b)));
      try congruence.
    simpl. apply Z.ltb_lt, Hlt.
Qed.

End TrendSeries.

(** ** White space and [trim] *)

Section WhiteSpace.
Local Open Scope string_scope.




















End WhiteSpace.

(** ** Structural diff *)

Section DiffFacts.
Import Diff.





(** Every row of the walk compares the two values found under one
    key sequence. *)
Lemma visit_rows (fuel : nat) (ignorePaths : list string) :
  forall (valA valB : JsVal) (prefix : string) (r : Row),
    In r (visit fuel ignorePaths valA valB prefix) ->
    exists keys leafA leafB,
      walk valA keys = VPrim leafA /\ walk valB keys = VPrim leafB
      /\ path r = path_of prefix keys
      /\ r = leaf_row leafA leafB (path r).
Proof.
  induction fuel as [ | fuel IH ]; intros valA valB prefix r; simpl;
    [ contradiction | ].
  assert (Hdescend :
    In r (flat_map
            (fun key =>
               let path := child_path prefix key in
               if existsb (String.eqb path) ignorePaths then []
               else visit fuel ignorePaths (get valA key) (get valB key) path)
            (union_keys valA valB)) ->
    exists keys leafA leafB,
      walk valA keys = VPrim leafA /\ walk valB keys = VPrim leafB
      /\ path r = path_of prefix keys
      /\ r = leaf_row leafA leafB (path r)).
  { intros Hin. apply in_flat_map in Hin as (key & _ & Hin).
    cbv zeta in Hin.
    destruct (existsb _ ignorePaths); [ contradiction | ].
    apply IH in Hin as (keys & leafA & leafB & Ha & Hb & Hp & Hr).
    exists (key :: keys), leafA, leafB. auto. }
  destruct valA as [a | fa], valB as [b | fb]; try exact Hdescend.
  intros [<- | []]. exists [], a, b. simpl. auto.
Qed.


End DiffFacts.

(** The fuel [diffObjects] gives the walk is enough: more changes
    nothing. *)
Section DiffFuel.
Import Diff.

Lemma depth_lookup (k : string) (fs : list (string * JsVal)) :
  depth (lookup k fs) < depth (VObj fs).
Proof.
  induction fs as [ | [k' v] fs IH ]; simpl in *; [ lia | ].
  destruct (String.eqb k k'); lia.
Qed.

Lemma visit_fuel (ignorePaths : list string) (n : nat) :
  forall (m : nat) (valA valB : JsVal) (prefix : string),
    depth valA < n -> depth valB < n -> depth valA < m -> depth valB < m ->
    visit n ignorePaths valA valB prefix = visit m ignorePaths valA valB prefix.
Proof.
  induction n as [ | n IH ]; intros m valA valB prefix Ha Hb Ha' Hb'; [ lia | ].
  destruct m as [ | m ]; [ lia | ].
  destruct valA as [a | fa], valB as [b | fb]; [ reflexivity | | | ];
    simpl; apply flat_map_ext; intros key;
    destruct (existsb _ ignorePaths); try reflexivity;
    apply IH;
    try (pose proof (depth_lookup key fa));
    try (pose proof (depth_lookup key fb));
    simpl depth in *; lia.
Qed.
Lemma diffObjects_fuel (a b : JsVal) (ignorePaths : list string) (n : nat) :
  depth (orV a (VObj [])) < n -> depth (orV b (VObj [])) < n ->
  diffObjects a b ignorePaths
  = filter (fun r => negb (String.eqb (path r) ""))
           (visit n ignorePaths (orV a (VObj [])) (orV b (VObj [])) "").
Proof.
  intros Ha Hb. unfold diffObjects. f_equal. apply visit_fuel; lia.
Qed.
End DiffFuel.

(** ** Setup normalizer *)

Section NormalizerFacts.
Import Db.

Lemma orV_stable (v : JsVal) : stable (orV v (str "")).
Proof.
  unfold stable, orV. destruct (truthy v) eqn:Hv; [ rewrite Hv | ]; reflexivity.
Qed.

Lemma truthy_stable (v : JsVal) : truthy v = true -> stable v.
Proof. unfold stable, orV. intros ->. reflexivity. Qed.

Lemma defaulted_fields (group : JsVal) (keys : list string) :
  exists fs, defaulted group keys = VObj fs /\ fields_of keys fs.
Proof.
  unfold defaulted. eexists. split; [ reflexivity | ]. split.
  - rewrite map_map. simpl. apply map_id.
  - apply Forall_map, Forall_forall. intros k _. apply orV_stable.
Qed.

Lemma assign_fields (keys : list string) (fs : list (string * JsVal))
      (k : string) (v : JsVal) :
  In k keys -> stable v -> fields_of keys fs -> fields_of keys (assign k v fs).
Proof.
  intros Hk Hv [Hkeys Hst]. subst keys.
  induction fs as [ | [k' v'] fs IH ]; [ contradiction | ].
  simpl. inversion Hst as [ | ? ? Hv' Hst' ]; subst.
  destruct (String.eqb_spec k k') as [-> | Hne].
  - split; [ reflexivity | ]. constructor; assumption.
  - destruct Hk as [Hk | Hk]; [ simpl in Hk; congruence | ].
    destruct (IH Hk Hst') as [Hkeys' Hst''].
    split; [ simpl; rewrite Hkeys'; reflexivity | ].
    constructor; assumption.
Qed.

(** Re-reading every field of such a list with [|| ''] gives it back. *)
Lemma defaulted_fixed (keys : list string) (fs : list (string * JsVal)) :
  NoDup keys -> fields_of keys fs -> defaulted (VObj fs) keys = VObj fs.
Proof.
  intros Hnd [Hkeys Hst]. unfold defaulted. f_equal. subst keys. simpl.
  induction fs as [ | [k v] fs IH ]; [ reflexivity | ].
  simpl in *. apply NoDup_cons_iff in Hnd as [Hfresh Hnd].
  inversion Hst as [ | ? ? Hv Hst' ]; subst.
  rewrite String.eqb_refl. simpl in Hv. rewrite Hv. f_equal.
  rewrite <- (IH Hnd Hst') at 2.
  apply map_ext_in. intros k' Hk'.
  destruct (String.eqb_spec k' k) as [-> | ]; [ contradiction | reflexivity ].
Qed.
Lemma chassis_keys_NoDup : NoDup chassis_keys.
Proof. unfold chassis_keys. distinct_keys. Qed.
Lemma suspension_keys_NoDup : NoDup suspension_keys.
Proof. unfold suspension_keys. distinct_keys. Qed.
Lemma drivetrain_keys_NoDup : NoDup drivetrain_keys.
Proof. unfold drivetrain_keys. distinct_keys. Qed.
Lemma tires_keys_NoDup : NoDup tires_keys.
Proof. unfold tires_keys. distinct_keys. Qed.
Lemma electronics_keys_NoDup : NoDup electronics_keys.
Proof. unfold electronics_keys. distinct_keys. Qed.
Lemma general_keys_NoDup : NoDup general_keys.
Proof. unfold general_keys. distinct_keys. Qed.

Lemma map_legacy_canonical (data : JsVal) (legacy group key : string)
      (norm : JsVal) :
  legacy_slot group key -> canonical norm ->
  canonical (map_legacy data legacy group key norm).
Proof.
  intros Hslot Hnorm. unfold map_legacy.
  destruct (truthy (get data legacy)) eqn:Hlegacy; simpl; [ | exact Hnorm ].
  destruct (negb (truthy (get (get norm group) key))); [ | exact Hnorm ].
  apply truthy_stable in Hlegacy.
  destruct Hnorm as (c & s & d & t & e & g & -> & Hc & Hs & Hd & Ht & He & Hg).
  destruct Hslot as [[-> ->] | [[-> ->] | [-> ->]]]; unfold assign_in; simpl.
  - exists (assign "rideHeightF" (get data legacy) c), s, d, t, e, g.
    repeat match goal with |- _ /\ _ => split end;
      try assumption; try reflexivity.
    apply assign_fields; [ simpl; auto | assumption | assumption ].
  - exists c, (assign "springsF" (get data legacy) s), d, t, e, g.
    repeat match goal with |- _ /\ _ => split end;
      try assumption; try reflexivity.
    apply assign_fields; [ simpl; auto | assumption | assumption ].
  - exists c, (assign "shockOilF" (get data legacy) s), d, t, e, g.
    repeat match goal with |- _ /\ _ => split end;
      try assumption; try reflexivity.
    apply assign_fields; [ simpl; auto 10 | assumption | assumption ].
Qed.

Lemma defaulted_groups_canonical (grp : string -> JsVal) :
  canonical
    (VObj [("chassis", defaulted (grp "chassis") chassis_keys);
           ("suspension", defaulted (grp "suspension") suspension_keys);
           ("drivetrain", defaulted (grp "drivetrain") drivetrain_keys);
           ("tires", defaulted (grp "tires") tires_keys);
           ("electronics", defaulted (grp "electronics") electronics_keys);
           ("general", defaulted (grp "general") general_keys)]).
Proof.
  destruct (defaulted_fields (grp "chassis") chassis_keys) as (c & -> & Hc).
  destruct (defaulted_fields (grp "suspension") suspension_keys) as (s & -> & Hs).
  destruct (defaulted_fields (grp "drivetrain") drivetrain_keys) as (d & -> & Hd).
  destruct (defaulted_fields (grp "tires") tires_keys) as (t & -> & Ht).
  destruct (defaulted_fields (grp "electronics") electronics_keys)
    as (e & -> & He).
  destruct (defaulted_fields (grp "general") general_keys) as (g & -> & Hg).
  exists c, s, d, t, e, g.
  repeat match goal with |- _ /\ _ => split end; try assumption; reflexivity.
Qed.

Lemma normalizeSetupData_canonical (setup : Setup.t) :
  canonical (normalizeSetupData setup).
Proof.
  unfold normalizeSetupData.
  set (data := orV (Setup.setupData setup) (VObj [])).
  pose proof (defaulted_groups_canonical
                (fun g => orV (get data g) (VObj []))) as Hnorm.
  cbv beta in Hnorm.
  destruct (PrimFloat.ltb (schema_of setup) 2); [ | exact Hnorm ].
  repeat apply map_legacy_canonical; try exact Hnorm; unfold legacy_slot; auto.
Qed.

Lemma normalizeSetupData_fixed (norm : JsVal) (id carId : Prim)
      (version : option float) :
  canonical norm ->
  normalizeSetupData (Setup.mk id carId version norm) = norm.
Proof.
  intros (c & s & d & t & e & g & -> & Hc & Hs & Hd & Ht & He & Hg).
  unfold normalizeSetupData. cbn -[defaulted PrimFloat.ltb schema_of].
  rewrite (defaulted_fixed _ _ chassis_keys_NoDup Hc),
    (defaulted_fixed _ _ suspension_keys_NoDup Hs),
    (defaulted_fixed _ _ drivetrain_keys_NoDup Hd),
    (defaulted_fixed _ _ tires_keys_NoDup Ht),
    (defaulted_fixed _ _ electronics_keys_NoDup He),
    (defaulted_fixed _ _ general_keys_NoDup Hg).
  destruct (PrimFloat.ltb _ 2); reflexivity.
Qed.

(** C4. Normalizing a setup whose [setupData] is already the output
    of [normalizeSetupData] returns that output unchanged, whatever
    schema version the setup carries. *)
Theorem normalizeSetupData_idempotent (x : Setup.t) (id carId : Prim)
        (version : option float) :
  normalizeSetupData (Setup.mk id carId version (normalizeSetupData x))
  = normalizeSetupData x.
Proof. apply normalizeSetupData_fixed, normalizeSetupData_canonical. Qed.

Lemma lookup_assign (k' k : string) (v : JsVal) (fs : list (string * JsVal)) :
  lookup k' (assign k v fs) = if String.eqb k' k then v else lookup k' fs.
Proof.
  induction fs as [ | [k0 v0] fs IH ]; simpl.
  - destruct (String.eqb k' k); reflexivity.
  - destruct (String.eqb_spec k k0) as [-> | Hne]; simpl.
    + destruct (String.eqb k' k0); reflexivity.
    + rewrite IH. destruct (String.eqb_spec k' k0) as [-> | ];
        [ | reflexivity ].
      destruct (String.eqb_spec k0 k); [ congruence | reflexivity ].
Qed.

Lemma get_assign_in (group key : string) (v : JsVal)
      (groups fs : list (string * JsVal)) (group' : string) :
  lookup group groups = VObj fs ->
  get (assign_in group key v (VObj groups)) group'
  = if String.eqb group' group then VObj (assign key v fs)
    else get (VObj groups) group'.
Proof.
  intros Hfs. unfold assign_in. rewrite Hfs. simpl. apply lookup_assign.
Qed.

(** What a read of the record sees after one legacy step. *)
Lemma get_map_legacy (data : JsVal) (legacy group key : string) (norm : JsVal)
      (group' key' : string) :
  canonical norm -> legacy_slot group key ->
  get (get (map_legacy data legacy group key norm) group') key'
  = if (String.eqb group' group && String.eqb key' key)
       && (truthy (get data legacy) && negb (truthy (get (get norm group) key)))
    then get data legacy
    else get (get norm group') key'.
Proof.
  intros (c & s & d & t & e & g & -> & _) Hslot. unfold map_legacy.
  destruct (truthy (get data legacy) && negb _);
    [ | rewrite andb_false_r; reflexivity ].
  rewrite andb_true_r.
  destruct Hslot as [[-> ->] | [[-> ->] | [-> ->]]].
  - rewrite (get_assign_in _ _ _ _ c) by reflexivity.
    destruct (String.eqb_spec group' "chassis") as [-> | ]; simpl andb;
      [ | reflexivity ].
    simpl get. apply lookup_assign.
  - rewrite (get_assign_in _ _ _ _ s) by reflexivity.
    destruct (String.eqb_spec group' "suspension") as [-> | ]; simpl andb;
      [ | reflexivity ].
    simpl get. apply lookup_assign.
  - rewrite (get_assign_in _ _ _ _ s) by reflexivity.
    destruct (String.eqb_spec group' "suspension") as [-> | ]; simpl andb;
      [ | reflexivity ].
    simpl get. apply lookup_assign.
Qed.

Lemma truthy_orV_empty (v : JsVal) : truthy (orV v (str "")) = truthy v.
Proof. unfold orV. destruct (truthy v) eqn:Hv; [ exact Hv | reflexivity ]. Qed.

Lemma legacy_schema_lt (setup : Setup.t) :
  legacy_schema setup -> PrimFloat.ltb (schema_of setup) 2 = true.
Proof.
  unfold legacy_schema, schema_of.
  destruct (Setup.setupSchemaVersion setup) as [v | ]; [ | reflexivity ].
  intros Hv. destruct (PrimFloat.eqb v 0 || isNaN v); [ reflexivity | exact Hv ].
Qed.

(** C5. For a setup of schema below 2 (or without a version), each of
    the front slots fed by a legacy field holds the canonical value
    when there is one, the legacy value when the slot is empty and the
    legacy field is filled, and the empty string otherwise; so a
    legacy ["20mm"] fills an empty [rideHeightF] and leaves ["22mm"]
    in place. *)
Theorem legacy_fields_fill_empty_slots (setup : Setup.t) :
  legacy_schema setup ->
  let data := orV (Setup.setupData setup) (VObj []) in
  (forall legacy group key,
      legacy_mapping legacy group key ->
      let slot := get (orV (get data group) (VObj [])) key in
      get (get (normalizeSetupData setup) group) key
      = if truthy slot then slot
        else if truthy (get data legacy) then get data legacy
             else str "")
  /\ (get data "rideHeight" = str "20mm" ->
      get (orV (get data "chassis") (VObj [])) "rideHeightF" = undefined ->
      get (get (normalizeSetupData setup) "chassis") "rideHeightF" = str "20mm")
  /\ (get data "rideHeight" = str "20mm" ->
      get (orV (get data "chassis") (VObj [])) "rideHeightF" = str "22mm" ->
      get (get (normalizeSetupData setup) "chassis") "rideHeightF" = str "22mm").
Proof.
  intros Hschema data.
  assert (Hmain : forall legacy group key,
    legacy_mapping legacy group key ->
    get (get (normalizeSetupData setup) group) key
    = if truthy (get (orV (get data group) (VObj [])) key)
      then get (orV (get data group) (VObj [])) key
      else if truthy (get data legacy) then get data legacy else str "").
  { intros legacy group key Hmap.
    unfold normalizeSetupData. fold data.
    rewrite (legacy_schema_lt setup Hschema).
    set (norm := VObj _).
    assert (Hnorm : canonical norm)
      by apply (defaulted_groups_canonical (fun g => orV (get data g) (VObj []))).
    assert (Hn1 : canonical (map_legacy data "rideHeight" "chassis" "rideHeightF" norm))
      by (apply map_legacy_canonical; unfold legacy_slot; auto).
    assert (Hn2 : canonical (map_legacy data "springs" "suspension" "springsF"
                     (map_legacy data "rideHeight" "chassis" "rideHeightF" norm)))
      by (apply map_legacy_canonical; unfold legacy_slot; auto).
    rewrite !get_map_legacy by (unfold legacy_slot; auto).
    destruct Hmap as [(-> & -> & ->) | [(-> & -> & ->) | (-> & -> & ->)]];
      cbn [String.eqb Ascii.eqb Bool.eqb andb];
      change (get (get norm ?g) ?k)
        with (orV (get (orV (get data g) (VObj [])) k) (str ""));
      rewrite truthy_orV_empty;
      match goal with
      | |- context [orV ?v (str "")] => generalize v; intros slot
      end;
      unfold orV; destruct (truthy slot); destruct (truthy (get data _));
      reflexivity. }
  split; [ exact Hmain | split ].
  - intros Hlegacy Hslot.
    rewrite (Hmain "rideHeight" "chassis" "rideHeightF") by (left; auto).
    rewrite Hslot, Hlegacy. reflexivity.
  - intros Hlegacy Hslot.
    rewrite (Hmain "rideHeight" "chassis" "rideHeightF") by (left; auto).
    rewrite Hslot. reflexivity.
Qed.

End NormalizerFacts.

(** ** Setup-change correlator *)

Section Correlator.
Import Diff.

(** The diff engine never emits the change type the correlator tests
    for, so the correlator's filter keeps every row. *)
Lemma changeType_never_none (a b : JsVal) (ignorePaths : list string) (r : Row) :
  In r (diffObjects a b ignorePaths) -> String.eqb (changeType r) "none" = false.
Proof.
  intros Hin. unfold diffObjects in Hin. apply filter_In in Hin as [Hin _].
  apply visit_rows in Hin as (keys & leafA & leafB & _ & _ & _ & ->).
  simpl. unfold classify.
  repeat match goal with |- context [if ?c then _ else _] => destruct c end;
    reflexivity.
Qed.

Lemma filter_all {A : Type} (f : A -> bool) (l : list A) :
  (forall a, In a l -> f a = true) -> filter f l = l.
Proof.
  induction l as [ | a l IH ]; simpl; intros Hall; [ reflexivity | ].
  rewrite (Hall a (or_introl eq_refl)). f_equal. apply IH. auto.
Qed.

(** The change count of every comparison is the number of rows of the
    diff, changed or not. *)
Lemma changeCount_is_row_count {H : Host} (ctx : App.AnalyticsContext)
      (previousRun currentRun : Run.t) (c : App.Comparison) :
  In c (App.compare_pair ctx previousRun currentRun) ->
  exists previousSetup currentSetup,
    App.Map_get (App.setupsById ctx) (Run.setupId previousRun) = Some previousSetup
    /\ App.Map_get (App.setupsById ctx) (Run.setupId currentRun) = Some currentSetup
    /\ App.changeCount c
       = List.length (diffObjects (Db.normalizeSetupData previousSetup)
                                  (Db.normalizeSetupData currentSetup) []).
Proof.
  unfold App.compare_pair.
  destruct (strict_eq _ _); [ contradiction | ].
  destruct (App.Map_get _ (Run.setupId currentRun)) as [currentSetup | ];
    [ | contradiction ].
  destruct (App.Map_get _ (Run.setupId previousRun)) as [previousSetup | ];
    [ | contradiction ].
  intros [<- | []]. exists previousSetup, currentSetup. simpl.
  repeat split. f_equal. apply filter_all.
  intros r Hr. rewrite (changeType_never_none _ _ _ r Hr). reflexivity.
Qed.

(** C1. On two runs of one car and track whose setups differ in
    [springsF] ("4.4" then "4.6") and in one added field, with best
    laps 15.5 then 15.1, the diff has 36 rows of which 2 are changes;
    the correlator emits one comparison whose note reads "Improved"
    and whose delta is 15.1 - 15.5, within 1e-9 of -0.4, but whose
    change count is 36, the number of all rows, not 2. *)
Theorem correlator_counts_unchanged_rows :
  let diff := diffObjects (Db.normalizeSetupData Sample.setupA)
                          (Db.normalizeSetupData Sample.setupB) [] in
  let result := App.analyzeSetupChanges (H := Sample.host)
                  Sample.enriched Sample.context in
  map (fun r => (path r, changeType r)) (filter changed diff)
  = [("suspension.springsF", "modified"); ("suspension.camberF", "added")]
  /\ List.length diff = 36
  /\ map App.changeCount (App.comparisons result) = [36]
  /\ map App.bestLapDelta (App.comparisons result) = [(15.1 - 15.5)%float]
  /\ PrimFloat.ltb (PrimFloat.abs (15.1 - 15.5 + 0.4)) 1e-9 = true
  /\ map App.notes (App.comparisons result) = ["Improved by 0.400s"]
  /\ includes "Improved" "Improved by 0.400s" = true.
Proof. vm_compute. repeat split. Qed.

End Correlator.

(** ** The properties on the sample records *)

Lemma aggregateRuns_nothing_kept_witness :
  let empty := {| Stats.filteredRuns := [];
                  Stats.kpis := Stats.mkKPIs None None 0 0;
                  Stats.trendSeries := [];
                  Stats.byTrack := [] |} in
  Stats.aggregateRuns (H := Sample.host) [] Sample.events Sample.tracks
                      Sample.cars Filters.none = Ok empty
  /\ Stats.aggregateRuns (H := Sample.host) Sample.runs Sample.events Sample.tracks
                         Sample.cars Sample.other_car = Ok empty.
Proof.
  split; apply aggregateRuns_nothing_kept; reflexivity.
Defined.

Lemma trackId_filter_needs_event_witness :
  Stats.keep_run (H := Sample.host) Sample.events Sample.on_track_t1 Sample.r_orphan
  = false.
Proof.
  apply (proj1 (trackId_filter_needs_event (H := Sample.host)
                  Sample.events Sample.tracks Sample.cars Sample.runs
                  Sample.on_track_t1 Sample.r_orphan eq_refl)).
  reflexivity.
Defined.

Lemma missing_createdAt_fails_date_filter_witness :
  Stats.keep_run (H := Sample.host) Sample.events Sample.since_march Sample.r_undated
  = false
  /\ Stats.aggregateRuns (H := Sample.host) Sample.runs Sample.events Sample.tracks
                         Sample.cars Sample.since_march
     = Stats.aggregateRuns (H := Sample.host)
                           [Sample.r2; Sample.r1; Sample.r3; Sample.r_orphan]
                           Sample.events Sample.tracks Sample.cars Sample.since_march.
Proof.
  destruct (missing_createdAt_fails_date_filter (H := Sample.host)
              Sample.events Sample.tracks Sample.cars
              Sample.since_march Sample.r_undated)
    as (_ & Hkeep & _ & Hsame).
  - right. left. reflexivity.
  - reflexivity.
  - split; [ exact Hkeep | ].
    apply (Hsame [Sample.r2; Sample.r1; Sample.r3; Sample.r_orphan] []).
Defined.

Lemma avgLapMean_mean_with_fallback_witness :
  match Stats.aggregateRuns (H := Sample.host) Sample.fallback_runs Sample.events
                            Sample.tracks Sample.cars Filters.none with
  | Ok agg => Stats.avgLapMean (Stats.kpis agg) = Some 11%float
  | Throw _ => False
  end.
Proof.
  destruct (Stats.aggregateRuns Sample.fallback_runs Sample.events Sample.tracks
                                Sample.cars Filters.none) as [agg | e] eqn:Hagg.
  - apply (avgLapMean_mean_with_fallback _ _ _ _ _ _ Hagg); reflexivity.
  - vm_compute in Hagg. discriminate.
Defined.

Lemma trend_series_one_point_per_day_witness :
  match Stats.aggregateRuns (H := Sample.host) Sample.runs Sample.events
                            Sample.tracks Sample.cars Filters.none with
  | Ok agg =>
      NoDup (map Stats.x (Stats.trendSeries agg))
      /\ StronglySorted (day_before (H := Sample.host)) (Stats.trendSeries agg)
  | Throw _ => False
  end.
Proof.
  destruct (Stats.aggregateRuns Sample.runs Sample.events Sample.tracks
                                Sample.cars Filters.none) as [agg | e] eqn:Hagg.
  - destruct (trend_series_one_point_per_day _ _ _ _ _ _ Hagg)
      as (Hnd & _ & _ & Hsorted).
    split; [ exact Hnd | ].
    vm_compute in Hagg. injection Hagg as <-.
    apply Hsorted.
    + intros p [<- | [<- | [<- | []]]]; vm_compute; discriminate.
    + intros p q [<- | [<- | [<- | []]]] [<- | [<- | [<- | []]]];
        vm_compute; intros Heq; try reflexivity; discriminate.
  - vm_compute in Hagg. discriminate.
Defined.

(** The two ways a date the host cannot read shows: an event date gives
    the day key "null", which has no place in the order, and a creation
    time makes the trend series, and with it the aggregation, throw. *)
Remark unreadable_dates :
  Stats.dateKey_of (H := Sample.host) [Sample.undated_event] Sample.r_tbd
  = Ok (Some "null")
  /\ Date_new (Host := Sample.host) (PStr "null") = None
  /\ Stats.aggregateRuns (H := Sample.host) [Sample.r_unreadable] Sample.events
                         Sample.tracks Sample.cars Filters.none
     = Throw RangeError.
Proof. vm_compute. auto. Qed.

(** C6. The trend series does not always have one point for each
    calendar day, in ascending order of date.  A run whose event
    carries a date that cannot be read is charted at the key "null",
    which is no date, and among three runs that point stands between
    8 March and 1 March.  On a host five hours behind UTC, a run of an
    event dated 8 March 2024 and a run logged without event at ten in
    the evening of 8 March, local time, fall on the same calendar day
    but get two points, keyed 8 March and 9 March, instead of one point
    with the best lap 13. *)
Theorem trend_series_misses_calendar_days :
  (* an event date that cannot be read *)
  (agg <- Stats.aggregateRuns (H := UtcHost.host) [Sample.r_tbd]
            [Sample.undated_event] Sample.tracks Sample.cars Filters.none ;;
   Ok (Stats.trendSeries agg))
  = Ok [Stats.mkPoint "null" (Some 15.2%float) (Some 15.8%float)]
  /\ Date_new (Host := UtcHost.host) (PStr "null") = None
  /\ (agg <- Stats.aggregateRuns (H := UtcHost.host)
               [Sample.r2; Sample.r_tbd; Sample.r1]
               (Sample.undated_event :: Sample.events)
               Sample.tracks Sample.cars Filters.none ;;
      Ok (map Stats.x (Stats.trendSeries agg)))
     = Ok ["2024-03-08"; "null"; "2024-03-01"]
  (* a creation time late in the evening, west of Greenwich *)
  /\ option_map (fun t => (getFullYear (Host := ZoneHost.eastern) t,
                           (getMonth (Host := ZoneHost.eastern) t + 1)%Z,
                           getDate (Host := ZoneHost.eastern) t))
                (Date_new (Host := ZoneHost.eastern)
                          (Run.createdAt ZoneHost.r_evening))
     = Some (2024, 3, 8)%Z
  /\ (agg <- Stats.aggregateRuns (H := ZoneHost.eastern)
               [Sample.r2; ZoneHost.r_evening] Sample.events
               Sample.tracks Sample.cars Filters.none ;;
      Ok (Stats.trendSeries agg))
     = Ok [Stats.mkPoint "2024-03-08" (Some 15.1%float) (Some 15.9%float);
           Stats.mkPoint "2024-03-09" (Some 13%float) (Some 13.5%float)].
Proof. vm_compute. repeat split. Qed.


Lemma legacy_fields_fill_empty_slots_witness :
  get (get (Db.normalizeSetupData Sample.legacy_setup) "chassis") "rideHeightF"
  = str "20mm"
  /\ get (get (Db.normalizeSetupData Sample.legacy_setup_filled) "chassis")
         "rideHeightF"
     = str "22mm".
Proof.
  split.
  - apply (proj1 (proj2 (legacy_fields_fill_empty_slots Sample.legacy_setup eq_refl)));
      reflexivity.
  - apply (proj2 (proj2 (legacy_fields_fill_empty_slots Sample.legacy_setup_filled I)));
      reflexivity.
Defined.

Lemma parseLap_contract_witness :
  Stats.parseLap (PStr "abc") = None
  /\ Stats.parseLap (PStr "0") = None
  /\ Stats.parseLap (PNum (-3)%float) = None
  /\ Stats.parseLap (PStr " 12.5s") = Some 12.5%float.
Proof.
  destruct parseLap_contract as (_ & Htext & _ & Hzero & Hvalue & _).
  split; [ | split; [ | split ] ].
  - apply Htext. reflexivity.
  - apply (Hzero (PStr "0") 0%float); reflexivity.
  - apply (Hzero (PNum (-3)%float) (-3)%float); reflexivity.
  - apply (Hvalue (PStr " 12.5s") 12.5%float); reflexivity.
Defined.

(** * Further properties of the analytics aggregation *)

Section Filtering.
Context {H : Host}.
Variable events : list Event.t.

(** X1. The four filter criteria combine by conjunction: a run is kept
    exactly when it passes each criterion taken alone, and with no
    criterion set every run is kept. *)
Theorem filters_combine_by_and (f : Filters.t) (run : Run.t) :
  Stats.keep_run events f run
  = Stats.keep_run events (only_car f) run
    && Stats.keep_run events (only_track f) run
    && Stats.keep_run events (only_dates f) run
    && Stats.keep_run events (only_session f) run
  /\ Stats.keep_run events Filters.none run = true.
Proof.
  split; [ | reflexivity ].
  unfold Stats.keep_run, only_car, only_track, only_dates, only_session. simpl.
  repeat match goal with
         | |- context [if ?c then false else _] => destruct c; simpl
         end; reflexivity.
Qed.

(** X2. A run whose creation time is given but unreadable passes every
    date range: both comparisons with an Invalid Date are false. *)
Theorem unreadable_createdAt_passes_date_filter (f : Filters.t) (run : Run.t) :
  truthyP (Run.createdAt run) = true ->
  Date_new (Run.createdAt run) = None ->
  Stats.keep_run events (only_dates f) run = true.
Proof.
  intros Hgiven Hbad.
  unfold Stats.keep_run, only_dates, Stats.withinDateRange. simpl.
  rewrite Hgiven, Hbad. simpl.
  rewrite andb_false_r.
  destruct (option_map setHours_dayEnd (Date_new (Filters.dateTo f)));
    simpl; rewrite andb_false_r; simpl;
    destruct (truthyP (Filters.dateFrom f) || truthyP (Filters.dateTo f));
    reflexivity.
Qed.

(** X3. A range bound the host cannot read restricts nothing: the test
    gives what it gives without that bound. *)
Theorem unreadable_bound_is_no_bound (dateStr startStr endStr : Prim) :
  Stats.withinDateRange dateStr startStr endStr
  = Stats.withinDateRange dateStr (readable_bound startStr)
                          (readable_bound endStr).
Proof.
  unfold Stats.withinDateRange, readable_bound.
  destruct (truthyP dateStr); simpl; [ | reflexivity ].
  destruct (Date_new startStr) as [ts | ] eqn:Hs,
           (Date_new endStr) as [te | ] eqn:He; simpl;
    rewrite ?Hs, ?He; simpl;
    repeat rewrite andb_false_r; simpl;
    destruct (Date_new dateStr); simpl; repeat rewrite andb_false_r; reflexivity.
Qed.

End Filtering.

Lemma unreadable_createdAt_passes_date_filter_witness :
  Stats.keep_run (H := Sample.host) Sample.events
                 (only_dates Sample.since_march) Sample.r_unreadable = true.
Proof.
  apply (unreadable_createdAt_passes_date_filter (H := Sample.host));
    reflexivity.
Defined.

Section Failure.
Context {H : Host}.
Variables (events : list Event.t) (tracks : list Track.t) (cars : list Car.t).

Lemma dateKey_of_throws (run : Run.t) :
  match Stats.dateKey_of events run with
  | Ok _ => undatable events run = false
  | Throw e => e = RangeError /\ undatable events run = true
  end.
Proof.
  unfold Stats.dateKey_of, undatable.
  destruct (Stats.dated_event events run); [ reflexivity | ].
  destruct (truthyP (Run.createdAt run)); [ | reflexivity ].
  destruct (Date_new (Run.createdAt run)); simpl; auto.
Qed.

Lemma group_by_date_throws (runs : list Run.t) :
  forall o,
    match Stats.group_by_date events runs o with
    | Ok _ => existsb (undatable events) runs = false
    | Throw e => e = RangeError /\ existsb (undatable events) runs = true
    end.
Proof.
  induction runs as [ | run runs IH ]; intros o; simpl; [ reflexivity | ].
  pose proof (dateKey_of_throws run) as Hrun.
  destruct (Stats.dateKey_of events run) as [k | e]; simpl.
  - rewrite Hrun. simpl. apply IH.
  - destruct Hrun as [-> ->]. auto.
Qed.

(** X4. Building the trend series fails exactly when one of the runs
    cannot be dated (no dated event, and a creation time that is given
    but that the host cannot read); the exception is a RangeError, and
    the whole aggregation then fails with it instead of returning. *)
Theorem trend_series_fails_on_undatable_run (runs : list Run.t)
        (filters : Filters.t) :
  let kept := filter (Stats.keep_run events filters) runs in
  match Stats.buildTrendSeries kept events with
  | Ok _ => existsb (undatable events) kept = false
  | Throw e =>
      e = RangeError
      /\ existsb (undatable events) kept = true
      /\ Stats.aggregateRuns runs events tracks cars filters = Throw RangeError
  end.
Proof.
  intros kept. unfold Stats.aggregateRuns. fold kept.
  unfold Stats.buildTrendSeries.
  pose proof (group_by_date_throws kept []) as Hgroup.
  destruct (Stats.group_by_date events kept []) as [o | e]; simpl;
    [ exact Hgroup | ].
  destruct Hgroup as [-> Hsome]. auto.
Qed.

End Failure.

Section Indicators.

Lemma valid_laps_In (f : Run.t -> Prim) (runs : list Run.t) (v : float) :
  In v (Stats.valid_laps f runs)
  <-> exists run, In run runs /\ Stats.parseLap (f run) = Some v.
Proof.
  unfold Stats.valid_laps. rewrite in_flat_map. split.
  - intros (run & Hrun & Hv). exists run. split; [ exact Hrun | ].
    destruct (Stats.parseLap (f run)) as [lap | ]; simpl in Hv;
      [ destruct Hv as [-> | []]; reflexivity | contradiction ].
  - intros (run & Hrun & Hv). exists run. split; [ exact Hrun | ].
    rewrite Hv. left. reflexivity.
Qed.

(** X5. The best-lap indicator is the valid best lap of one of the runs
    and no run has a smaller valid best lap; it is null exactly when no
    run has a valid best lap.  [runCount] counts every run, with or
    without valid laps. *)
Theorem calculateKPIs_best_lap (runs : list Run.t) :
  let k := Stats.calculateKPIs runs in
  Stats.runCount k = List.length runs
  /\ match Stats.bestLapMin k with
     | Some m =>
         (exists run, In run runs /\ Stats.parseLap (Run.bestLap run) = Some m)
         /\ (forall run v, In run runs ->
                           Stats.parseLap (Run.bestLap run) = Some v ->
                           PrimFloat.leb m v = true)
     | None =>
         forall run, In run runs -> Stats.parseLap (Run.bestLap run) = None
     end.
Proof.
  simpl. split; [ reflexivity | ].
  pose proof (min_or_null_least (Stats.valid_laps Run.bestLap runs)
                (valid_laps_not_nan Run.bestLap runs)) as Hmin.
  destruct (Stats.min_or_null (Stats.valid_laps Run.bestLap runs)) as [m | ].
  - destruct Hmin as [Hin Hleast]. split.
    + apply valid_laps_In, Hin.
    + intros run v Hrun Hv. rewrite Forall_forall in Hleast.
      apply Hleast, valid_laps_In. exists run. auto.
  - intros run Hrun.
    destruct (Stats.parseLap (Run.bestLap run)) as [v | ] eqn:Hv; [ | reflexivity ].
    assert (Hin : In v (Stats.valid_laps Run.bestLap runs))
      by (apply valid_laps_In; exists run; auto).
    rewrite Hmin in Hin. contradiction.
Qed.

Lemma strict_eq_true (a b : Prim) :
  (forall x, a <> PNum x) -> (strict_eq a b = true <-> a = b).
Proof.
  intros Hnum. destruct a as [ | | x | s ];
    [ | | exfalso; apply (Hnum x); reflexivity | ];
    destruct b as [ | | y | t ]; simpl;
    try (split; [ discriminate | discriminate ]);
    try (split; reflexivity).
  rewrite String.eqb_eq.
  split; [ intros ->; reflexivity | intros [= ->]; reflexivity ].
Qed.

Lemma existsb_same_value_zero (v : Prim) (seen : list Prim) :
  (forall x, v <> PNum x) ->
  existsb (Stats.same_value_zero v) seen = true <-> In v seen.
Proof.
  intros Hnum. rewrite existsb_exists. split.
  - intros (w & Hw & Hsame).
    assert (Heq : strict_eq v w = true)
      by (destruct v; try exact Hsame; exfalso; eapply Hnum; reflexivity).
    apply strict_eq_true in Heq; [ subst; exact Hw | exact Hnum ].
  - intros Hin. exists v. split; [ exact Hin | ].
    assert (Heq : strict_eq v v = true) by (apply strict_eq_true; auto).
    destruct v; try exact Heq. exfalso. eapply Hnum. reflexivity.
Qed.

Lemma distinct_count_distinct (l : list Prim) :
  forall seen,
    NoDup seen ->
    (forall v, In v l -> forall x, v <> PNum x) ->
    exists ids, NoDup ids
                /\ (forall v, In v ids <-> In v seen \/ In v l)
                /\ Stats.distinct_count seen l = List.length ids.
Proof.
  induction l as [ | v l IH ]; intros seen Hnd Hnum; simpl.
  - exists seen. split; [ exact Hnd | ]. split; [ | reflexivity ].
    intros v. tauto.
  - assert (Hv : forall x, v <> PNum x) by (apply Hnum; left; reflexivity).
    assert (Hl : forall w, In w l -> forall x, w <> PNum x)
      by (intros w Hw; apply Hnum; right; exact Hw).
    destruct (existsb (Stats.same_value_zero v) seen) eqn:Hseen.
    + apply existsb_same_value_zero in Hseen; [ | exact Hv ].
      destruct (IH seen Hnd Hl) as (ids & Hids & Hmem & Hcount).
      exists ids. split; [ exact Hids | ]. split; [ | exact Hcount ].
      intros w. rewrite Hmem. split; [ tauto | ].
      intros [Hw | [<- | Hw]]; auto.
    + assert (Hfresh : ~ In v seen).
      { intros Hin. apply existsb_same_value_zero in Hin; [ | exact Hv ].
        congruence. }
      destruct (IH (v :: seen) (NoDup_cons v Hfresh Hnd) Hl)
        as (ids & Hids & Hmem & Hcount).
      exists ids. split; [ exact Hids | ]. split; [ | exact Hcount ].
      intros w. rewrite Hmem. simpl. tauto.
Qed.

(** X6. When the event ids are texts (or missing), [eventCount] is the
    number of distinct non-empty event ids among the runs: runs without
    an event id are not counted, and an id is counted once whether or
    not the events list knows it. *)
Theorem eventCount_counts_distinct_ids (runs : list Run.t) :
  (forall run, In run runs -> forall x, Run.eventId run <> PNum x) ->
  exists ids,
    NoDup ids
    /\ (forall id, In id ids <->
                   truthyP id = true
                   /\ exists run, In run runs /\ Run.eventId run = id)
    /\ Stats.eventCount (Stats.calculateKPIs runs) = List.length ids
    /\ List.length ids <= List.length runs.
Proof.
  intros Hnum. simpl.
  destruct (distinct_count_distinct
              (filter truthyP (map Run.eventId runs)) [] (NoDup_nil _))
    as (ids & Hids & Hmem & Hcount).
  { intros v Hv. apply filter_In in Hv as [Hv _].
    apply in_map_iff in Hv as (run & <- & Hrun). apply Hnum, Hrun. }
  assert (Hincl : incl ids (map Run.eventId runs)).
  { intros v Hv. apply Hmem in Hv as [[] | Hv].
    apply filter_In in Hv as [Hv _]. exact Hv. }
  exists ids. split; [ exact Hids | ]. split; [ | split; [ exact Hcount | ] ].
  - intros id. rewrite Hmem, filter_In, in_map_iff. simpl. split.
    + intros [[] | [(run & <- & Hrun) Htruthy]]. split; [ exact Htruthy | ].
      exists run. auto.
    + intros (Htruthy & run & Hrun & <-). right. split; [ | exact Htruthy ].
      exists run. auto.
  - rewrite <- (length_map Run.eventId runs).
    apply NoDup_incl_length; assumption.
Qed.

End Indicators.

Lemma eventCount_counts_distinct_ids_witness :
  exists ids,
    NoDup ids
    /\ (forall id, In id ids <->
                   truthyP id = true
                   /\ exists run, In run Sample.runs /\ Run.eventId run = id)
    /\ Stats.eventCount (Stats.calculateKPIs Sample.runs) = List.length ids
    /\ List.length ids <= List.length Sample.runs.
Proof.
  apply (eventCount_counts_distinct_ids Sample.runs).
  intros run Hrun x.
  repeat (destruct Hrun as [<- | Hrun]; [ discriminate | ]).
  destruct Hrun.
Defined.

Section Charts.
Context {H : Host}.
Variables (events : list Event.t) (tracks : list Track.t) (cars : list Car.t).

(** X7. The [avgLap] of a trend point is the mean of the valid average
    laps of the runs charted on that day, and null when the day has
    none: unlike the overall indicator, a point takes no fallback from
    the best laps. *)
Theorem trend_point_avgLap (runs : list Run.t) (filters : Filters.t)
        (agg : Stats.Aggregate) :
  Stats.aggregateRuns runs events tracks cars filters = Ok agg ->
  forall p, In p (Stats.trendSeries agg) ->
    let day_runs := filter (charted_on events (Stats.x p)) (Stats.filteredRuns agg) in
    let laps := Stats.valid_laps Run.avgLap day_runs in
    day_runs <> []
    /\ Stats.avgLap p = match laps with
                        | [] => None
                        | _ :: _ => Some (mean laps)
                        end.
Proof.
  intros Hagg p Hp day_runs laps.
  apply aggregateRuns_filtered in Hagg as (_ & _ & Hts & _).
  unfold Stats.buildTrendSeries in Hts.
  destruct (Stats.group_by_date events (Stats.filteredRuns agg) [])
    as [o | e] eqn:Hgroup; simpl in Hts; [ | discriminate ].
  injection Hts as Hseries.
  pose proof (group_by_date_Grouped events _ [] [] o (Grouped_nil events) Hgroup)
    as (_ & Hrs & _). simpl in Hrs.
  rewrite <- Hseries in Hp. apply sort_In in Hp.
  apply in_map_iff in Hp as ([k rs] & <- & Hin).
  destruct (Hrs _ _ Hin) as [Heq Hne]. simpl in *.
  subst laps day_runs. rewrite <- Heq. split; [ exact Hne | ].
  unfold Stats.mean_or_null, mean, sum.
  destruct (Stats.valid_laps Run.avgLap rs); reflexivity.
Qed.

Lemma record_at_keys (k : string) (track : Track.t) (run : Run.t)
      (o : list (string * Stats.TrackData)) :
  map fst (Stats.record_at k track run o)
  = if in_dec string_dec k (map fst o) then map fst o else map fst o ++ [k].
Proof.
  induction o as [ | [k' td] o IH ]; simpl; [ reflexivity | ].
  destruct (String.eqb_spec k k') as [-> | Hne]; simpl.
  - destruct (string_dec k' k'); [ reflexivity | congruence ].
  - rewrite IH. destruct (string_dec k' k); [ congruence | ].
    destruct (in_dec string_dec k (map fst o)); reflexivity.
Qed.

Lemma record_at_entries (k : string) (track : Track.t) (run : Run.t)
      (o : list (string * Stats.TrackData))
      (k' : string) (td' : Stats.TrackData) :
  NoDup (map fst o) ->
  In (k', td') (Stats.record_at k track run o) ->
  (k' <> k /\ In (k', td') o)
  \/ (k' = k
      /\ exists td,
          td' = Stats.record_run run td
          /\ (In (k, td) o
              \/ (td = Stats.mkTrackData (Track.id track) (Track.name track) [] [] 0
                  /\ ~ In k (map fst o)))).
Proof.
  induction o as [ | [k0 td0] o IH ]; simpl; intros Hnd.
  - intros [[= <- <-] | []]. right. split; [ reflexivity | ].
    eexists. split; [ reflexivity | ]. right. auto.
  - apply NoDup_cons_iff in Hnd as [Hfresh Hnd].
    destruct (String.eqb_spec k k0) as [-> | Hne]; simpl.
    + intros [[= <- <-] | Hin].
      * right. split; [ reflexivity | ]. exists td0. auto.
      * left. split; [ | auto ].
        intros ->. apply Hfresh. apply (in_map fst) in Hin. exact Hin.
    + intros [[= <- <-] | Hin].
      * left. split; [ congruence | auto ].
      * destruct (IH Hnd Hin) as [[Hk Hold] | [-> (td & -> & [Hold | [-> Hnew]])]].
        -- left. auto.
        -- right. split; [ reflexivity | ]. exists td. auto.
        -- right. split; [ reflexivity | ]. eexists. split; [ reflexivity | ].
           right. split; [ reflexivity | ]. intros [Heq | Hin']; auto.
Qed.

Lemma track_step_track_of (o : list (string * Stats.TrackData)) (run : Run.t) :
  Stats.track_step events tracks o run
  = match track_of events tracks run with
    | Some track => Stats.record_at (Stats.toStringP (Track.id track)) track run o
    | None => o
    end.
Proof.
  unfold Stats.track_step, track_of.
  destruct (Stats.find_event events (Run.eventId run)) as [event | ];
    [ | reflexivity ].
  destruct (truthyP (Event.trackId event)); reflexivity.
Qed.

Lemma track_of_In (run : Run.t) (track : Track.t) :
  track_of events tracks run = Some track -> In track tracks.
Proof.
  unfold track_of, Stats.find_track.
  destruct (Stats.find_event events (Run.eventId run)) as [event | ];
    [ | discriminate ].
  destruct (truthyP (Event.trackId event)); [ | discriminate ].
  intros Hfind. apply find_some in Hfind. tauto.
Qed.

Lemma valid_laps_snoc (f : Run.t -> Prim) (runs : list Run.t) (run : Run.t) :
  Stats.valid_laps f (runs ++ [run])
  = Stats.push_lap (Stats.parseLap (f run)) (Stats.valid_laps f runs).
Proof.
  unfold Stats.valid_laps. rewrite flat_map_app. simpl.
  destruct (Stats.parseLap (f run)); simpl; rewrite ?app_nil_r; reflexivity.
Qed.

Lemma Tracked_step (done : list Run.t) (o : list (string * Stats.TrackData))
      (run : Run.t) (track : Track.t) :
  track_of events tracks run = Some track ->
  Tracked events tracks done o ->
  Tracked events tracks (done ++ [run])
          (Stats.record_at (Stats.toStringP (Track.id track)) track run o).
Proof.
  intros Htrack (Hnd & Hrs & Hkeys).
  set (k := Stats.toStringP (Track.id track)).
  assert (Hon : forall k', on_track events tracks k' run = String.eqb k k')
    by (intros k'; unfold on_track; rewrite Htrack; reflexivity).
  split; [ | split ].
  - rewrite record_at_keys.
    destruct (in_dec string_dec k (map fst o)) as [ | Hnew]; [ exact Hnd | ].
    apply NoDup_rev in Hnd. rewrite <- (rev_involutive (map fst o ++ [k])).
    apply NoDup_rev. rewrite rev_app_distr. simpl.
    constructor; [ rewrite <- in_rev; exact Hnew | exact Hnd ].
  - intros k' td' Hin'. cbv zeta.
    rewrite filter_app. simpl. rewrite Hon.
    destruct (record_at_entries _ _ _ _ _ _ Hnd Hin')
      as [[Hne Hin] | [-> (td & -> & Hin)]].
    + destruct (String.eqb_spec k k'); [ congruence | ].
      rewrite app_nil_r. apply (Hrs _ _ Hin).
    + rewrite String.eqb_refl.
      assert (Hold :
        Stats.td_runCount td
        = List.length (filter (on_track events tracks k) done)
        /\ Stats.td_bestLaps td
           = Stats.valid_laps Run.bestLap (filter (on_track events tracks k) done)
        /\ Stats.td_avgLaps td
           = Stats.valid_laps Run.avgLap (filter (on_track events tracks k) done)
        /\ k = Stats.toStringP (Stats.td_trackId td)
        /\ exists t, In t tracks /\ Stats.td_trackId td = Track.id t
                     /\ Stats.td_trackName td = Track.name t).
      { destruct Hin as [Hin | [-> Hnew]].
        - destruct (Hrs _ _ Hin) as (Hc & _ & Hb & Ha & Hk & Ht). auto.
        - assert (Hnone : filter (on_track events tracks k) done = []).
          { apply filter_nil. intros r Hr. unfold on_track.
            destruct (track_of events tracks r) as [t | ] eqn:Hr1; [ | reflexivity ].
            destruct (String.eqb_spec (Stats.toStringP (Track.id t)) k) as [Heq | ];
              [ | reflexivity ].
            exfalso. apply Hnew. rewrite <- Heq. apply (Hkeys r t Hr Hr1). }
          rewrite Hnone. simpl. repeat split.
          exists track. split; [ apply (track_of_In run), Htrack | auto ]. }
      destruct Hold as (Hc & Hb & Ha & Hk & Ht).
      rewrite !valid_laps_snoc, length_app. simpl.
      rewrite <- Hc, <- Hb, <- Ha.
      split; [ rewrite Nat.add_1_r; reflexivity | ].
      split; [ destruct (filter (on_track events tracks k) done); discriminate | ].
      auto.
  - intros r t Hr Hr1. rewrite record_at_keys.
    apply in_app_or in Hr as [Hr | [<- | []]].
    + specialize (Hkeys r t Hr Hr1).
      destruct (in_dec string_dec k (map fst o)); [ exact Hkeys | ].
      apply in_or_app. left. exact Hkeys.
    + assert (t = track) as -> by congruence. fold k.
      destruct (in_dec string_dec k (map fst o)); [ assumption | ].
      apply in_or_app. right. left. reflexivity.
Qed.

Lemma Tracked_skip (done : list Run.t) (o : list (string * Stats.TrackData))
      (run : Run.t) :
  track_of events tracks run = None ->
  Tracked events tracks done o -> Tracked events tracks (done ++ [run]) o.
Proof.
  intros Hnone (Hnd & Hrs & Hkeys). split; [ exact Hnd | split ].
  - intros k td Hin. cbv zeta. rewrite filter_app. simpl.
    unfold on_track at 2 4 6 8. rewrite Hnone. rewrite app_nil_r.
    apply (Hrs _ _ Hin).
  - intros r t Hr Hr1. apply in_app_or in Hr as [Hr | [<- | []]].
    + apply (Hkeys r t Hr Hr1).
    + congruence.
Qed.

Lemma fold_track_step_Tracked (runs : list Run.t) :
  forall done o,
    Tracked events tracks done o ->
    Tracked events tracks (done ++ runs)
            (fold_left (Stats.track_step events tracks) runs o).
Proof.
  induction runs as [ | run runs IH ]; intros done o Ht; simpl.
  - rewrite app_nil_r. exact Ht.
  - replace (done ++ run :: runs) with ((done ++ [run]) ++ runs)
      by (rewrite <- app_assoc; reflexivity).
    apply IH. rewrite track_step_track_of.
    destruct (track_of events tracks run) as [track | ] eqn:Htrack.
    + apply Tracked_step; assumption.
    + apply Tracked_skip; assumption.
Qed.


End Charts.

Lemma trend_point_avgLap_witness :
  match Stats.aggregateRuns (H := Sample.host) Sample.runs Sample.events
                            Sample.tracks Sample.cars Filters.none with
  | Ok agg =>
      Forall (fun p =>
                let laps :=
                  Stats.valid_laps Run.avgLap
                    (filter (charted_on (H := Sample.host) Sample.events (Stats.x p))
                            (Stats.filteredRuns agg)) in
                Stats.avgLap p = match laps with
                                 | [] => None
                                 | _ :: _ => Some (mean laps)
                                 end)
             (Stats.trendSeries agg)
  | Throw _ => False
  end.
Proof.
  destruct (Stats.aggregateRuns Sample.runs Sample.events Sample.tracks
                                Sample.cars Filters.none) as [agg | e] eqn:Hagg.
  - apply Forall_forall. intros p Hp.
    apply (trend_point_avgLap _ _ _ _ _ _ Hagg p Hp).
  - vm_compute in Hagg. discriminate.
Defined.


(** * Further properties of the structural diff *)

Section DiffLaws.
Import Diff.

Lemma existsb_eqb_In (p : string) (l : list string) :
  existsb (String.eqb p) l = false <-> ~ In p l.
Proof.
  induction l as [ | q l IH ]; simpl; [ tauto | ].
  destruct (String.eqb_spec p q) as [-> | Hne]; simpl.
  - split; [ discriminate | intros Hn; exfalso; auto ].
  - rewrite IH. split; [ intros Hn [Heq | Hin]; auto | tauto ].
Qed.

Lemma visit_without_ignore (fuel : nat) (ignorePaths : list string) :
  forall (valA valB : JsVal) (prefix : string) (r : Row),
    In r (visit fuel ignorePaths valA valB prefix) ->
    In r (visit fuel [] valA valB prefix).
Proof.
  induction fuel as [ | fuel IH ]; intros valA valB prefix r; simpl;
    [ contradiction | ].
  assert (Hdescend :
    In r (flat_map
            (fun key =>
               let path := child_path prefix key in
               if existsb (String.eqb path) ignorePaths then []
               else visit fuel ignorePaths (get valA key) (get valB key) path)
            (union_keys valA valB)) ->
    In r (flat_map
            (fun key => visit fuel [] (get valA key) (get valB key)
                              (child_path prefix key))
            (union_keys valA valB))).
  { intros Hin. apply in_flat_map in Hin as (key & Hkey & Hin).
    cbv zeta in Hin. destruct (existsb _ ignorePaths); [ contradiction | ].
    apply in_flat_map. exists key. split; [ exact Hkey | apply IH, Hin ]. }
  destruct valA as [a | fa], valB as [b | fb]; auto.
Qed.

Lemma visit_skips_ignored (fuel : nat) (ignorePaths : list string) :
  forall (valA valB : JsVal) (prefix : string) (r : Row),
    In r (visit fuel ignorePaths valA valB prefix) ->
    exists keys,
      path r = path_of prefix keys
      /\ forall n, 0 < n <= List.length keys ->
                   ~ In (path_of prefix (firstn n keys)) ignorePaths.
Proof.
  induction fuel as [ | fuel IH ]; intros valA valB prefix r; simpl;
    [ contradiction | ].
  assert (Hdescend :
    In r (flat_map
            (fun key =>
               let path := child_path prefix key in
               if existsb (String.eqb path) ignorePaths then []
               else visit fuel ignorePaths (get valA key) (get valB key) path)
            (union_keys valA valB)) ->
    exists keys,
      path r = path_of prefix keys
      /\ forall n, 0 < n <= List.length keys ->
                   ~ In (path_of prefix (firstn n keys)) ignorePaths).
  { intros Hin. apply in_flat_map in Hin as (key & _ & Hin).
    cbv zeta in Hin.
    destruct (existsb _ ignorePaths) eqn:Hskip; [ contradiction | ].
    apply existsb_eqb_In in Hskip.
    apply IH in Hin as (keys & Hp & Hfree).
    exists (key :: keys). split; [ exact Hp | ].
    intros [ | n ] Hn; [ lia | ]. simpl in Hn. simpl firstn.
    destruct n as [ | n ]; [ exact Hskip | ].
    apply (Hfree (S n)). lia. }
  destruct valA as [a | fa], valB as [b | fb]; try exact Hdescend.
  intros [<- | []]. exists []. split; [ reflexivity | ].
  simpl. intros n Hn. lia.
Qed.

(** X9. Ignoring paths only takes rows away: every row of a diff with
    [ignorePaths] is a row of the diff without, its path is not an
    ignored one, and neither is the path of any record it lies in, so
    ignoring a group drops the whole group. *)
Theorem diffObjects_ignorePaths (a b : JsVal) (ignorePaths : list string)
        (r : Row) :
  In r (diffObjects a b ignorePaths) ->
  In r (diffObjects a b [])
  /\ ~ In (path r) ignorePaths
  /\ exists keys,
      path r = path_of "" keys
      /\ forall n, 0 < n <= List.length keys ->
                   ~ In (path_of "" (firstn n keys)) ignorePaths.
Proof.
  unfold diffObjects. intros Hin. apply filter_In in Hin as [Hin Hpath].
  split; [ apply filter_In; split;
           [ apply (visit_without_ignore _ _ _ _ _ _ Hin) | exact Hpath ] | ].
  apply visit_skips_ignored in Hin as (keys & Hp & Hfree).
  split; [ | exists keys; auto ].
  destruct keys as [ | key keys ].
  - rewrite Hp in Hpath. discriminate.
  - rewrite Hp. rewrite <- (firstn_all (key :: keys)) at 1.
    apply Hfree. simpl. lia.
Qed.

End DiffLaws.

Lemma diffObjects_ignorePaths_witness :
  map Diff.path
      (Diff.diffObjects (Db.normalizeSetupData Sample.setupA)
                        (Db.normalizeSetupData Sample.setupB)
                        ["suspension"; "general.notes"])
  = ["chassis.rideHeightF"; "chassis.rideHeightR"; "chassis.droopF";
     "chassis.droopR"; "chassis.weightBalanceNotes"; "drivetrain.pinion";
     "drivetrain.spur"; "drivetrain.fdrNotes"; "drivetrain.diffType";
     "drivetrain.diffOilF"; "drivetrain.diffOilR"; "drivetrain.centerDiffOil";
     "tires.tireBrand"; "tires.tireCompound"; "tires.insert"; "tires.sauce";
     "tires.prepNotes"; "electronics.escProfile"; "electronics.timing";
     "electronics.punch"; "electronics.motorNotes"; "general.trackCondition";
     "general.temp"]
  /\ ~ In "chassis.droopF" ["suspension"; "general.notes"].
Proof.
  split; [ reflexivity | ].
  apply (diffObjects_ignorePaths
           (Db.normalizeSetupData Sample.setupA)
           (Db.normalizeSetupData Sample.setupB)
           ["suspension"; "general.notes"]
           (Diff.leaf_row (PStr "") (PStr "") "chassis.droopF")).
  vm_compute. auto.
Defined.

Section DiffSymmetry.
Import Diff.

Lemma float_eqb_sym (x y : float) : PrimFloat.eqb x y = PrimFloat.eqb y x.
Proof.
  rewrite !eqb_spec. unfold SFeqb.
  rewrite (SFcompare_antisym (Prim2SF x) (Prim2SF y)).
  destruct (SFcompare (Prim2SF x) (Prim2SF y)) as [[ | | ] | ]; reflexivity.
Qed.

Lemma strict_eq_sym (a b : Prim) : strict_eq a b = strict_eq b a.
Proof.
  destruct a, b; simpl; try reflexivity.
  - apply float_eqb_sym.
  - apply String.eqb_sym.
Qed.

Lemma leaf_row_swap (a b : Prim) (prefix : string) :
  leaf_row b a prefix = swap_row (leaf_row a b prefix).
Proof.
  unfold leaf_row, swap_row, classify. simpl.
  rewrite (strict_eq_sym (normalizeValue b) (normalizeValue a)).
  destruct (isEmpty (normalizeValue a)), (isEmpty (normalizeValue b)),
    (strict_eq (normalizeValue a) (normalizeValue b)); reflexivity.
Qed.

Lemma dedup_spec (l : list string) :
  forall seen,
    NoDup (dedup seen l)
    /\ forall k, In k (dedup seen l) <-> In k l /\ ~ In k seen.
Proof.
  induction l as [ | k l IH ]; intros seen; simpl.
  - split; [ constructor | ]. intros k. tauto.
  - destruct (existsb (String.eqb k) seen) eqn:Hseen.
    + destruct (IH seen) as [Hnd Hmem]. split; [ exact Hnd | ].
      intros k'. rewrite Hmem. split; [ tauto | ].
      intros [[<- | Hin] Hnew]; [ | tauto ].
      exfalso. apply existsb_exists in Hseen as (q & Hq & Heq).
      apply String.eqb_eq in Heq. subst q. contradiction.
    + apply existsb_eqb_In in Hseen.
      destruct (IH (k :: seen)) as [Hnd Hmem]. split.
      * constructor; [ | exact Hnd ]. rewrite Hmem. simpl. tauto.
      * intros k'. simpl. rewrite Hmem. simpl.
        destruct (string_dec k k') as [<- | Hne]; tauto.
Qed.

Lemma union_keys_swap (a b : JsVal) :
  Permutation (union_keys b a) (union_keys a b).
Proof.
  unfold union_keys.
  destruct (dedup_spec (own_keys b ++ own_keys a) []) as [Hnd Hmem].
  destruct (dedup_spec (own_keys a ++ own_keys b) []) as [Hnd' Hmem'].
  apply NoDup_Permutation; try assumption.
  intros k. rewrite Hmem, Hmem', !in_app_iff. simpl. tauto.
Qed.

Lemma flat_map_pointwise {A B : Type} (f g : A -> list B) (l : list A) :
  (forall x, Permutation (f x) (g x)) ->
  Permutation (flat_map f l) (flat_map g l).
Proof.
  intros Hfg. induction l as [ | x l IH ]; simpl; [ constructor | ].
  apply Permutation_app; [ apply Hfg | exact IH ].
Qed.

Lemma map_flat_map {A B C : Type} (h : B -> C) (f : A -> list B) (l : list A) :
  map h (flat_map f l) = flat_map (fun x => map h (f x)) l.
Proof.
  induction l as [ | x l IH ]; simpl; [ reflexivity | ].
  rewrite map_app, IH. reflexivity.
Qed.

Lemma filter_Permutation {A : Type} (f : A -> bool) (l l' : list A) :
  Permutation l l' -> Permutation (filter f l) (filter f l').
Proof.
  intros Hp. induction Hp as [ | x l l' Hp IH | x y l | l l' l'' Hp IH Hq IH' ];
    simpl.
  - constructor.
  - destruct (f x); [ constructor | ]; exact IH.
  - destruct (f x), (f y); try apply Permutation_refl. apply perm_swap.
  - apply (Permutation_trans IH IH').
Qed.

Lemma visit_swap (fuel : nat) (ignorePaths : list string) :
  forall (valA valB : JsVal) (prefix : string),
    Permutation (visit fuel ignorePaths valB valA prefix)
                (map swap_row (visit fuel ignorePaths valA valB prefix)).
Proof.
  induction fuel as [ | fuel IH ]; intros valA valB prefix; simpl;
    [ constructor | ].
  assert (Hdescend :
    Permutation
      (flat_map
         (fun key =>
            let path := child_path prefix key in
            if existsb (String.eqb path) ignorePaths then []
            else visit fuel ignorePaths (get valB key) (get valA key) path)
         (union_keys valB valA))
      (map swap_row
         (flat_map
            (fun key =>
               let path := child_path prefix key in
               if existsb (String.eqb path) ignorePaths then []
               else visit fuel ignorePaths (get valA key) (get valB key) path)
            (union_keys valA valB)))).
  { rewrite map_flat_map.
    eapply Permutation_trans;
      [ apply Permutation_flat_map, union_keys_swap | ].
    apply flat_map_pointwise. intros key. cbv zeta.
    destruct (existsb _ ignorePaths); [ constructor | apply IH ]. }
  destruct valA as [a | fa], valB as [b | fb]; try exact Hdescend.
  simpl. rewrite leaf_row_swap. apply Permutation_refl.
Qed.

(** X10. Exchanging the two records exchanges the sides of the diff:
    the rows are the same up to order, with the two values swapped,
    'added' and 'removed' exchanged, and 'modified', 'same', the path,
    the label and [changed] untouched. *)
Theorem diffObjects_swap (a b : JsVal) (ignorePaths : list string) :
  Permutation (diffObjects b a ignorePaths)
              (map swap_row (diffObjects a b ignorePaths)).
Proof.
  unfold diffObjects. rewrite (Nat.max_comm (depth (orV b (VObj [])))).
  assert (Hfilter : forall l,
            map swap_row (filter (fun r => negb (String.eqb (path r) "")) l)
            = filter (fun r => negb (String.eqb (path r) "")) (map swap_row l)).
  { induction l as [ | r l IHl ]; simpl; [ reflexivity | ].
    destruct (negb (String.eqb (path r) "")); simpl; rewrite IHl; reflexivity. }
  rewrite Hfilter. apply filter_Permutation, visit_swap.
Qed.

(** X11. A record compared with itself shows no change: both values of
    every row agree, and a row is marked changed only where the leaf
    is the number NaN, which is not equal to itself. *)
Theorem diffObjects_self (a : JsVal) (ignorePaths : list string) (r : Row) :
  In r (diffObjects a a ignorePaths) ->
  bValue r = aValue r
  /\ changed r = match aValue r with
                 | PNum x => isNaN x
                 | _ => false
                 end.
Proof.
  unfold diffObjects. intros Hin. apply filter_In in Hin as [Hin _].
  apply visit_rows in Hin as (keys & leafA & leafB & Ha & Hb & _ & ->).
  assert (leafB = leafA) as -> by congruence.
  split; [ reflexivity | ]. simpl. unfold classify.
  destruct leafA as [ | | x | s ]; simpl; try reflexivity.
  - unfold isNaN. destruct (PrimFloat.eqb x x); reflexivity.
  - rewrite String.eqb_refl. destruct (trim s); reflexivity.
Qed.

End DiffSymmetry.

Lemma diffObjects_self_witness :
  Diff.bValue (Diff.leaf_row (PStr "4.4") (PStr "4.4") "suspension.springsF")
  = Diff.aValue (Diff.leaf_row (PStr "4.4") (PStr "4.4") "suspension.springsF")
  /\ Diff.changed (Diff.leaf_row (PStr "4.4") (PStr "4.4") "suspension.springsF")
     = false.
Proof.
  apply (diffObjects_self (Db.normalizeSetupData Sample.setupA) []).
  vm_compute. auto 10.
Defined.

(** * The diff of two normalized setups *)

Section NormalizedDiff.
Import Diff.

Lemma scalar_fields_values (keys : list string) (fs : list (string * JsVal)) :
  fields_of keys fs ->
  scalar_fields (VObj fs) = true ->
  exists ps, List.length ps = List.length keys
             /\ fs = combine keys (map VPrim ps).
Proof.
  intros [Hkeys _]. subst keys. simpl.
  induction fs as [ | [k v] fs IH ]; simpl; intros Hs.
  - exists []. auto.
  - destruct v as [p | ]; [ | discriminate ]. simpl in Hs.
    destruct (IH Hs) as (ps & Hlen & Heq).
    exists (p :: ps). simpl. split; [ congruence | ].
    f_equal. exact Heq.
Qed.

(** Between two normalized records with scalar slots the walk meets
    every slot once, in the order of the normalizer, and names it by
    the label table. *)
Lemma normalized_diff_rows (normA normB : JsVal) :
  canonical normA -> canonical normB ->
  scalar_leaves normA = true -> scalar_leaves normB = true ->
  let rows := diffObjects normA normB [] in
  map path rows = map fst labelMap
  /\ map label rows = map snd labelMap
  /\ List.length rows = 36.
Proof.
  intros (c & s & d & t & e & g & -> & Hc & Hs & Hd & Ht & He & Hg)
         (c' & s' & d' & t' & e' & g' & -> & Hc' & Hs' & Hd' & Ht' & He' & Hg').
  intros Ha Hb. simpl in Ha, Hb.
  repeat match goal with
         | Hx : _ && _ = true |- _ => apply andb_prop in Hx as [? Hx]
         end.
  repeat match goal with
         | Hf : fields_of _ ?fs,
           Hx : forallb _ ?fs = true |- _ =>
             destruct (scalar_fields_values _ fs Hf Hx) as (? & ? & ->);
             clear Hf Hx
         end.
  repeat match goal with
         | Hlen : List.length ?ps = List.length _ |- _ =>
             unfold Db.chassis_keys, Db.suspension_keys, Db.drivetrain_keys,
               Db.tires_keys, Db.electronics_keys, Db.general_keys in Hlen;
             explicit_values ps Hlen
         end.
  vm_compute. auto.
Qed.

(** X12. The diff of two normalized setups whose slots hold scalars
    has exactly 36 rows whatever the setups contain: one for each slot
    of the normalizer, in its order, changed or not, and each labelled
    by the label table, which names the 36 slots and nothing else. *)
Theorem normalized_diff_lists_every_slot (setupA setupB : Setup.t) :
  scalar_leaves (Db.normalizeSetupData setupA) = true ->
  scalar_leaves (Db.normalizeSetupData setupB) = true ->
  let rows := diffObjects (Db.normalizeSetupData setupA)
                          (Db.normalizeSetupData setupB) [] in
  map path rows = map fst labelMap
  /\ map label rows = map snd labelMap
  /\ List.length rows = 36.
Proof.
  intros Ha Hb.
  apply normalized_diff_rows; auto using normalizeSetupData_canonical.
Qed.

End NormalizedDiff.

Lemma normalized_diff_lists_every_slot_witness :
  let rows := Diff.diffObjects (Db.normalizeSetupData Sample.setupA)
                               (Db.normalizeSetupData Sample.legacy_setup) [] in
  map Diff.path rows = map fst Diff.labelMap
  /\ map Diff.label rows = map snd Diff.labelMap
  /\ List.length rows = 36.
Proof.
  apply (normalized_diff_lists_every_slot Sample.setupA Sample.legacy_setup);
    reflexivity.
Defined.

(** * Further properties of the setup normalizer *)

Section NormalizerLaws.
Import Db.

Lemma lookup_In (key : string) (fs : list (string * JsVal)) :
  In key (map fst fs) -> In (key, lookup key fs) fs.
Proof.
  induction fs as [ | [k v] fs IH ]; simpl; [ contradiction | ].
  destruct (String.eqb_spec key k) as [-> | Hne].
  - intros _. left. reflexivity.
  - intros [Heq | Hin]; [ congruence | right; apply IH, Hin ].
Qed.

Lemma fields_of_slot (keys : list string) (fs : list (string * JsVal))
      (key : string) :
  fields_of keys fs -> In key keys ->
  lookup key fs = str "" \/ truthy (lookup key fs) = true.
Proof.
  intros [Hkeys Hstable] Hkey. subst keys.
  apply lookup_In in Hkey. rewrite Forall_forall in Hstable.
  specialize (Hstable _ Hkey). simpl in Hstable.
  unfold stable, orV in Hstable.
  destruct (truthy (lookup key fs)); [ right; reflexivity | left; congruence ].
Qed.

(** X13. Whatever the setup holds (nothing, a scalar, unknown groups or
    keys), the normalized record has the six groups and, in each, the
    keys of the normalizer, in its order and no other; and no slot is
    null, undefined, zero or NaN: a slot holds the empty text or a
    truthy value. *)
Theorem normalizeSetupData_shape (setup : Setup.t) :
  let norm := normalizeSetupData setup in
  Diff.own_keys norm = map fst slots
  /\ forall group keys,
       In (group, keys) slots ->
       Diff.own_keys (get norm group) = keys
       /\ forall key, In key keys ->
                      get (get norm group) key = str ""
                      \/ truthy (get (get norm group) key) = true.
Proof.
  intros norm.
  destruct (normalizeSetupData_canonical setup)
    as (c & s & d & t & e & g & Hnorm & Hc & Hs & Hd & Ht & He & Hg).
  fold norm in Hnorm. rewrite Hnorm.
  split; [ reflexivity | ].
  intros group keys Hin. unfold slots in Hin. simpl in Hin.
  destruct Hin as [[= <- <-] | [[= <- <-] | [[= <- <-] | [[= <- <-]
                  | [[= <- <-] | [[= <- <-] | []]]]]]];
    cbn [get lookup String.eqb Ascii.eqb Bool.eqb];
    match goal with
    | Hf : fields_of ?keys ?fs |- Diff.own_keys (VObj ?fs) = ?keys /\ _ =>
        split; [ destruct Hf as [Hkeys _]; unfold Diff.own_keys;
                 rewrite Hkeys; reflexivity
               | intros key Hkey; apply (fields_of_slot keys fs key Hf Hkey) ]
    end.
Qed.

(** X14. Apart from the three slots a legacy field can fill, and for
    every slot when the schema version is 2 or more, a slot of the
    normalized record holds the value stored under the same group and
    key when that value is truthy, and the empty text otherwise: a
    setup of schema 2 ignores the legacy fields, and a stored 0, null
    or missing value reads as the empty text. *)
Theorem normalized_slot_is_stored_value (setup : Setup.t)
        (group : string) (keys : list string) (key : string) :
  In (group, keys) slots -> In key keys ->
  PrimFloat.ltb (schema_of setup) 2 = false \/ ~ legacy_slot group key ->
  let data := orV (Setup.setupData setup) (VObj []) in
  get (get (normalizeSetupData setup) group) key
  = orV (get (orV (get data group) (VObj [])) key) (str "").
Proof.
  intros Hgroup Hkey Hplain data.
  unfold normalizeSetupData. fold data.
  set (norm := VObj _).
  assert (Hread : get (get norm group) key
                  = orV (get (orV (get data group) (VObj [])) key) (str "")).
  { unfold slots in Hgroup. simpl in Hgroup.
    destruct Hgroup as [[= <- <-] | [[= <- <-] | [[= <- <-] | [[= <- <-]
                       | [[= <- <-] | [[= <- <-] | []]]]]]];
      simpl in Hkey;
      repeat (destruct Hkey as [<- | Hkey]; [ reflexivity | ]);
      destruct Hkey. }
  destruct (PrimFloat.ltb (schema_of setup) 2) eqn:Hschema; [ | exact Hread ].
  destruct Hplain as [Hnew | Hplain]; [ discriminate | ].
  assert (Hnorm : canonical norm)
    by apply (defaulted_groups_canonical (fun g => orV (get data g) (VObj []))).
  assert (Hn1 : canonical (map_legacy data "rideHeight" "chassis" "rideHeightF" norm))
    by (apply map_legacy_canonical; unfold legacy_slot; auto).
  assert (Hn2 : canonical (map_legacy data "springs" "suspension" "springsF"
                   (map_legacy data "rideHeight" "chassis" "rideHeightF" norm)))
    by (apply map_legacy_canonical; unfold legacy_slot; auto).
  rewrite !get_map_legacy by (unfold legacy_slot; auto).
  rewrite <- Hread.
  assert (Hno : forall g k, legacy_slot g k ->
                            String.eqb group g && String.eqb key k = false).
  { intros g k Hslot.
    destruct (String.eqb_spec group g) as [-> | ]; [ | reflexivity ].
    destruct (String.eqb_spec key k) as [-> | ]; [ | reflexivity ].
    contradiction. }
  rewrite !Hno by (unfold legacy_slot; auto). reflexivity.
Qed.

End NormalizerLaws.

Lemma normalized_slot_is_stored_value_witness :
  get (get (Db.normalizeSetupData Sample.setupB) "suspension") "camberF"
  = str "-2"
  /\ get (get (Db.normalizeSetupData Sample.legacy_setup) "tires") "sauce"
     = str "".
Proof.
  split.
  - apply (normalized_slot_is_stored_value Sample.setupB "suspension"
             Db.suspension_keys "camberF").
    + unfold slots. simpl. auto.
    + unfold Db.suspension_keys. simpl. auto 12.
    + left. reflexivity.
  - apply (normalized_slot_is_stored_value Sample.legacy_setup "tires"
             Db.tires_keys "sauce").
    + unfold slots. simpl. auto.
    + unfold Db.tires_keys. simpl. auto.
    + right. unfold legacy_slot. intros [[Hg _] | [[Hg _] | [Hg _]]]; discriminate.
Defined.

(** * Further properties of the setup-change correlator *)

Section CorrelatorLaws.
Context {H : Host}.

Lemma Map_get_In {V : Type} (m : list (Prim * V)) (k : Prim) (v : V) :
  App.Map_get m k = Some v -> exists k', In (k', v) m.
Proof.
  induction m as [ | [k0 v0] m IH ]; simpl; [ discriminate | ].
  destruct (Stats.same_value_zero k0 k).
  - intros [= <-]. exists k0. left. reflexivity.
  - intros Hget. destruct (IH Hget) as (k' & Hin). exists k'. right. exact Hin.
Qed.

Lemma compare_adjacent_pairs (ctx : App.AnalyticsContext) (l : list Run.t)
      (c : App.Comparison) :
  In c (App.compare_adjacent ctx l) ->
  exists previousRun currentRun,
    In previousRun l /\ In currentRun l
    /\ In c (App.compare_pair ctx previousRun currentRun).
Proof.
  induction l as [ | previousRun l IH ]; simpl; [ contradiction | ].
  destruct l as [ | currentRun l ]; [ contradiction | ].
  intros Hin. apply in_app_or in Hin as [Hin | Hin].
  - exists previousRun, currentRun. simpl. auto.
  - destruct (IH Hin) as (p & q & Hp & Hq & Hc). exists p, q. auto.
Qed.

Lemma push_run_members (P : string -> Run.t -> Prop) (k : string) (run : Run.t)
      (o : list (string * list Run.t)) :
  (forall k' rs, In (k', rs) o -> forall r, In r rs -> P k' r) ->
  P k run ->
  forall k' rs, In (k', rs) (App.push_run k run o) ->
                forall r, In r rs -> P k' r.
Proof.
  intros Ho Hrun. induction o as [ | [k0 rs0] o IH ]; simpl.
  - intros k' rs [[= <- <-] | []] r [<- | []]. exact Hrun.
  - destruct (String.eqb_spec k k0) as [-> | Hne].
    + intros k' rs [[= <- <-] | Hin] r Hr.
      * apply in_app_or in Hr as [Hr | [<- | []]]; [ | exact Hrun ].
        apply (Ho k0 rs0); [ left; reflexivity | exact Hr ].
      * apply (Ho k' rs); [ right; exact Hin | exact Hr ].
    + intros k' rs [[= <- <-] | Hin] r Hr.
      * apply (Ho k0 rs0); [ left; reflexivity | exact Hr ].
      * apply (IH (fun k1 rs1 Hin1 => Ho k1 rs1 (or_intror Hin1)) k' rs Hin r Hr).
Qed.

Lemma group_step_members (all : list Run.t) (runs : list Run.t) :
  forall o,
    incl runs all ->
    (forall k rs, In (k, rs) o ->
                  forall r, In r rs ->
                            In r all /\ eligible r = true /\ car_track_key r = k) ->
    forall k rs, In (k, rs) (fold_left App.group_step runs o) ->
                 forall r, In r rs ->
                           In r all /\ eligible r = true /\ car_track_key r = k.
Proof.
  induction runs as [ | run runs IH ]; intros o Hincl Ho; simpl; [ exact Ho | ].
  apply IH; [ intros r Hr; apply Hincl; right; exact Hr | ].
  unfold App.group_step.
  destruct (truthyP (Run.setupId run)) eqn:Hsetup; simpl; [ | exact Ho ].
  destruct (App.truthy_num (Run.bestLapNum run)) eqn:Hlap; simpl; [ | exact Ho ].
  apply (push_run_members
           (fun k r => In r all /\ eligible r = true /\ car_track_key r = k));
    [ exact Ho | ].
  split; [ apply Hincl; left; reflexivity | ].
  split; [ unfold eligible; rewrite Hsetup, Hlap; reflexivity | reflexivity ].
Qed.

Lemma comparison_origin (runs : list Run.t) (ctx : App.AnalyticsContext)
      (c : App.Comparison) :
  In c (App.comparisons (App.analyzeSetupChanges runs ctx)) ->
  exists previousRun currentRun,
    (In previousRun runs /\ eligible previousRun = true)
    /\ (In currentRun runs /\ eligible currentRun = true)
    /\ car_track_key previousRun = car_track_key currentRun
    /\ In c (App.compare_pair ctx previousRun currentRun).
Proof.
  unfold App.analyzeSetupChanges. simpl. intros Hin.
  apply in_flat_map in Hin as ([k rs] & Hgroup & Hin). simpl in Hin.
  apply compare_adjacent_pairs in Hin as (p & q & Hp & Hq & Hc).
  apply sort_In in Hp. apply sort_In in Hq.
  pose proof (group_step_members runs runs [] (incl_refl runs)
                (fun k rs (Hnil : In (k, rs) []) => match Hnil with end)
                k rs Hgroup) as Hmem.
  destruct (Hmem p Hp) as (Hp1 & Hp2 & Hp3).
  destruct (Hmem q Hq) as (Hq1 & Hq2 & Hq3).
  exists p, q. repeat split; try assumption. congruence.
Qed.

Lemma push_run_push_at (k : string) (run : Run.t)
      (o : list (string * list Run.t)) :
  App.push_run k run o = Stats.push_at k run o.
Proof.
  induction o as [ | [k' rs] o IH ]; simpl; [ reflexivity | ].
  rewrite IH. reflexivity.
Qed.

Lemma Keyed_step (done : list Run.t) (o : list (string * list Run.t))
      (run : Run.t) :
  Keyed done o -> Keyed (done ++ [run]) (App.group_step o run).
Proof.
  intros (Hnd & Hrs & Hkeys). unfold App.group_step.
  destruct (eligible run) eqn:Hrun.
  - pose proof Hrun as Hparts. unfold eligible in Hparts.
    apply andb_prop in Hparts as [-> ->]. cbn [negb orb].
    change (Stats.toStringP (Run.carId run) ++ "_"
            ++ Stats.toStringP (orP (Run.trackId run) (PStr "unknown")))%string
      with (car_track_key run).
    rewrite push_run_push_at. set (k := car_track_key run).
    split; [ | split ].
    + rewrite push_at_keys.
      destruct (in_dec string_dec k (map fst o)) as [ | Hnew ]; [ exact Hnd | ].
      apply NoDup_rev in Hnd. rewrite <- (rev_involutive (map fst o ++ [k])).
      apply NoDup_rev. rewrite rev_app_distr. simpl.
      constructor; [ rewrite <- in_rev; exact Hnew | exact Hnd ].
    + intros k' rs' Hin'. rewrite filter_app. cbn [filter].
      unfold in_group at 2. rewrite Hrun. fold k. cbn [andb].
      destruct (push_at_entries _ _ _ _ _ Hnd Hin')
        as [[Hne Hin] | [-> (rs0 & -> & Hin)]].
      * destruct (String.eqb_spec k k'); [ congruence | ].
        rewrite app_nil_r. apply (Hrs _ _ Hin).
      * rewrite String.eqb_refl. f_equal.
        destruct Hin as [Hin | [-> Hnew]]; [ apply (Hrs _ _ Hin) | ].
        symmetry. apply filter_nil. intros r Hr. unfold in_group.
        destruct (eligible r) eqn:Hr1; [ | reflexivity ]. cbn [andb].
        destruct (String.eqb_spec (car_track_key r) k) as [Heq | ];
          [ | reflexivity ].
        exfalso. apply Hnew. rewrite <- Heq. apply (Hkeys r Hr Hr1).
    + intros r Hr Hr1. rewrite push_at_keys.
      apply in_app_or in Hr as [Hr | [<- | []]].
      * specialize (Hkeys r Hr Hr1).
        destruct (in_dec string_dec k (map fst o)); [ exact Hkeys | ].
        apply in_or_app. left. exact Hkeys.
      * fold k. destruct (in_dec string_dec k (map fst o)); [ assumption | ].
        apply in_or_app. right. left. reflexivity.
  - assert (Hskip : negb (truthyP (Run.setupId run))
                    || negb (App.truthy_num (Run.bestLapNum run)) = true).
    { unfold eligible in Hrun.
      destruct (truthyP (Run.setupId run)); [ | reflexivity ].
      simpl in Hrun |- *. rewrite Hrun. reflexivity. }
    rewrite Hskip. split; [ exact Hnd | split ].
    + intros k' rs' Hin'. rewrite filter_app. cbn [filter].
      unfold in_group at 2. rewrite Hrun. cbn [andb].
      rewrite app_nil_r. apply (Hrs _ _ Hin').
    + intros r Hr Hr1. apply in_app_or in Hr as [Hr | [<- | []]].
      * apply (Hkeys r Hr Hr1).
      * congruence.
Qed.

Lemma Keyed_fold (runs : list Run.t) :
  forall done o,
    Keyed done o -> Keyed (done ++ runs) (fold_left App.group_step runs o).
Proof.
  induction runs as [ | run runs IH ]; intros done o Hk; simpl.
  - rewrite app_nil_r. exact Hk.
  - replace (done ++ run :: runs) with ((done ++ [run]) ++ runs)
      by (rewrite <- app_assoc; reflexivity).
    apply IH, Keyed_step, Hk.
Qed.

Lemma compare_adjacent_neighbours (ctx : App.AnalyticsContext) (l : list Run.t)
      (c : App.Comparison) :
  In c (App.compare_adjacent ctx l) ->
  exists l1 previousRun currentRun l2,
    l = l1 ++ previousRun :: currentRun :: l2
    /\ In c (App.compare_pair ctx previousRun currentRun).
Proof.
  induction l as [ | previousRun l IH ]; simpl; [ contradiction | ].
  destruct l as [ | currentRun l ]; [ contradiction | ].
  intros Hin. apply in_app_or in Hin as [Hin | Hin].
  - exists [], previousRun, currentRun, l. auto.
  - destruct (IH Hin) as (l1 & p & q & l2 & Hl & Hc).
    exists (previousRun :: l1), p, q, l2. rewrite Hl. auto.
Qed.

Lemma sorted_neighbours {A : Type} (R : A -> A -> Prop) (l1 l2 : list A)
      (p q : A) :
  StronglySorted R (l1 ++ p :: q :: l2) ->
  Forall (fun a => R a p) l1 /\ R p q /\ Forall (R q) l2.
Proof.
  induction l1 as [ | a l1 IH ]; simpl; intros Hs.
  - apply StronglySorted_inv in Hs as [Hrest Hp].
    apply StronglySorted_inv in Hrest as [_ Hq].
    split; [ constructor | split; [ | exact Hq ] ].
    apply (Forall_inv Hp).
  - apply StronglySorted_inv in Hs as [Hrest Ha].
    destruct (IH Hrest) as (Hbefore & Hpq & Hafter).
    split; [ | auto ]. constructor; [ | exact Hbefore ].
    rewrite Forall_forall in Ha. apply Ha.
    apply in_or_app. right. left. reflexivity.
Qed.

Lemma comparison_neighbours (runs : list Run.t) (ctx : App.AnalyticsContext)
      (c : App.Comparison) :
  In c (App.comparisons (App.analyzeSetupChanges runs ctx)) ->
  exists k l1 previousRun currentRun l2,
    sort App.by_run_date (filter (in_group k) runs)
    = l1 ++ previousRun :: currentRun :: l2
    /\ In c (App.compare_pair ctx previousRun currentRun).
Proof.
  unfold App.analyzeSetupChanges. simpl. intros Hin.
  apply in_flat_map in Hin as ([k rs] & Hgroup & Hin). simpl in Hin.
  apply compare_adjacent_neighbours in Hin as (l1 & p & q & l2 & Hl & Hc).
  assert (Hkeyed : Keyed ([] ++ runs) (fold_left App.group_step runs [])).
  { apply Keyed_fold. repeat split; simpl; try constructor; contradiction. }
  destruct Hkeyed as (_ & Hrs & _). rewrite (Hrs k rs Hgroup) in Hl.
  exists k, l1, p, q, l2. auto.
Qed.

(** X15. Every comparison the correlator reports is between two runs
    of the input that both name a setup and carry a valid best lap,
    share car and track, name different setups, and whose setups are
    both on record.  Its delta is the best lap of the current run minus
    that of the previous one, both read by [parseLap], and its note
    says Improved exactly when the delta is negative.  When the host
    reads the date of every run the correlator looks at, the previous
    run is not later than the current one, and no run of that car and
    track the correlator looks at lies strictly between the two: the
    delta is the later lap minus the earlier one, of neighbours in
    date order.  The runs are taken as the loader enriches them, with
    ordinary grouping keys. *)
Theorem comparison_is_between_two_eligible_runs
        (runs : list Run.t) (ctx : App.AnalyticsContext) (c : App.Comparison) :
  (forall run, In run runs ->
               ordinary_key (car_track_key run) = true
               /\ Run.bestLapNum run = Stats.parseLap (Run.bestLap run)) ->
  In c (App.comparisons (App.analyzeSetupChanges runs ctx)) ->
  exists previousRun currentRun previousLap currentLap,
    In previousRun runs /\ In currentRun runs
    /\ car_track_key previousRun = car_track_key currentRun
    /\ truthyP (Run.setupId previousRun) = true
    /\ truthyP (Run.setupId currentRun) = true
    /\ strict_eq (Run.setupId currentRun) (Run.setupId previousRun) = false
    /\ App.Map_get (App.setupsById ctx) (Run.setupId previousRun) <> None
    /\ App.Map_get (App.setupsById ctx) (Run.setupId currentRun) <> None
    /\ Stats.parseLap (Run.bestLap previousRun) = Some previousLap
    /\ Stats.parseLap (Run.bestLap currentRun) = Some currentLap
    /\ App.bestLapDelta c = (currentLap - previousLap)%float
    /\ App.date c = orP (Run.eventDate currentRun) (Run.createdAt currentRun)
    /\ (String.prefix "Improved" (App.notes c)
        = PrimFloat.ltb (App.bestLapDelta c) 0)
    /\ ((forall run, In run runs -> eligible run = true ->
                     run_time run <> None) ->
        exists previousTime currentTime,
          run_time previousRun = Some previousTime
          /\ run_time currentRun = Some currentTime
          /\ (previousTime <= currentTime)%Z
          /\ (forall run t,
                In run runs -> eligible run = true ->
                car_track_key run = car_track_key currentRun ->
                run_time run = Some t ->
                (t <= previousTime \/ currentTime <= t)%Z)).
Proof.
  intros Hruns Hin.
  apply comparison_neighbours in Hin as (k & l1 & p & q & l2 & Hsort & Hc).
  assert (Hmem : forall r, In r (l1 ++ p :: q :: l2) ->
                           In r runs /\ eligible r = true /\ car_track_key r = k).
  { intros r Hr. rewrite <- Hsort in Hr. apply sort_In in Hr.
    apply filter_In in Hr as [Hr Hg]. unfold in_group in Hg.
    apply andb_prop in Hg as [He Hk]. apply String.eqb_eq in Hk. auto. }
  destruct (Hmem p) as (Hp & Hpe & Hpk);
    [ apply in_or_app; right; left; reflexivity | ].
  destruct (Hmem q) as (Hq & Hqe & Hqk);
    [ apply in_or_app; right; right; left; reflexivity | ].
  assert (Hkey : car_track_key p = car_track_key q) by congruence.
  assert (Horder :
            (forall run, In run runs -> eligible run = true ->
                         run_time run <> None) ->
            exists tp tq,
              run_time p = Some tp /\ run_time q = Some tq /\ (tp <= tq)%Z
              /\ (forall run t,
                    In run runs -> eligible run = true ->
                    car_track_key run = car_track_key q ->
                    run_time run = Some t -> (t <= tp \/ tq <= t)%Z)).
  { intros Hread.
    set (time := fun r => match run_time r with Some t => t | None => 0%Z end).
    assert (Hs : StronglySorted (fun u v => (time u <= time v)%Z)
                                (l1 ++ p :: q :: l2)).
    { rewrite <- Hsort. apply sort_ordered. intros a b Ha Hb.
      apply filter_In in Ha as [Ha Hga]. apply filter_In in Hb as [Hb Hgb].
      apply andb_prop in Hga as [Hea _]. apply andb_prop in Hgb as [Heb _].
      pose proof (Hread a Ha Hea) as Hta. pose proof (Hread b Hb Heb) as Htb.
      unfold App.by_run_date, time. fold (run_time a). fold (run_time b).
      destruct (run_time a); [ | congruence ].
      destruct (run_time b); [ | congruence ]. reflexivity. }
    apply sorted_neighbours in Hs as (Hbefore & Hpq & Hafter).
    rewrite Forall_forall in Hbefore, Hafter.
    pose proof (Hread p Hp Hpe) as Htp. pose proof (Hread q Hq Hqe) as Htq.
    unfold time in Hpq, Hbefore, Hafter.
    destruct (run_time p) as [tp | ] eqn:Hptime; [ | congruence ].
    destruct (run_time q) as [tq | ] eqn:Hqtime; [ | congruence ].
    exists tp, tq. repeat (split; [ first [ reflexivity | exact Hpq ] | ]).
    intros r t Hr Hre Hrk Hrt.
    assert (Hin : In r (l1 ++ p :: q :: l2)).
    { rewrite <- Hsort. apply sort_In. apply filter_In. split; [ exact Hr | ].
      unfold in_group. rewrite Hre. apply String.eqb_eq. congruence. }
    apply in_app_or in Hin as [Hin | [<- | [<- | Hin]]].
    - left. specialize (Hbefore r Hin). rewrite Hrt in Hbefore. exact Hbefore.
    - left. assert (t = tp) by congruence. lia.
    - right. assert (t = tq) by congruence. lia.
    - right. specialize (Hafter r Hin). rewrite Hrt in Hafter. exact Hafter. }
  destruct (Hruns p Hp) as [_ Hplap]. destruct (Hruns q Hq) as [_ Hqlap].
  unfold eligible in Hpe, Hqe.
  apply andb_prop in Hpe as [Hps Hpl]. apply andb_prop in Hqe as [Hqs Hql].
  rewrite Hplap in Hpl. rewrite Hqlap in Hql.
  destruct (Stats.parseLap (Run.bestLap p)) as [lp | ] eqn:Hlp; [ | discriminate ].
  destruct (Stats.parseLap (Run.bestLap q)) as [lq | ] eqn:Hlq; [ | discriminate ].
  exists p, q, lp, lq.
  unfold App.compare_pair in Hc.
  destruct (strict_eq (Run.setupId q) (Run.setupId p)) eqn:Hsame;
    [ contradiction | ].
  destruct (App.Map_get (App.setupsById ctx) (Run.setupId q)) as [sq | ];
    [ | contradiction ].
  destruct (App.Map_get (App.setupsById ctx) (Run.setupId p)) as [sp | ];
    [ | contradiction ].
  destruct Hc as [<- | []]. simpl.
  rewrite Hplap, Hqlap, Hlp, Hlq. simpl.
  repeat (split; [ first [ assumption | reflexivity | discriminate ] | ]).
  split; [ | exact Horder ].
  unfold App.note_of.
  destruct (PrimFloat.ltb (lq - lp) 0); [ reflexivity | ].
  destruct (PrimFloat.ltb 0 (lq - lp)); reflexivity.
Qed.

(** X16. When the setups on record hold scalars in their slots, every
    comparison carries the change count 36, the number of slots, however
    many of them differ; so once there are three comparisons the
    insights are the single line for "10+" changes, computed over all
    comparisons, and the lines for 1-3 and 4-10 changes never appear.
    The grouping keys are taken to be ordinary keys, the runs being
    grouped in a plain object. *)
Theorem correlator_counts_every_slot
        (runs : list Run.t) (ctx : App.AnalyticsContext) :
  (forall run, In run runs -> ordinary_key (car_track_key run) = true) ->
  (forall id setup, In (id, setup) (App.setupsById ctx) ->
                    scalar_leaves (Db.normalizeSetupData setup) = true) ->
  let result := App.analyzeSetupChanges runs ctx in
  (forall c, In c (App.comparisons result) -> App.changeCount c = 36)
  /\ (3 <= List.length (App.comparisons result) ->
      App.insights result = App.bucket_insight "10+" (App.comparisons result)).
Proof.
  intros _ Hscalar result.
  assert (Hcount : forall c, In c (App.comparisons result) ->
                             App.changeCount c = 36).
  { intros c Hin.
    apply comparison_origin in Hin as (p & q & _ & _ & _ & Hc).
    apply changeCount_is_row_count in Hc as (sp & sq & Hp & Hq & ->).
    apply Map_get_In in Hp as (kp & Hp). apply Map_get_In in Hq as (kq & Hq).
    apply normalized_diff_rows;
      eauto using normalizeSetupData_canonical. }
  split; [ exact Hcount | ].
  intros Hthree. subst result. unfold App.analyzeSetupChanges in *.
  cbn [App.insights App.comparisons] in *.
  set (comparisons := flat_map _ _) in *.
  apply Nat.leb_le in Hthree. rewrite Hthree.
  rewrite (filter_nil _ comparisons), (filter_nil _ comparisons),
    (filter_all _ comparisons).
  - reflexivity.
  - intros c Hc. rewrite (Hcount c Hc). reflexivity.
  - intros c Hc. rewrite (Hcount c Hc). reflexivity.
  - intros c Hc. rewrite (Hcount c Hc). reflexivity.
Qed.

End CorrelatorLaws.

Lemma comparison_is_between_two_eligible_runs_witness :
  match App.comparisons (App.analyzeSetupChanges (H := Sample.host)
                           Sample.enriched Sample.context) with
  | [c] =>
      exists previousRun currentRun previousTime currentTime,
        In previousRun Sample.enriched /\ In currentRun Sample.enriched
        /\ strict_eq (Run.setupId currentRun) (Run.setupId previousRun) = false
        /\ run_time (H := Sample.host) previousRun = Some previousTime
        /\ run_time (H := Sample.host) currentRun = Some currentTime
        /\ (previousTime <= currentTime)%Z
  | _ => False
  end.
Proof.
  destruct (App.comparisons (App.analyzeSetupChanges (H := Sample.host)
                               Sample.enriched Sample.context))
    as [ | c [ | c' cs ] ] eqn:Hcs;
    try (vm_compute in Hcs; discriminate).
  destruct (comparison_is_between_two_eligible_runs
              (H := Sample.host) Sample.enriched Sample.context c)
    as (p & q & lp & lq & Hp & Hq & _ & _ & _ & Hne & _ & _ & _ & _ & _ & _ & _
        & Horder).
  - intros run [<- | [<- | []]]; split; reflexivity.
  - rewrite Hcs. left. reflexivity.
  - destruct Horder as (tp & tq & Htp & Htq & Hle & _).
    + intros run [<- | [<- | []]] _; vm_compute; discriminate.
    + exists p, q, tp, tq. auto 10.
Defined.

Lemma correlator_counts_every_slot_witness :
  Forall (fun c => App.changeCount c = 36)
         (App.comparisons (App.analyzeSetupChanges (H := Sample.host)
                             Sample.enriched Sample.context)).
Proof.
  apply Forall_forall.
  apply (correlator_counts_every_slot (H := Sample.host)
           Sample.enriched Sample.context).
  - intros run [<- | [<- | []]]; reflexivity.
  - intros id setup [[= <- <-] | [[= <- <-] | []]]; reflexivity.
Defined.

(** * Day keys *)

Section DayKeys.
Context {H : Host}.

Lemma is_digit_In (c : ascii) : Stats.is_digit c = true -> In c digit_chars.
Proof.
  intros Hd.
  destruct c as [[ | ] [ | ] [ | ] [ | ] [ | ] [ | ] [ | ] [ | ]];
    vm_compute in Hd; try discriminate Hd; simpl; auto 12.
Qed.

Lemma four_digits_print (a b c d : ascii) :
  In a digit_chars -> In b digit_chars -> In c digit_chars -> In d digit_chars ->
  (1000 <= number_of_digits [a; b; c; d])%Z ->
  string_of_Z (number_of_digits [a; b; c; d])
  = string_of_list_ascii [a; b; c; d].
Proof.
  assert (Hall :
    forallb (fun a => forallb (fun b => forallb (fun c => forallb (fun d =>
      (number_of_digits [a; b; c; d] <? 1000)%Z
      || String.eqb (string_of_Z (number_of_digits [a; b; c; d]))
                    (string_of_list_ascii [a; b; c; d]))
      digit_chars) digit_chars) digit_chars) digit_chars = true)
    by (vm_compute; reflexivity).
  intros Ha Hb Hc Hd Hy.
  rewrite forallb_forall in Hall. specialize (Hall a Ha).
  rewrite forallb_forall in Hall. specialize (Hall b Hb).
  rewrite forallb_forall in Hall. specialize (Hall c Hc).
  rewrite forallb_forall in Hall. specialize (Hall d Hd).
  apply orb_prop in Hall as [Hlow | Heq].
  - apply Z.ltb_lt in Hlow. lia.
  - apply String.eqb_eq, Heq.
Qed.

Lemma two_digits_print (a b : ascii) :
  In a digit_chars -> In b digit_chars ->
  padStart0 2 (string_of_Z (number_of_digits [a; b]))
  = string_of_list_ascii [a; b].
Proof.
  assert (Hall :
    forallb (fun a => forallb (fun b =>
      String.eqb (padStart0 2 (string_of_Z (number_of_digits [a; b])))
                 (string_of_list_ascii [a; b]))
      digit_chars) digit_chars = true)
    by (vm_compute; reflexivity).
  intros Ha Hb.
  rewrite forallb_forall in Hall. specialize (Hall a Ha).
  rewrite forallb_forall in Hall. specialize (Hall b Hb).
  apply String.eqb_eq, Hall.
Qed.

Lemma ymd_of_text_shape (s : string) (y m d : Z) :
  Stats.ymd_of_text s = Some (y, m, d) ->
  exists y1 y2 y3 y4 m1 m2 d1 d2,
    s = string_of_list_ascii
          [y1; y2; y3; y4; "-"%char; m1; m2; "-"%char; d1; d2]
    /\ forallb Stats.is_digit [y1; y2; y3; y4; m1; m2; d1; d2] = true
    /\ y = number_of_digits [y1; y2; y3; y4]
    /\ m = number_of_digits [m1; m2]
    /\ d = number_of_digits [d1; d2].
Proof.
  unfold Stats.ymd_of_text.
  destruct s as [ | y1 [ | y2 [ | y3 [ | y4 [ | h1 [ | m1 [ | m2 [ | h2
                [ | d1 [ | d2 [ | ? ? ]]]]]]]]]]]; try discriminate;
    destruct h1 as [[ | ] [ | ] [ | ] [ | ] [ | ] [ | ] [ | ] [ | ]];
    try discriminate;
    destruct h2 as [[ | ] [ | ] [ | ] [ | ] [ | ] [ | ] [ | ] [ | ]];
    try discriminate.
  destruct (forallb Stats.is_digit [y1; y2; y3; y4; m1; m2; d1; d2]) eqn:Hd;
    [ | discriminate ].
  intros [= <- <- <-].
  exists y1, y2, y3, y4, m1, m2, d1, d2.
  split; [ reflexivity | ]. split; [ exact Hd | ]. repeat split.
Qed.

(** X17. A date typed as YYYY-MM-DD keeps its text as day key: for a
    year of four digits from 1000 on and a day of the calendar (one
    the host's local-time constructor and getters agree on),
    [dateKeyFromLocal] returns the text it was given, so a run whose
    event carries that date is charted under that very day, whatever
    the time zone and whatever the run's own creation time. *)
Theorem dateKeyFromLocal_keeps_the_day (s : string) (y m d : Z) :
  Stats.ymd_of_text s = Some (y, m, d) ->
  (1000 <= y)%Z ->
  local_day y m d ->
  Stats.dateKeyFromLocal (PStr s) = Some s
  /\ forall events run event,
       Stats.dated_event events run = Some event ->
       Event.date event = PStr s ->
       Stats.dateKey_of events run = Ok (Some s).
Proof.
  intros Hymd Hy (Hyear & Hmonth & Hday).
  assert (Hkey : Stats.dateKeyFromLocal (PStr s) = Some s).
  { unfold Stats.dateKeyFromLocal. rewrite Hymd.
    destruct (ymd_of_text_shape s y m d Hymd)
      as (y1 & y2 & y3 & y4 & m1 & m2 & d1 & d2 & Hs & Hdigits & Hy' & Hm' & Hd').
    assert (Htruthy : truthyP (PStr s) = true) by (rewrite Hs; reflexivity).
    rewrite Htruthy. simpl negb. cbv iota.
    rewrite Hyear, Hmonth, Hday.
    replace (m - 1 + 1)%Z with m by lia.
    simpl in Hdigits.
    repeat match goal with
           | Hx : _ && _ = true |- _ => apply andb_prop in Hx as [? Hx]
           end.
    rewrite Hy' in Hy |- *. rewrite Hm', Hd'.
    rewrite four_digits_print, !two_digits_print by auto using is_digit_In.
    rewrite Hs. reflexivity. }
  split; [ exact Hkey | ].
  intros events run event Hevent Hdate.
  unfold Stats.dateKey_of. rewrite Hevent, Hdate, Hkey. reflexivity.
Qed.

End DayKeys.

Lemma dateKeyFromLocal_keeps_the_day_witness :
  Stats.dateKeyFromLocal (H := Sample.host) (PStr "2024-03-08")
  = Some "2024-03-08"
  /\ Stats.dateKey_of (H := Sample.host) Sample.events Sample.r2
     = Ok (Some "2024-03-08").
Proof.
  destruct (dateKeyFromLocal_keeps_the_day (H := Sample.host)
              "2024-03-08" 2024 3 8) as [Hkey Hrun].
  - reflexivity.
  - lia.
  - vm_compute. auto.
  - split; [ exact Hkey | ].
    apply (Hrun Sample.events Sample.r2
                (Event.mk (PStr "e2") (PStr "t1") (PStr "2024-03-08")));
      reflexivity.
Defined.

Section Reaggregation.
Context {H : Host}.
Variables (events : list Event.t) (tracks : list Track.t) (cars : list Car.t).

Lemma filter_filter {A : Type} (f : A -> bool) (l : list A) :
  filter f (filter f l) = filter f l.
Proof.
  induction l as [ | a l IH ]; simpl; [ reflexivity | ].
  destruct (f a) eqn:Hf; simpl; rewrite ?Hf, IH; reflexivity.
Qed.

(** X18. The result of an aggregation depends on the runs only through
    the runs it keeps: aggregating the kept runs again, with the same
    filters or with none, gives the same result. *)
Theorem aggregateRuns_of_kept_runs (runs : list Run.t) (filters : Filters.t)
        (agg : Stats.Aggregate) :
  Stats.aggregateRuns runs events tracks cars filters = Ok agg ->
  Stats.aggregateRuns (Stats.filteredRuns agg) events tracks cars filters = Ok agg
  /\ Stats.aggregateRuns (Stats.filteredRuns agg) events tracks cars Filters.none
     = Ok agg.
Proof.
  intros Hagg.
  pose proof (aggregateRuns_filtered events tracks cars _ _ _ Hagg)
    as (Hkept & _).
  assert (Hsame : filter (Stats.keep_run events filters) (Stats.filteredRuns agg)
                  = Stats.filteredRuns agg)
    by (rewrite Hkept; apply filter_filter).
  assert (Hall : filter (Stats.keep_run events Filters.none) (Stats.filteredRuns agg)
                 = Stats.filteredRuns agg)
    by (apply filter_all; reflexivity).
  unfold Stats.aggregateRuns in *.
  rewrite Hsame, Hall. rewrite <- Hkept in Hagg. auto.
Qed.

End Reaggregation.

Lemma aggregateRuns_of_kept_runs_witness :
  match Stats.aggregateRuns (H := Sample.host) Sample.runs Sample.events
                            Sample.tracks Sample.cars Sample.on_track_t1 with
  | Ok agg =>
      Stats.aggregateRuns (H := Sample.host) (Stats.filteredRuns agg)
                          Sample.events Sample.tracks Sample.cars Filters.none
      = Ok agg
  | Throw _ => False
  end.
Proof.
  destruct (Stats.aggregateRuns Sample.runs Sample.events Sample.tracks
                                Sample.cars Sample.on_track_t1)
    as [agg | e] eqn:Hagg.
  - apply (aggregateRuns_of_kept_runs _ _ _ _ _ _ Hagg).
  - vm_compute in Hagg. discriminate.
Defined.

(** * The enrichment of the analytics loader *)

Section Enrichment.
Context {H : Host}.

Lemma same_value_zero_strict (a b : Prim) :
  (forall x, a <> PNum x) -> Stats.same_value_zero a b = strict_eq a b.
Proof.
  intros Hnum. destruct a; try reflexivity. exfalso. eapply Hnum. reflexivity.
Qed.

Lemma Map_get_find_event (events : list Event.t) (id : Prim) :
  (forall e, In e events -> forall x, Event.id e <> PNum x) ->
  App.Map_get (map (fun e => (Event.id e, e)) events) id
  = Stats.find_event events id.
Proof.
  unfold Stats.find_event.
  induction events as [ | e events IH ]; simpl; intros Hnum; [ reflexivity | ].
  rewrite same_value_zero_strict by (apply Hnum; left; reflexivity).
  destruct (strict_eq (Event.id e) id); [ reflexivity | ].
  apply IH. intros e' He'. apply Hnum. right. exact He'.
Qed.

(** X19. The track the analytics loader attaches to a run is the one
    the aggregator's track filter tests: with event ids that are
    distinct texts, a run passes a track filter exactly when the
    [trackId] of the enriched run is the filter's value; and the
    enriched run carries its event's date, or null without event. *)
Theorem enrich_agrees_with_track_filter
        (events : list Event.t) (filters : Filters.t) (track : string)
        (run : Run.t) :
  NoDup (map Event.id events) ->
  (forall e, In e events -> forall x, Event.id e <> PNum x) ->
  Filters.trackId filters = PStr track -> track <> "" ->
  let enriched := App.enrich (map (fun e => (Event.id e, e)) events) run in
  Stats.keep_run events (only_track filters) run
  = strict_eq (Run.trackId enriched) (PStr track)
  /\ Run.eventDate enriched
     = match Stats.find_event events (Run.eventId run) with
       | Some event => Event.date event
       | None => PNull
       end.
Proof.
  intros _ Hnum Hfilter Htrack enriched.
  subst enriched. unfold App.enrich, Stats.keep_run, only_track.
  cbn [Filters.carId Filters.trackId Filters.dateFrom Filters.dateTo
       Filters.sessionType Run.trackId Run.eventDate Run.eventId].
  rewrite (Map_get_find_event events _ Hnum), Hfilter.
  assert (Htruthy : truthyP (PStr track) = true).
  { simpl. destruct (String.eqb_spec track ""); [ contradiction | reflexivity ]. }
  rewrite Htruthy.
  change (truthyP PUndef) with false. cbn [andb orb].
  destruct (Stats.find_event events (Run.eventId run)) as [event | ];
    [ | split; reflexivity ].
  split; [ | reflexivity ].
  assert (Hfalsy : forall a, truthyP a = false -> strict_eq a (PStr track) = false).
  { intros [ | | x | s ]; try reflexivity. simpl.
    destruct (String.eqb_spec s "") as [-> | ]; [ | discriminate ].
    intros _. destruct (String.eqb_spec "" track); [ congruence | reflexivity ]. }
  unfold orP. destruct (truthyP (Event.trackId event)) eqn:Hev.
  - destruct (strict_eq (Event.trackId event) (PStr track)); reflexivity.
  - rewrite (Hfalsy _ Hev). reflexivity.
Qed.

End Enrichment.

Lemma enrich_agrees_with_track_filter_witness :
  Stats.keep_run (H := Sample.host) Sample.events
                 (only_track Sample.on_track_t1) Sample.r3
  = strict_eq (Run.trackId (App.enrich
                              (map (fun e => (Event.id e, e)) Sample.events)
                              Sample.r3))
              (PStr "t1").
Proof.
  apply (enrich_agrees_with_track_filter (H := Sample.host) Sample.events
           Sample.on_track_t1 "t1" Sample.r3).
  - unfold Sample.events. simpl.
    repeat (constructor; [ simpl; intuition discriminate | ]). constructor.
  - intros e [<- | [<- | [<- | []]]] x; discriminate.
  - reflexivity.
  - discriminate.
Defined.

(** * Gearing calculators *)

Section Calculators.
Import Calc.

Lemma is_finite_cases (b : float) :
  PrimFloat.is_finite b = true ->
  (exists s, Prim2SF b = S754_zero s)
  \/ (exists s m e, Prim2SF b = S754_finite s m e).
Proof.
  unfold PrimFloat.is_finite, PrimFloat.is_nan, PrimFloat.is_infinity.
  rewrite !eqb_spec, abs_spec.
  destruct (Prim2SF b) as [s | s | | s m e]; simpl.
  - eauto.
  - destruct s; vm_compute; discriminate.
  - vm_compute. discriminate.
  - eauto.
Qed.

Lemma no_change_is_zero (b : float) :
  PrimFloat.is_finite b = true -> PrimFloat.eqb b 0 = false ->
  ((b - b) / PrimFloat.abs b * 100)%float = 0%float.
Proof.
  intros Hfin Hnz. apply Prim2SF_inj.
  rewrite mul_spec, div_spec, sub_spec, abs_spec.
  destruct (is_finite_cases b Hfin) as [(s & Hb) | (s & m & e & Hb)].
  - rewrite eqb_spec, Hb in Hnz. destruct s; vm_compute in Hnz; discriminate.
  - rewrite Hb. unfold SF64sub, SFsub. rewrite Z.sub_diag. reflexivity.
Qed.

(** X20. Comparing a gearing with itself reports no change: each of
    the two percentages is 0 when its ratio (or rollout) is a finite
    number other than 0, and null otherwise, never another value. *)
Theorem compareGearing_same_spec (spec : Spec) :
  let result := compareGearing spec spec in
  (finalDrivePercent (change result)
   = match finalDriveRatio (before result) with
     | Some ratio =>
         if PrimFloat.is_finite ratio && truthyP (PNum ratio)
         then Some 0%float else None
     | None => None
     end)
  /\ (rolloutPercent (change result)
      = match rolloutMm (before result) with
        | Some rollout =>
            if PrimFloat.is_finite rollout && truthyP (PNum rollout)
            then Some 0%float else None
        | None => None
        end).
Proof.
  assert (Hsame : forall v : option float,
            (if truthyN v && truthyN v then percentChange v v else None)
            = match v with
              | Some x => if PrimFloat.is_finite x && truthyP (PNum x)
                          then Some 0%float else None
              | None => None
              end).
  { intros [x | ]; [ | reflexivity ]. unfold percentChange, truthyN, Number_of.
    cbn [truthyP]. rewrite andb_diag.
    destruct (PrimFloat.eqb x 0) eqn:Hz; cbn [orb negb andb].
    - rewrite ?andb_false_r, ?orb_true_r. reflexivity.
    - destruct (isNaN x) eqn:Hn; cbn [negb].
      + assert (Hfin : PrimFloat.is_finite x = false).
        { unfold PrimFloat.is_finite, PrimFloat.is_nan.
          unfold isNaN in Hn. rewrite Hn. reflexivity. }
        rewrite Hfin. reflexivity.
      + destruct (PrimFloat.is_finite x) eqn:Hfin; cbn [negb orb andb];
          [ | reflexivity ].
        rewrite (no_change_is_zero x Hfin Hz). reflexivity. }
  intros result. split; apply Hsame.
Qed.

End Calculators.

(** * Grouping runs by event *)

Section EventGroups.
Context {H : Host}.

Lemma set_event_fresh (k : string) (e : Event.t)
      (o : list (string * Events.Group)) :
  ~ In k (map fst o) ->
  Events.set_event k e o = o ++ [(k, Events.mkGroup e [])].
Proof.
  induction o as [ | [k' g] o IH ]; simpl; intros Hnew; [ reflexivity | ].
  destruct (String.eqb_spec k k') as [-> | Hne]; [ exfalso; auto | ].
  rewrite IH by auto. reflexivity.
Qed.

Lemma add_events_fresh (events : list Event.t) :
  forall o,
    NoDup (map fst o ++ map event_key events) ->
    fold_left Events.add_event events o
    = o ++ map (fun e => (event_key e, Events.mkGroup e [])) events.
Proof.
  induction events as [ | e events IH ]; intros o Hnd; simpl.
  - rewrite app_nil_r. reflexivity.
  - unfold Events.add_event at 2. fold (event_key e).
    rewrite set_event_fresh.
    + rewrite IH.
      * rewrite <- app_assoc. reflexivity.
      * rewrite map_app. simpl. rewrite <- app_assoc. exact Hnd.
    + simpl in Hnd. apply NoDup_remove_2 in Hnd.
      intros Hin. apply Hnd. apply in_or_app. left. exact Hin.
Qed.

Lemma push_run_groups (k : string) (run : Run.t) (events : list Event.t)
      (rs : Event.t -> list Run.t) :
  NoDup (map event_key events) ->
  Events.push_run k run
    (map (fun e => (event_key e, Events.mkGroup e (rs e))) events)
  = map (fun e => (event_key e,
                   Events.mkGroup e (if String.eqb k (event_key e)
                                     then rs e ++ [run] else rs e)))
        events.
Proof.
  induction events as [ | e events IH ]; simpl; intros Hnd; [ reflexivity | ].
  apply NoDup_cons_iff in Hnd as [Hfresh Hnd].
  destruct (String.eqb_spec k (event_key e)) as [-> | Hne]; simpl.
  - f_equal. apply map_ext_in. intros e' He'.
    destruct (String.eqb_spec (event_key e) (event_key e')) as [Heq | ];
      [ | reflexivity ].
    exfalso. apply Hfresh. rewrite Heq. apply in_map, He'.
  - f_equal. apply IH, Hnd.
Qed.

Lemma add_runs_groups (events : list Event.t) (runs : list Run.t) :
  NoDup (map event_key events) ->
  forall done,
    fold_left Events.add_run runs
      (map (fun e => (event_key e,
                      Events.mkGroup e (filter (run_of_event e) done))) events)
    = map (fun e => (event_key e,
                     Events.mkGroup e (filter (run_of_event e) (done ++ runs))))
          events.
Proof.
  intros Hnd. induction runs as [ | run runs IH ]; intros done; simpl.
  - rewrite app_nil_r. reflexivity.
  - replace (done ++ run :: runs) with ((done ++ [run]) ++ runs)
      by (rewrite <- app_assoc; reflexivity).
    rewrite <- IH. f_equal. unfold Events.add_run.
    destruct (truthyP (Run.eventId run)) eqn:Hid.
    + assert (Hrun : forall e,
                run_of_event e run
                = String.eqb (Stats.toStringP (Run.eventId run)) (event_key e))
        by (intros e; unfold run_of_event; rewrite Hid; reflexivity).
      rewrite push_run_groups by exact Hnd.
      apply map_ext. intros e. rewrite filter_app. cbn [filter].
      rewrite Hrun.
      destruct (String.eqb _ (event_key e)); rewrite ?app_nil_r; reflexivity.
    + assert (Hrun : forall e, run_of_event e run = false)
        by (intros e; unfold run_of_event; rewrite Hid; reflexivity).
      apply map_ext. intros e. rewrite filter_app. cbn [filter].
      rewrite Hrun, app_nil_r. reflexivity.
Qed.

(** X21. With events filed under distinct ordinary keys,
    [groupRunsByEvent] returns one group for each event that has runs
    and none for the others; a group holds all the runs that name its
    event, in their order, and nothing else, so a run without event
    id or with an unknown one is in no group; and the groups come
    most recent event first, an event without readable date counting
    as the epoch. *)
Theorem groupRunsByEvent_groups (runs : list Run.t) (events : list Event.t) :
  NoDup (map event_key events) ->
  (forall e, In e events -> ordinary_key (event_key e) = true) ->
  (forall run, In run runs ->
               ordinary_key (Stats.toStringP (Run.eventId run)) = true) ->
  let groups := Events.groupRunsByEvent runs events in
  (forall g, In g groups <->
             In (Events.event g) events
             /\ Events.runs g = filter (run_of_event (Events.event g)) runs
             /\ Events.runs g <> [])
  /\ NoDup (map (fun g => event_key (Events.event g)) groups)
  /\ StronglySorted
       (fun a b => (Events.group_time b <= Events.group_time a)%Z) groups.
Proof.
  intros Hnd _ _ groups.
  set (group_of := fun e => Events.mkGroup e (filter (run_of_event e) runs)).
  set (kept := filter (fun item => (0 <? List.length (Events.runs item))%nat)
                      (map group_of events)).
  assert (Hgroups : groups = sort Events.most_recent_first kept).
  { unfold groups, Events.groupRunsByEvent, kept.
    rewrite (add_events_fresh events []) by exact Hnd. cbn [app].
    change (map (fun e => (event_key e, Events.mkGroup e [])) events)
      with (map (fun e => (event_key e,
                           Events.mkGroup e (filter (run_of_event e) [])))
                events).
    rewrite (add_runs_groups events runs Hnd []). cbn [app].
    rewrite map_map. reflexivity. }
  assert (Hkept : forall g, In g kept <->
                            In (Events.event g) events
                            /\ Events.runs g
                               = filter (run_of_event (Events.event g)) runs
                            /\ Events.runs g <> []).
  { intros g. unfold kept. rewrite filter_In, in_map_iff. split.
    - intros [(e & <- & He) Hsome]. simpl in *.
      split; [ exact He | split; [ reflexivity | ] ].
      destruct (filter (run_of_event e) runs); [ discriminate | discriminate ].
    - intros (He & Hruns & Hsome). split.
      + exists (Events.event g). split; [ | exact He ].
        unfold group_of. rewrite <- Hruns. destruct g; reflexivity.
      + destruct (Events.runs g); [ contradiction | reflexivity ]. }
  split; [ | split ].
  - intros g. rewrite Hgroups, sort_In. apply Hkept.
  - rewrite Hgroups.
    apply (Permutation_NoDup
             (l := map (fun g => event_key (Events.event g)) kept)).
    + apply Permutation_map, Permutation_sym, sort_perm.
    + unfold kept. clear Hgroups Hkept.
      induction events as [ | e events IH ]; simpl; [ constructor | ].
      apply NoDup_cons_iff in Hnd as [Hfresh Hnd].
      destruct (0 <? List.length (filter (run_of_event e) runs))%nat; simpl;
        [ | apply IH, Hnd ].
      constructor; [ | apply IH, Hnd ].
      intros Hin. apply in_map_iff in Hin as (g & Hg & Hin).
      apply filter_In in Hin as [Hin _].
      apply in_map_iff in Hin as (e' & <- & He'). simpl in Hg.
      apply Hfresh. rewrite <- Hg. apply in_map, He'.
  - rewrite Hgroups.
    apply (StronglySorted_weaken
             (fun u v => (- Events.group_time u <= - Events.group_time v)%Z)).
    + intros a b _ _ Hab. lia.
    + apply (sort_ordered Events.most_recent_first
                          (fun g => (- Events.group_time g)%Z)).
      intros a b _ _. unfold Events.most_recent_first. f_equal. lia.
Qed.

End EventGroups.

Lemma groupRunsByEvent_groups_witness :
  map (fun g => (Event.id (Events.event g), map Run.id (Events.runs g)))
      (Events.groupRunsByEvent (H := Sample.host) Sample.runs Sample.events)
  = [(PStr "e2", [PStr "r2"]); (PStr "e3", [PStr "r3"]);
     (PStr "e1", [PStr "r1"; PStr "r5"])]
  /\ NoDup (map (fun g => event_key (H := Sample.host) (Events.event g))
                (Events.groupRunsByEvent (H := Sample.host)
                                         Sample.runs Sample.events)).
Proof.
  split; [ reflexivity | ].
  apply (groupRunsByEvent_groups (H := Sample.host) Sample.runs Sample.events).
  - unfold Sample.events. simpl.
    repeat (constructor; [ simpl; intuition discriminate | ]). constructor.
  - intros e [<- | [<- | [<- | []]]]; reflexivity.
  - intros run Hrun.
    repeat (destruct Hrun as [<- | Hrun]; [ reflexivity | ]).
    destruct Hrun.
Defined.

(** * The overall best lap against the charts *)

Section BestEverywhere.
Context {H : Host}.
Variables (events : list Event.t) (tracks : list Track.t) (cars : list Car.t).

Lemma best_of_part (kept part : list Run.t) (m : float) :
  incl part kept ->
  Stats.min_or_null (Stats.valid_laps Run.bestLap part) = Some m ->
  exists best,
    Stats.min_or_null (Stats.valid_laps Run.bestLap kept) = Some best
    /\ PrimFloat.leb best m = true.
Proof.
  intros Hincl Hm.
  pose proof (min_or_null_least _ (valid_laps_not_nan Run.bestLap part)) as Hpart.
  rewrite Hm in Hpart. destruct Hpart as [Hin _].
  apply valid_laps_In in Hin as (run & Hrun & Hlap).
  assert (Hkept : In m (Stats.valid_laps Run.bestLap kept))
    by (apply valid_laps_In; exists run; auto).
  pose proof (min_or_null_least _ (valid_laps_not_nan Run.bestLap kept)) as Hall.
  destruct (Stats.min_or_null (Stats.valid_laps Run.bestLap kept)) as [best | ].
  - exists best. split; [ reflexivity | ].
    destruct Hall as [_ Hleast]. rewrite Forall_forall in Hleast.
    apply Hleast, Hkept.
  - rewrite Hall in Hkept. contradiction.
Qed.

(** X22. The overall best lap is at least as good as every best lap
    shown elsewhere in the result: whenever a trend point or a track
    row carries a best lap, the indicators carry one too and it is not
    above it.  The track ids are taken to be ordinary keys. *)
Theorem overall_best_lap_bounds_the_charts (runs : list Run.t)
        (filters : Filters.t) (agg : Stats.Aggregate) :
  (forall track, In track tracks ->
                 ordinary_key (Stats.toStringP (Track.id track)) = true) ->
  Stats.aggregateRuns runs events tracks cars filters = Ok agg ->
  (forall p m, In p (Stats.trendSeries agg) -> Stats.bestLap p = Some m ->
               exists best, Stats.bestLapMin (Stats.kpis agg) = Some best
                            /\ PrimFloat.leb best m = true)
  /\ (forall row m, In row (Stats.byTrack agg) ->
                    Stats.ts_bestLapMin row = Some m ->
                    exists best, Stats.bestLapMin (Stats.kpis agg) = Some best
                                 /\ PrimFloat.leb best m = true).
Proof.
  intros _ Hagg.
  apply aggregateRuns_filtered in Hagg as (_ & Hkpis & Hts & Htracks).
  set (kept := Stats.filteredRuns agg) in *.
  rewrite Hkpis. cbn [Stats.calculateKPIs Stats.bestLapMin].
  split.
  - intros p m Hp Hm.
    unfold Stats.buildTrendSeries in Hts.
    destruct (Stats.group_by_date events kept []) as [o | e] eqn:Hgroup;
      simpl in Hts; [ | discriminate ].
    injection Hts as Hseries.
    pose proof (group_by_date_Grouped events _ [] [] o (Grouped_nil events) Hgroup)
      as (_ & Hrs & _). simpl in Hrs.
    rewrite <- Hseries in Hp. apply sort_In in Hp.
    apply in_map_iff in Hp as ([k rs] & <- & Hin).
    destruct (Hrs _ _ Hin) as [Heq _]. simpl in Hm.
    apply (best_of_part kept rs m); [ | exact Hm ].
    rewrite Heq. intros run Hrun. apply filter_In in Hrun. tauto.
  - intros row m Hrow Hm.
    rewrite Htracks in Hrow. unfold Stats.calculateByTrack in Hrow.
    apply sort_In in Hrow.
    apply in_map_iff in Hrow as ([k td] & <- & Hin). simpl in Hm.
    assert (Ht : Tracked events tracks kept
                   (fold_left (Stats.track_step events tracks) kept [])).
    { apply (fold_track_step_Tracked events tracks kept [] []).
      repeat split; simpl; try constructor; contradiction. }
    destruct Ht as (_ & Hrs & _).
    destruct (Hrs _ _ Hin) as (_ & _ & Hb & _).
    rewrite Hb in Hm.
    apply (best_of_part kept (filter (on_track events tracks k) kept) m);
      [ | exact Hm ].
    intros run Hrun. apply filter_In in Hrun. tauto.
Qed.

End BestEverywhere.

Lemma overall_best_lap_bounds_the_charts_witness :
  match Stats.aggregateRuns (H := Sample.host) Sample.runs Sample.events
                            Sample.tracks Sample.cars Filters.none with
  | Ok agg =>
      Forall (fun row =>
                match Stats.ts_bestLapMin row, Stats.bestLapMin (Stats.kpis agg) with
                | Some m, Some best => PrimFloat.leb best m = true
                | Some _, None => False
                | None, _ => True
                end)
             (Stats.byTrack agg)
  | Throw _ => False
  end.
Proof.
  destruct (Stats.aggregateRuns Sample.runs Sample.events Sample.tracks
                                Sample.cars Filters.none) as [agg | e] eqn:Hagg.
  - apply Forall_forall. intros row Hrow.
    destruct (Stats.ts_bestLapMin row) as [m | ] eqn:Hm; [ | exact I ].
    destruct (overall_best_lap_bounds_the_charts
                (H := Sample.host) Sample.events Sample.tracks Sample.cars
                Sample.runs Filters.none agg) as [_ Htrack].
    + intros track [<- | [<- | []]]; reflexivity.
    + exact Hagg.
    + destruct (Htrack row m Hrow Hm) as (best & -> & Hle). exact Hle.
  - vm_compute in Hagg. discriminate.
Defined.

(** * Aggregating enriched runs *)

Section SameReading.
Context {H : Host}.
Variables (events : list Event.t) (tracks : list Track.t) (cars : list Car.t).

(** A change of the runs that leaves alone every field the aggregator
    reads. *)
Variable g : Run.t -> Run.t.
Hypothesis g_eventId : forall r, Run.eventId (g r) = Run.eventId r.
Hypothesis g_carId : forall r, Run.carId (g r) = Run.carId r.
Hypothesis g_sessionType : forall r, Run.sessionType (g r) = Run.sessionType r.
Hypothesis g_createdAt : forall r, Run.createdAt (g r) = Run.createdAt r.
Hypothesis g_bestLap : forall r, Run.bestLap (g r) = Run.bestLap r.
Hypothesis g_avgLap : forall r, Run.avgLap (g r) = Run.avgLap r.

Lemma keep_run_same (filters : Filters.t) (r : Run.t) :
  Stats.keep_run events filters (g r) = Stats.keep_run events filters r.
Proof.
  unfold Stats.keep_run.
  rewrite g_eventId, g_carId, g_sessionType, g_createdAt. reflexivity.
Qed.

Lemma filter_map_same {A : Type} (f : A -> bool) (h : A -> A) (l : list A) :
  (forall a, f (h a) = f a) -> filter f (map h l) = map h (filter f l).
Proof.
  intros Hf. induction l as [ | a l IH ]; simpl; [ reflexivity | ].
  rewrite Hf. destruct (f a); simpl; rewrite IH; reflexivity.
Qed.

Lemma valid_laps_same (f : Run.t -> Prim) (l : list Run.t) :
  (forall r, f (g r) = f r) ->
  Stats.valid_laps f (map g l) = Stats.valid_laps f l.
Proof.
  intros Hf. unfold Stats.valid_laps.
  induction l as [ | r l IH ]; simpl; [ reflexivity | ].
  rewrite Hf, IH. reflexivity.
Qed.

Lemma calculateKPIs_same (l : list Run.t) :
  Stats.calculateKPIs (map g l) = Stats.calculateKPIs l.
Proof.
  unfold Stats.calculateKPIs.
  rewrite !valid_laps_same by assumption.
  rewrite length_map, map_map.
  rewrite (map_ext _ Run.eventId g_eventId). reflexivity.
Qed.

Lemma dateKey_of_same (r : Run.t) :
  Stats.dateKey_of events (g r) = Stats.dateKey_of events r.
Proof.
  unfold Stats.dateKey_of, Stats.dated_event.
  rewrite g_eventId, g_createdAt. reflexivity.
Qed.

Lemma push_at_same (k : string) (r : Run.t) (o : list (string * list Run.t)) :
  Stats.push_at k (g r) (map_groups g o) = map_groups g (Stats.push_at k r o).
Proof.
  induction o as [ | [k' rs] o IH ]; simpl; [ reflexivity | ].
  destruct (String.eqb k k'); simpl.
  - rewrite map_app. reflexivity.
  - rewrite IH. reflexivity.
Qed.

Lemma group_by_date_same (l : list Run.t) :
  forall o,
    Stats.group_by_date events (map g l) (map_groups g o)
    = match Stats.group_by_date events l o with
      | Ok o' => Ok (map_groups g o')
      | Throw e => Throw e
      end.
Proof.
  induction l as [ | r l IH ]; intros o; simpl; [ reflexivity | ].
  rewrite dateKey_of_same.
  destruct (Stats.dateKey_of events r) as [[k | ] | e]; simpl.
  - rewrite push_at_same. apply IH.
  - apply IH.
  - reflexivity.
Qed.

Lemma trend_points_same (o : list (string * list Run.t)) :
  map Stats.trend_point (map_groups g o) = map Stats.trend_point o.
Proof.
  unfold map_groups. rewrite map_map. apply map_ext. intros [k rs]. simpl.
  rewrite !valid_laps_same by assumption. reflexivity.
Qed.

Lemma buildTrendSeries_same (l : list Run.t) :
  Stats.buildTrendSeries (map g l) events = Stats.buildTrendSeries l events.
Proof.
  unfold Stats.buildTrendSeries.
  pose proof (group_by_date_same l []) as Hgroup.
  change (map_groups g []) with (@nil (string * list Run.t)) in Hgroup.
  rewrite Hgroup.
  destruct (Stats.group_by_date events l []) as [o | e];
    simpl; [ | reflexivity ].
  rewrite trend_points_same. reflexivity.
Qed.

Lemma track_step_same (o : list (string * Stats.TrackData)) (r : Run.t) :
  Stats.track_step events tracks o (g r) = Stats.track_step events tracks o r.
Proof.
  unfold Stats.track_step. rewrite g_eventId.
  destruct (Stats.find_event events (Run.eventId r)) as [event | ];
    [ | reflexivity ].
  destruct (negb (truthyP (Event.trackId event))); [ reflexivity | ].
  destruct (Stats.find_track tracks (Event.trackId event)) as [track | ];
    [ | reflexivity ].
  induction o as [ | [k td] o IH ]; simpl.
  - unfold Stats.record_run. rewrite g_bestLap, g_avgLap. reflexivity.
  - destruct (String.eqb _ k).
    + unfold Stats.record_run. rewrite g_bestLap, g_avgLap. reflexivity.
    + rewrite IH. reflexivity.
Qed.

Lemma calculateByTrack_same (l : list Run.t) :
  Stats.calculateByTrack (map g l) events tracks
  = Stats.calculateByTrack l events tracks.
Proof.
  unfold Stats.calculateByTrack. f_equal. f_equal.
  generalize (@nil (string * Stats.TrackData)).
  induction l as [ | r l IH ]; intros o; simpl; [ reflexivity | ].
  rewrite track_step_same. apply IH.
Qed.

Lemma aggregateRuns_same (runs : list Run.t) (filters : Filters.t) :
  Stats.aggregateRuns (map g runs) events tracks cars filters
  = match Stats.aggregateRuns runs events tracks cars filters with
    | Ok agg =>
        Ok {| Stats.filteredRuns := map g (Stats.filteredRuns agg);
              Stats.kpis := Stats.kpis agg;
              Stats.trendSeries := Stats.trendSeries agg;
              Stats.byTrack := Stats.byTrack agg |}
    | Throw e => Throw e
    end.
Proof.
  unfold Stats.aggregateRuns.
  rewrite (filter_map_same _ g runs (keep_run_same filters)).
  rewrite buildTrendSeries_same, calculateKPIs_same, calculateByTrack_same.
  destruct (Stats.buildTrendSeries _ events); reflexivity.
Qed.

End SameReading.

Section EnrichedAggregation.
Context {H : Host}.

(** X23. Aggregating the runs as the analytics loader enriches them
    gives the indicators, the trend series and the per-track summary
    of the stored runs: the aggregator reads none of the attached
    fields, and the runs it keeps are the enriched copies of the runs
    it would keep; it fails on the one exactly when it fails on the
    other. *)
Theorem aggregateRuns_ignores_enrichment
        (eventsById : list (Prim * Event.t)) (runs : list Run.t)
        (events : list Event.t) (tracks : list Track.t) (cars : list Car.t)
        (filters : Filters.t) :
  Stats.aggregateRuns (map (App.enrich eventsById) runs) events tracks cars filters
  = match Stats.aggregateRuns runs events tracks cars filters with
    | Ok agg =>
        Ok {| Stats.filteredRuns :=
                map (App.enrich eventsById) (Stats.filteredRuns agg);
              Stats.kpis := Stats.kpis agg;
              Stats.trendSeries := Stats.trendSeries agg;
              Stats.byTrack := Stats.byTrack agg |}
    | Throw e => Throw e
    end.
Proof. apply aggregateRuns_same; reflexivity. Qed.

End EnrichedAggregation.

(** * The time field of the run-log form *)

Section NonNegative.
Local Open Scope Z_scope.

Lemma binary_round_aux_nonneg (mx ex : Z) (lx : location) :
  0 <= mx -> nonneg_sf (binary_round_aux prec emax false mx ex lx).
Proof.
  intros Hm. unfold binary_round_aux.
  pose proof (shr_fexp_nonneg mx ex lx Hm) as H1.
  destruct (shr_fexp prec emax mx ex lx) as [mrs' e']. simpl in H1.
  pose proof (shr_fexp_nonneg _ e' loc_Exact
                (round_nearest_even_nonneg _ (loc_of_shr_record mrs') H1)) as H2.
  destruct (shr_fexp prec emax _ e' loc_Exact) as [mrs'' e'']. simpl in H2.
  destruct (shr_m mrs'') as [ | m | m ]; [ exact I | | lia ].
  destruct (e'' <=? emax - prec); exact I.
Qed.

Lemma binary_round_nonneg (mx : positive) (ex : Z) :
  nonneg_sf (binary_round prec emax false mx ex).
Proof.
  unfold binary_round. destruct (shl_align _ _ _) as [mz ez].
  apply binary_round_aux_nonneg. lia.
Qed.

Lemma binary_normalize_nonneg (m e : Z) :
  0 <= m -> nonneg_sf (binary_normalize prec emax m e false).
Proof.
  destruct m; simpl; intros Hm; [ exact I | apply binary_round_nonneg | lia ].
Qed.

Lemma SFdiv_finite_nonneg (mx my : positive) (ex ey : Z) :
  nonneg_sf (SFdiv prec emax (S754_finite false mx ex) (S754_finite false my ey)).
Proof.
  simpl. unfold SFdiv_core_binary.
  set (m' := match _ with Zpos _ => _ | Z0 => _ | Zneg _ => _ end).
  assert (Hm' : 0 <= m').
  { subst m'. destruct (_ - _ - _); try lia. apply Z.shiftl_nonneg. lia. }
  pose proof (Z_div_mod m' (Zpos my) ltac:(lia)) as Hdiv.
  destruct (Z.div_eucl m' (Zpos my)) as [q r].
  apply binary_round_aux_nonneg. nia.
Qed.

Lemma SFldexp_nonneg (f : spec_float) (e : Z) :
  nonneg_sf f -> nonneg_sf (SFldexp prec emax f e).
Proof.
  destruct f as [ [ | ] | [ | ] | | [ | ] m ex ]; simpl; try tauto.
  intros _. apply binary_round_nonneg.
Qed.

Lemma to_Z_nonneg (i : PrimInt63.int) : 0 <= Uint63Axioms.to_Z i.
Proof.
  unfold Uint63Axioms.to_Z. generalize Uint63Axioms.size. intros n. revert i.
  induction n as [ | n IH ]; intros i; simpl; [ lia | ].
  destruct (Uint63Axioms.is_even i);
    [ rewrite Z.double_spec | rewrite Z.succ_double_spec ];
    match goal with
    | |- context [Uint63Axioms.to_Z_rec n ?j] => specialize (IH j)
    end; lia.
Qed.

Lemma SF2Prim_nonneg (sf : spec_float) :
  nonneg_sf sf -> nonneg_sf (Prim2SF (SF2Prim sf)).
Proof.
  destruct sf as [ [ | ] | [ | ] | | [ | ] m e ]; simpl; try tauto;
    intros _; try exact I.
  unfold Z.ldexp. rewrite ldshiftexp_spec. apply SFldexp_nonneg.
  rewrite of_uint63_spec. apply binary_normalize_nonneg, to_Z_nonneg.
Qed.

Lemma float_of_Z_nonneg (z : Z) :
  0 <= z -> nonneg_sf (Prim2SF (float_of_Z z)).
Proof.
  intros Hz. unfold float_of_Z.
  apply SF2Prim_nonneg, binary_normalize_nonneg, Hz.
Qed.

Lemma decimal_to_float_nonneg (m e : Z) :
  0 <= m -> nonneg_sf (Prim2SF (decimal_to_float false m e)).
Proof.
  intros Hm. unfold decimal_to_float.
  destruct m as [ | mp | mp ]; [ exact I | | lia ].
  apply SF2Prim_nonneg.
  destruct e; [ | | apply SFdiv_finite_nonneg ];
    apply binary_normalize_nonneg; unfold cond_Zopp;
    (apply Z.mul_nonneg_nonneg; [ lia | apply Z.pow_nonneg; lia ]).
Qed.

Lemma SFmul_nonneg (x : spec_float) (m : positive) (e : Z) :
  nonneg_sf x -> nonneg_sf (SFmul prec emax x (S754_finite false m e)).
Proof.
  destruct x as [ [ | ] | [ | ] | | [ | ] mx ex ]; simpl; try tauto.
  intros _. apply binary_round_aux_nonneg. lia.
Qed.

Lemma SFadd_nonneg (x y : spec_float) :
  nonneg_sf x -> nonneg_sf y -> nonneg_sf (SFadd prec emax x y).
Proof.
  destruct x as [ [ | ] | [ | ] | | [ | ] mx ex ]; simpl; try tauto;
    destruct y as [ [ | ] | [ | ] | | [ | ] my ey ]; simpl; try tauto.
  intros _ _. apply binary_round_nonneg.
Qed.

Lemma read_digits_nonneg (s : string) :
  forall acc count, 0 <= acc -> 0 <= fst (fst (read_digits acc count s)).
Proof.
  induction s as [ | c s IH ]; intros acc count Hacc; cbn [read_digits fst];
    [ exact Hacc | ].
  destruct (digit_of c) as [d | ] eqn:Hd; cbn [fst]; [ | exact Hacc ].
  apply IH. unfold digit_of in Hd.
  destruct ((48 <=? Z.of_nat (nat_of_ascii c))
            && (Z.of_nat (nat_of_ascii c) <=? 57)) eqn:Hrange;
    [ | discriminate ].
  injection Hd as <-. apply andb_prop in Hrange as [Hlo _].
  apply Z.leb_le in Hlo. lia.
Qed.

End NonNegative.

Section TimeInput.
Import Forms.

Lemma nonneg_float (x : float) :
  nonneg_sf (Prim2SF x) -> isNaN x = false /\ PrimFloat.leb 0 x = true.
Proof.
  intros Hx. split.
  - apply not_nan_isNaN. intros Hn. rewrite Hn in Hx. exact Hx.
  - rewrite leb_spec. change (Prim2SF 0) with (S754_zero false).
    destruct (Prim2SF x) as [ [ | ] | [ | ] | | [ | ] m e ];
      simpl in Hx; try contradiction; reflexivity.
Qed.

Lemma mul_nonneg (x c : float) (m : positive) (e : Z) :
  Prim2SF c = S754_finite false m e ->
  nonneg_sf (Prim2SF x) -> nonneg_sf (Prim2SF (x * c)).
Proof.
  intros Hc Hx. rewrite mul_spec, Hc. apply SFmul_nonneg, Hx.
Qed.

Lemma add_nonneg (x y : float) :
  nonneg_sf (Prim2SF x) -> nonneg_sf (Prim2SF y) ->
  nonneg_sf (Prim2SF (x + y)).
Proof. intros Hx Hy. rewrite add_spec. apply SFadd_nonneg; assumption. Qed.

Lemma parseInt_digits_nonneg (s : string) :
  nonneg_sf (Prim2SF (parseInt_digits s)).
Proof.
  unfold parseInt_digits. apply float_of_Z_nonneg, read_digits_nonneg. lia.
Qed.

(** Text that begins with a digit reads as a number that is not below
    zero. *)
Lemma parseFloat_digit_text (s : string) :
  starts_digit s = true -> nonneg_sf (Prim2SF (parseFloat s)).
Proof.
  destruct s as [ | c s ]; [ discriminate | ].
  cbn [starts_digit]. intros Hc.
  assert (Hshape : trimStart (String c s) = String c s
                   /\ read_sign (String c s) = (false, String c s)
                   /\ String.prefix "Infinity" (String c s) = false).
  { destruct c as [[ | ] [ | ] [ | ] [ | ] [ | ] [ | ] [ | ] [ | ]];
      vm_compute in Hc; try discriminate Hc;
      (split; [ destruct s as [ | b [ | d s ] ]; reflexivity | split; reflexivity ]). }
  destruct Hshape as (Htrim & Hsign & Hinf).
  unfold parseFloat. rewrite Htrim, Hsign, Hinf.
  pose proof (read_digits_some 0 0 (String c s) Hc) as Hni.
  pose proof (read_digits_nonneg (String c s) 0 0 ltac:(lia)) as Hip.
  destruct (read_digits 0 0 (String c s)) as [[ip ni] rest].
  cbn [fst snd] in Hni, Hip.
  assert (Hvalue : forall (k : nat) (m e : Z),
            (0 < k)%nat -> (0 <= m)%Z ->
            nonneg_sf (Prim2SF match k with
                               | O => nan
                               | S _ => decimal_to_float false m e
                               end)).
  { intros k m e Hk Hm. destruct k; [ lia | ].
    apply decimal_to_float_nonneg, Hm. }
  destruct rest as [ | d after ]; [ apply Hvalue; lia | ].
  destruct (Ascii.eqb d "."); [ | apply Hvalue; lia ].
  pose proof (read_digits_nonneg after ip 0 Hip) as Hm.
  destruct (read_digits ip 0 after) as [[m nf] rest'].
  cbn [fst] in Hm. apply Hvalue; lia.
Qed.

Lemma all_digits_starts_digit (s : string) :
  all_digits s = true -> starts_digit s = true.
Proof.
  destruct s as [ | c s ]; [ discriminate | ]. simpl.
  intros Hd. apply andb_prop in Hd. tauto.
Qed.

Lemma split_dot_head (s whole : string) (rest : list string) :
  split_dot s = whole :: rest -> starts_digit whole = true ->
  starts_digit s = true.
Proof.
  destruct s as [ | c s ]; simpl.
  - intros [= <- <-]. discriminate.
  - destruct (Ascii.eqb c ".").
    + intros [= <- <-]. discriminate.
    + destruct (split_dot s) as [ | seg segs ];
        intros [= <- <-]; simpl; auto.
Qed.

Lemma plain_seconds_starts_digit (s : string) :
  plain_seconds s = true -> starts_digit s = true.
Proof.
  unfold plain_seconds.
  destruct (split_dot s) as [ | whole [ | fraction [ | ? ? ] ] ] eqn:Hsplit;
    try discriminate; intros Hd.
  - apply (split_dot_head s whole [] Hsplit), all_digits_starts_digit, Hd.
  - apply andb_prop in Hd as [Hd _].
    apply (split_dot_head s whole [fraction] Hsplit), all_digits_starts_digit, Hd.
Qed.

Lemma millis_of_nonneg (fraction : option string) :
  nonneg_sf (Prim2SF (millis_of fraction)).
Proof.
  destruct fraction as [digits | ]; [ | exact I ].
  apply parseFloat_digit_text. reflexivity.
Qed.

(** X24. The time the run-log form reads is never NaN and never below
    zero: [parseTimeInputToSeconds] returns null, or a number that is
    zero, positive or (for a digit text too long for a binary64 number)
    +Infinity; so the only input the form has to refuse is the one
    read as null. *)
Theorem parseTimeInputToSeconds_not_negative (s : string) (x : float) :
  parseTimeInputToSeconds s = Some x ->
  isNaN x = false /\ PrimFloat.leb 0 x = true.
Proof.
  intros Hx. apply nonneg_float.
  unfold parseTimeInputToSeconds in Hx.
  destruct (String.eqb s ""); [ discriminate | ].
  destruct (plain_seconds (trim s)) eqn:Hplain.
  - injection Hx as <-.
    apply parseFloat_digit_text, plain_seconds_starts_digit, Hplain.
  - assert (H3600 : Prim2SF 3600 = S754_finite false 7916483719987200 (-41))
      by reflexivity.
    assert (H60 : Prim2SF 60 = S754_finite false 8444249301319680 (-47))
      by reflexivity.
    destruct (split_colon (trim s)) as [ | a [ | b [ | c [ | ? ? ] ] ] ];
      try discriminate.
    + destruct (all_digits a); [ | discriminate ].
      destruct (seconds_field b) as [[sec fraction] | ]; [ | discriminate ].
      destruct (_ && _); [ | discriminate ].
      injection Hx as <-.
      repeat apply add_nonneg;
        auto using parseInt_digits_nonneg, millis_of_nonneg.
      apply (mul_nonneg _ _ _ _ H60), parseInt_digits_nonneg.
    + destruct (all_digits a && two_digits b); [ | discriminate ].
      destruct (seconds_field c) as [[sec fraction] | ]; [ | discriminate ].
      destruct (_ && _); [ | discriminate ].
      injection Hx as <-.
      repeat apply add_nonneg;
        auto using parseInt_digits_nonneg, millis_of_nonneg.
      * apply (mul_nonneg _ _ _ _ H3600), parseInt_digits_nonneg.
      * apply (mul_nonneg _ _ _ _ H60), parseInt_digits_nonneg.
Qed.

End TimeInput.

Lemma parseTimeInputToSeconds_not_negative_witness :
  Forms.parseTimeInputToSeconds " 5:01.121" = Some (5 * 60 + 1 + 0.121)%float
  /\ PrimFloat.leb 0 (5 * 60 + 1 + 0.121) = true.
Proof.
  split; [ reflexivity | ].
  apply (parseTimeInputToSeconds_not_negative " 5:01.121").
  reflexivity.
Defined.

Section GearRatio.
Import Calc.

Lemma positive_finite (x : float) :
  PrimFloat.is_finite x = true -> PrimFloat.leb x 0 = false ->
  exists m e, Prim2SF x = S754_finite false m e.
Proof.
  intros Hfin Hpos. rewrite leb_spec in Hpos.
  change (Prim2SF 0) with (S754_zero false) in Hpos.
  destruct (is_finite_cases x Hfin) as [(s & Hx) | (s & m & e & Hx)];
    rewrite Hx in Hpos.
  - destruct s; discriminate.
  - destruct s; [ discriminate | ]. exists m, e. exact Hx.
Qed.

Lemma number_or_zero_positive (x : float) :
  PrimFloat.leb (number_or_zero (Some x)) 0 = false ->
  number_or_zero (Some x) = x.
Proof.
  unfold number_or_zero, Number_of.
  destruct (truthyP (PNum x)); [ reflexivity | ].
  intros Hpos. vm_compute in Hpos. discriminate.
Qed.

(** X25. For finite tooth counts, [computeGearRatio] returns a ratio
    only when both counts are above zero, and the ratio is then spur
    over pinion, a number that is never NaN and never below zero; when
    a count is zero or negative it returns null. *)
Theorem computeGearRatio_of_finite_counts (pinionTeeth spurTeeth : float) :
  PrimFloat.is_finite pinionTeeth = true ->
  PrimFloat.is_finite spurTeeth = true ->
  match computeGearRatio (Some pinionTeeth) (Some spurTeeth) with
  | Some ratio =>
      PrimFloat.ltb 0 pinionTeeth = true /\ PrimFloat.ltb 0 spurTeeth = true
      /\ ratio = (spurTeeth / pinionTeeth)%float
      /\ isNaN ratio = false /\ PrimFloat.leb 0 ratio = true
  | None =>
      PrimFloat.ltb 0 pinionTeeth = false \/ PrimFloat.ltb 0 spurTeeth = false
  end.
Proof.
  intros Hp Hs. unfold computeGearRatio.
  destruct (PrimFloat.leb (number_or_zero (Some pinionTeeth)) 0) eqn:Hp0;
    cbn [orb].
  - left. unfold number_or_zero, Number_of in Hp0.
    destruct (truthyP (PNum pinionTeeth)) eqn:Ht.
    + apply not_true_is_false. intros Hlt.
      rewrite ltb_spec in Hlt. rewrite leb_spec in Hp0.
      unfold SFltb, SFleb in *.
      rewrite (SFcompare_antisym (Prim2SF pinionTeeth) (Prim2SF 0)) in Hlt.
      destruct (SFcompare (Prim2SF pinionTeeth) (Prim2SF 0)) as [[ | | ] | ];
        discriminate.
    + apply not_true_is_false. intros Hlt. simpl in Ht.
      apply negb_false_iff, orb_prop in Ht as [Hz | Hn].
      * rewrite ltb_spec in Hlt. rewrite eqb_spec in Hz.
        unfold SFltb, SFeqb in *.
        rewrite (SFcompare_antisym (Prim2SF pinionTeeth) (Prim2SF 0)) in Hlt.
        destruct (SFcompare (Prim2SF pinionTeeth) (Prim2SF 0)) as [[ | | ] | ];
          discriminate.
      * unfold PrimFloat.is_finite, PrimFloat.is_nan in Hp.
        unfold isNaN in Hn. rewrite Hn in Hp. discriminate.
  - destruct (PrimFloat.leb (number_or_zero (Some spurTeeth)) 0) eqn:Hs0.
    + right. unfold number_or_zero, Number_of in Hs0.
      destruct (truthyP (PNum spurTeeth)) eqn:Ht.
      * apply not_true_is_false. intros Hlt.
        rewrite ltb_spec in Hlt. rewrite leb_spec in Hs0.
        unfold SFltb, SFleb in *.
        rewrite (SFcompare_antisym (Prim2SF spurTeeth) (Prim2SF 0)) in Hlt.
        destruct (SFcompare (Prim2SF spurTeeth) (Prim2SF 0)) as [[ | | ] | ];
          discriminate.
      * apply not_true_is_false. intros Hlt. simpl in Ht.
        apply negb_false_iff, orb_prop in Ht as [Hz | Hn].
        -- rewrite ltb_spec in Hlt. rewrite eqb_spec in Hz.
           unfold SFltb, SFeqb in *.
           rewrite (SFcompare_antisym (Prim2SF spurTeeth) (Prim2SF 0)) in Hlt.
           destruct (SFcompare (Prim2SF spurTeeth) (Prim2SF 0)) as [[ | | ] | ];
             discriminate.
        -- unfold PrimFloat.is_finite, PrimFloat.is_nan in Hs.
           unfold isNaN in Hn. rewrite Hn in Hs. discriminate.
    + pose proof (number_or_zero_positive _ Hp0) as Hpe.
      pose proof (number_or_zero_positive _ Hs0) as Hse.
      rewrite Hpe in Hp0 |- *. rewrite Hse in Hs0 |- *.
      destruct (positive_finite _ Hp Hp0) as (mp & ep & Hp2).
      destruct (positive_finite _ Hs Hs0) as (ms & es & Hs2).
      assert (Hratio : nonneg_sf (Prim2SF (spurTeeth / pinionTeeth)))
        by (rewrite div_spec, Hp2, Hs2; apply SFdiv_finite_nonneg).
      apply nonneg_float in Hratio as [Hnan Hle].
      repeat split; try assumption;
        rewrite ltb_spec; change (Prim2SF 0) with (S754_zero false);
        rewrite ?Hp2, ?Hs2; reflexivity.
Qed.

End GearRatio.

Lemma computeGearRatio_of_finite_counts_witness :
  Calc.computeGearRatio (Some 20%float) (Some 80%float) = Some 4%float
  /\ match Calc.computeGearRatio (Some 20%float) (Some 80%float) with
     | Some ratio =>
         PrimFloat.ltb 0 20 = true /\ PrimFloat.ltb 0 80 = true
         /\ ratio = (80 / 20)%float
         /\ isNaN ratio = false /\ PrimFloat.leb 0 ratio = true
     | None => PrimFloat.ltb 0 20 = false \/ PrimFloat.ltb 0 80 = false
     end.
Proof.
  split; [ reflexivity | ].
  apply (computeGearRatio_of_finite_counts 20%float 80%float); reflexivity.
Defined.
